(** * go-multiaddr-dns: resolution of DNS-bearing multiaddresses

    A shallow embedding of the resolver of [resolve.go], the offline
    p2p-forge resolver of [resolve_static.go] and the DNS-over-HTTPS backend
    of [resolve_doh.go], with the properties their specification states.
    The domain-scoped dispatcher is modelled from the specification.

    Go values are modelled as follows.
    - A [string] is a Rocq [string] (a sequence of bytes).
    - [net.IP] is a byte slice: a [list byte]; the nil slice is [[]].
    - [ma.Multiaddr] is the sequence of its components; the nil multiaddress
      is [[]] (a non-nil multiaddress has at least one component).  Two
      multiaddresses are [Equal] when their canonical forms coincide, that
      is, when they are the same sequence of components.
    - A function returning [(T, error)] returns a [result T].
    - A function that may panic returns an [exec]; so does a loop, whose
      model is indexed by the number of iterations it may use. *)

From Stdlib Require Import ZArith List String Ascii Bool Lia.
From Stdlib.Strings Require Import Byte.
From stdpp Require Import base option list strings gmap.
Import ListNotations.

Local Open Scope string_scope.
Local Open Scope list_scope.
Local Open Scope Z_scope.

(** ** Errors, results and executions *)

(** The errors this package creates or forwards: [*net.DNSError] (only the
    fields the package sets) and the errors made by [errors.New] or returned
    by the libraries, identified by their message. *)
Inductive error : Type :=
| DNSError (Err Name Server : string)
| ErrorString (msg : string).

Inductive result (A : Type) : Type :=
| Ok (a : A)
| Error (e : error).
Arguments Ok {A} a.
Arguments Error {A} e.

Inductive exec (A : Type) : Type :=
| Returns (a : A)
| Panics (msg : string)
| OutOfFuel.
Arguments Returns {A} a.
Arguments Panics {A} msg.
Arguments OutOfFuel {A}.

Definition is_error {A} (r : result A) : bool :=
  match r with Ok _ => false | Error _ => true end.

(** ** Go strings *)

Module GoStrings.

(** [strings.HasPrefix(s, prefix)] *)
Fixpoint HasPrefix (s prefix : string) {struct prefix} : bool :=
  match prefix with
  | EmptyString => true
  | String p prefix' =>
      match s with
      | EmptyString => false
      | String c s' => if Ascii.eqb c p then HasPrefix s' prefix' else false
      end
  end.

(** [s[n:]] for [n <= len(s)] *)
Fixpoint slice_from (n : nat) (s : string) : string :=
  match n, s with
  | O, _ => s
  | S n', String _ s' => slice_from n' s'
  | S _, EmptyString => EmptyString
  end.

(** [s[:n]] for [n <= len(s)] *)
Fixpoint slice_to (n : nat) (s : string) : string :=
  match n, s with
  | O, _ => EmptyString
  | S n', String c s' => String c (slice_to n' s')
  | S _, EmptyString => EmptyString
  end.

(** [strings.HasSuffix(s, suffix)]:
    [len(s) >= len(suffix) && s[len(s)-len(suffix):] == suffix] *)
Definition HasSuffix (s suffix : string) : bool :=
  (String.length suffix <=? String.length s)%nat
  && String.eqb (slice_from (String.length s - String.length suffix) s) suffix.

(** [strings.TrimPrefix(s, prefix)] *)
Definition TrimPrefix (s prefix : string) : string :=
  if HasPrefix s prefix then slice_from (String.length prefix) s else s.

(** [strings.TrimSuffix(s, suffix)] *)
Definition TrimSuffix (s suffix : string) : string :=
  if HasSuffix s suffix
  then slice_to (String.length s - String.length suffix) s
  else s.

(** [strings.ReplaceAll(s, old, new)] for a non-empty [old]: the
    non-overlapping occurrences of [old] are replaced from left to right.
    [skip] counts the bytes of an occurrence still to be passed over. *)
Fixpoint replace_from (old new : string) (skip : nat) (s : string) : string :=
  match s with
  | EmptyString => EmptyString
  | String c s' =>
      match skip with
      | S k => replace_from old new k s'
      | O =>
          if HasPrefix s old
          then new +:+ replace_from old new (String.length old - 1) s'
          else String c (replace_from old new 0 s')
      end
  end.

Definition ReplaceAll (s old new : string) : string :=
  replace_from old new 0 s.

(** [strings.Split(s, sep)] for a one-byte separator: the fields between the
    separators; never empty (splitting the empty string gives one empty field). *)
Fixpoint Split (s : string) (sep : ascii) : list string :=
  match s with
  | EmptyString => [EmptyString]
  | String c s' =>
      if Ascii.eqb c sep then EmptyString :: Split s' sep
      else match Split s' sep with
           | [] => [String c EmptyString]
           | f :: fs => String c f :: fs
           end
  end.

(** [strings.Trim(s, cutset)] for a one-byte cutset *)
Fixpoint TrimLeft (s : string) (cut : ascii) : string :=
  match s with
  | String c s' => if Ascii.eqb c cut then TrimLeft s' cut else s
  | EmptyString => EmptyString
  end.

Fixpoint TrimRight (s : string) (cut : ascii) : string :=
  match s with
  | EmptyString => EmptyString
  | String c s' =>
      match TrimRight s' cut with
      | EmptyString => if Ascii.eqb c cut then EmptyString else String c EmptyString
      | t => String c t
      end
  end.

Definition Trim (s : string) (cut : ascii) : string :=
  TrimRight (TrimLeft s cut) cut.

Definition digit_of (n : N) : ascii :=
  ascii_of_N (if (n <? 10)%N then 48 + n else 87 + n)%N.

Fixpoint format_go (base : N) (fuel : nat) (n : N) (acc : string) : string :=
  match fuel with
  | O => acc
  | S fuel' =>
      let acc' := String (digit_of (n mod base)%N) acc in
      if (n / base =? 0)%N then acc' else format_go base fuel' (n / base)%N acc'
  end.

(** [strconv.Itoa] on a natural number, and lower-case hexadecimal; no
    leading zeros (numbers of up to 40 digits) *)
Definition dec (n : N) : string := format_go 10 40 n EmptyString.
Definition hex (n : N) : string := format_go 16 40 n EmptyString.

(** the verb [%d] of [fmt.Sprintf] *)
Definition Itoa (z : Z) : string :=
  if (z <? 0)%Z then String "-" (dec (Z.to_N (- z))) else dec (Z.to_N z).

End GoStrings.

(** ** The [net] package: addresses *)

Module net.

(** [type IP []byte] *)
Definition IP : Type := list byte.

Definition IPv4len : nat := 4.
Definition IPv6len : nat := 16.

Definition isNil (ip : IP) : bool :=
  match ip with [] => true | _ => false end.

(** [isZeros(p)] *)
Definition isZeros (p : list byte) : bool :=
  forallb (fun b => Byte.eqb b x00) p.

(** [ip.To4()]: the four-byte form of an IPv4 address, nil otherwise. *)
Definition To4 (ip : IP) : IP :=
  if (length ip =? IPv4len)%nat then ip
  else if (length ip =? IPv6len)%nat
          && isZeros (firstn 10 ip)
          && Byte.eqb (nth 10 ip x00) xff
          && Byte.eqb (nth 11 ip x00) xff
       then skipn 12 ip
       else [].

(** [ip.To16()] *)
Definition To16 (ip : IP) : IP :=
  match ip with
  | [a; b; c; d] => [x00; x00; x00; x00; x00; x00; x00; x00; x00; x00; xff; xff; a; b; c; d]
  | _ => if (length ip =? IPv6len)%nat then ip else []
  end.

End net.

(** [net.IPAddr] *)
Record IPAddr : Type := { IP : net.IP; Zone : string }.

(** ** Multiaddresses (package [ma]) *)

(** [ma.Protocol], without the fields of the binary encoding. *)
Record Protocol : Type := { Code : Z; Name : string }.

(** [ma.Component]: a protocol and the string form of its value. *)
Record Component : Type := { protocol : Protocol; Value : string }.

Definition Multiaddr : Type := list Component.

#[global] Instance Protocol_eq_dec : EqDecision Protocol.
Proof. solve_decision. Defined.
#[global] Instance Component_eq_dec : EqDecision Component.
Proof. solve_decision. Defined.

Module ma.

(** [m.Equal(o)] *)
Definition Equal (m o : Multiaddr) : bool := bool_decide (m = o).

(** [m.Encapsulate(o)] *)
Definition Encapsulate (m o : Multiaddr) : Multiaddr := m ++ o.

(** [ma.Join(ms...)] *)
Definition Join (ms : list Multiaddr) : Multiaddr := concat ms.

(** [ma.ForEach(m, cb)]: [cb] is called on the components in order, until
    it returns false.  The variables the closure updates are the state [s]. *)
Fixpoint ForEach {S : Type} (m : Multiaddr) (cb : Component -> S -> S * bool)
    (s : S) : S :=
  match m with
  | [] => s
  | c :: m' =>
      let '(s', continue) := cb c s in
      if continue then ForEach m' cb s' else s'
  end.

(** [ma.SplitFunc(m, cb)]: splits before the first component on which [cb]
    returns true; a part without components is nil. *)
Fixpoint SplitFunc (m : Multiaddr) (cb : Component -> bool)
    : Multiaddr * Multiaddr :=
  match m with
  | [] => ([], [])
  | c :: m' =>
      if cb c then ([], m)
      else let '(pre, post) := SplitFunc m' cb in (c :: pre, post)
  end.

(** [ma.SplitFirst(m)] *)
Definition SplitFirst (m : Multiaddr) : option Component * Multiaddr :=
  match m with
  | [] => (None, [])
  | c :: m' => (Some c, m')
  end.

End ma.

(** The library functions whose results the package only passes on:
    [net.ParseIP], [ip.String()] and [ma.NewMultiaddr]. *)
Class NetLib : Type := {
  ParseIP : string -> net.IP;
  IP_String : net.IP -> string;
  NewMultiaddr : string -> result Multiaddr
}.

(** ** dns.go *)

Definition P_DNS4 : Z := 0x0036.
Definition P_DNS6 : Z := 0x0037.
Definition P_DNSADDR : Z := 0x0038.

Definition Dns4Protocol : Protocol := {| Code := P_DNS4; Name := "dns4" |}.
Definition Dns6Protocol : Protocol := {| Code := P_DNS6; Name := "dns6" |}.
Definition DnsaddrProtocol : Protocol := {| Code := P_DNSADDR; Name := "dnsaddr" |}.

(** [dnsVal] of the DNS transcoder: [bytes.IndexByte(b, '/') >= 0] is an
    error. *)
Fixpoint contains_slash (b : string) : bool :=
  match b with
  | EmptyString => false
  | String c b' => if Ascii.eqb c "/" then true else contains_slash b'
  end.

Definition dnsVal (b : string) : result unit :=
  if contains_slash b
  then Error (ErrorString ("domain name " +:+ b +:+ " contains a slash"))
  else Ok tt.

(** ** resolve.go *)

Definition ResolvableProtocols : list Protocol :=
  [DnsaddrProtocol; Dns4Protocol; Dns6Protocol].

Definition dnsaddrTXTPrefix : string := "dnsaddr=".

(** [type backend interface]; the context argument carries cancellation
    only and is left out. *)
Record backend : Type := {
  LookupIPAddr : string -> result (list IPAddr);
  LookupTXT : string -> result (list string)
}.

Record Resolver : Type := { Backend : backend }.

Module MockBackend.

Record t : Type := {
  IP : gmap string (list IPAddr);
  TXT : gmap string (list string)
}.

Definition LookupIPAddr (r : t) (name : string) : result (list IPAddr) :=
  match IP r !! name with
  | Some results => Ok results
  | None => Ok []
  end.

Definition LookupTXT (r : t) (name : string) : result (list string) :=
  match TXT r !! name with
  | Some results => Ok results
  | None => Ok []
  end.

Definition as_backend (r : t) : backend :=
  Build_backend (LookupIPAddr r) (LookupTXT r).

End MockBackend.

(** The predicate of the three [switch c.Protocol().Code] statements. *)
Definition resolvable (c : Component) : bool :=
  let code := Code (protocol c) in
  (code =? Code Dns4Protocol) || (code =? Code Dns6Protocol)
  || (code =? Code DnsaddrProtocol).

(** [Matches], for a non-nil multiaddress: the closure sets [matches]. *)
Definition Matches (maddr : Multiaddr) : bool :=
  ma.ForEach maddr
    (fun c matches =>
       let matches := if resolvable c then true else matches in
       (matches, negb matches))
    false.

(** [addrLen]: the closure increments [length]. *)
Definition addrLen (maddr : Multiaddr) : Z :=
  ma.ForEach maddr (fun _ length => (length + 1, true)) 0.

(** [offset]: [ma.SplitFunc] with a closure that counts the captured
    [offset] down and asks for the split when it is 0; the part after the
    split is returned. *)
Fixpoint offset (maddr : Multiaddr) (offset_ : Z) : Multiaddr :=
  match maddr with
  | [] => []
  | _ :: maddr' => if offset_ =? 0 then maddr else offset maddr' (offset_ - 1)
  end.

(** [cross]: the inner loop appends [x.Encapsulate(y)] for every [y]. *)
Definition cross_inner (x : Multiaddr) (b res : list Multiaddr) : list Multiaddr :=
  fold_left (fun res y => res ++ [ma.Encapsulate x y]) b res.

Definition cross (a b : list Multiaddr) : list Multiaddr :=
  fold_left (fun res x => cross_inner x b res) a [].

Definition is_nil {A : Type} (l : list A) : bool :=
  match l with [] => true | _ => false end.

(** What one iteration of the loop of [Resolve] does: it goes on to the next
    iteration with new values of [results] and [maddr], or returns (a
    [break] returns [results, nil]), or panics. *)
Inductive step : Type :=
| Continue (results : list Multiaddr) (maddr : Multiaddr)
| Return (res : result (list Multiaddr))
| Panic (msg : string).

Section Resolve.

Context {lib : NetLib}.
Variable r : Resolver.

(** The body of the loop over the records of a [dns4] or [dns6] component:
    [None] when the record is skipped ([continue]), otherwise the result of
    [ma.NewMultiaddr]. *)
Definition ip_record (v4 : bool) (r : IPAddr) : option (result Multiaddr) :=
  let ip4 := net.To4 (IP r) in
  if v4 then
    if net.isNil ip4 then None
    else Some (NewMultiaddr ("/ip4/" +:+ IP_String ip4))
  else
    if negb (net.isNil ip4) then None
    else Some (NewMultiaddr ("/ip6/" +:+ IP_String (IP r))).

Fixpoint resolve_ip_records (v4 : bool) (records : list IPAddr)
    (resolved : list Multiaddr) : result (list Multiaddr) :=
  match records with
  | [] => Ok resolved
  | r :: records' =>
      match ip_record v4 r with
      | None => resolve_ip_records v4 records' resolved
      | Some (Error err) => Error err
      | Some (Ok rmaddr) => resolve_ip_records v4 records' (resolved ++ [rmaddr])
      end
  end.

(** The body of the loop over the TXT records of a [dnsaddr] component:
    [None] when the record is skipped, otherwise the multiaddress appended
    to [resolved]. [maddr] is what follows the component, [length] its
    length (0 when it is nil). *)
Definition dnsaddr_record (maddr : Multiaddr) (length : Z) (r : string)
    : option Multiaddr :=
  if negb (GoStrings.HasPrefix r dnsaddrTXTPrefix) then None
  else
    match NewMultiaddr (GoStrings.slice_from (String.length dnsaddrTXTPrefix) r) with
    | Error _ => None
    | Ok rmaddr =>
        if negb (is_nil maddr) then
          let rmlen := addrLen rmaddr in
          if rmlen <? length then None
          else if negb (ma.Equal maddr (offset rmaddr (rmlen - length))) then None
          else Some rmaddr
        else Some rmaddr
    end.

Fixpoint resolve_txt_records (maddr : Multiaddr) (length : Z)
    (records : list string) (resolved : list Multiaddr) : list Multiaddr :=
  match records with
  | [] => resolved
  | r :: records' =>
      match dnsaddr_record maddr length r with
      | None => resolve_txt_records maddr length records' resolved
      | Some rmaddr => resolve_txt_records maddr length records' (resolved ++ [rmaddr])
      end
  end.

(** The end of an iteration, from [if len(resolved) == 0]. *)
Definition combine_resolved (results resolved : list Multiaddr)
    (maddr : Multiaddr) : step :=
  if (length resolved =? 0)%nat then Return (Ok [])
  else if (length results =? 0)%nat then Continue resolved maddr
  else Continue (cross results resolved) maddr.

Definition iteration (results : list Multiaddr) (maddr : Multiaddr) : step :=
  let '(keep, maddr) := ma.SplitFunc maddr resolvable in
  (* Append the part to keep. *)
  let results :=
    if negb (is_nil keep) then
      if is_nil results then results ++ [keep]
      else map (fun r => ma.Encapsulate r keep) results
    else results in
  (* Check whether the loop is done. *)
  if is_nil maddr then Return (Ok results)
  else
    match ma.SplitFirst maddr with
    | (None, _) => Panic "nil pointer dereference"
    | (Some resolve, maddr) =>
        let proto := protocol resolve in
        let value := Value resolve in
        if (Code proto =? Code Dns4Protocol) || (Code proto =? Code Dns6Protocol)
        then
          let v4 := Code proto =? Code Dns4Protocol in
          match LookupIPAddr (Backend r) value with
          | Error err => Return (Error err)
          | Ok records =>
              match resolve_ip_records v4 records [] with
              | Error err => Return (Error err)
              | Ok resolved => combine_resolved results resolved maddr
              end
          end
        else if Code proto =? Code DnsaddrProtocol
        then
          match LookupTXT (Backend r) ("_dnsaddr." +:+ value) with
          | Error err => Return (Error err)
          | Ok records =>
              let length := if negb (is_nil maddr) then addrLen maddr else 0 in
              let resolved := resolve_txt_records maddr length records [] in
              (* consumes the rest of the multiaddr as part of the match. *)
              combine_resolved results resolved []
          end
        else Panic "unreachable"
    end.

(** The loop [for i := 0; maddr != nil; i++], allowed [fuel] iterations,
    followed by [return results, nil]. *)
Fixpoint Resolve_loop (fuel : nat) (results : list Multiaddr)
    (maddr : Multiaddr) : exec (result (list Multiaddr)) :=
  if is_nil maddr then Returns (Ok results)
  else
    match fuel with
    | O => OutOfFuel
    | S fuel' =>
        match iteration results maddr with
        | Continue results' maddr' => Resolve_loop fuel' results' maddr'
        | Return res => Returns res
        | Panic msg => Panics msg
        end
    end.

(** The method [Resolve] of [Resolver]; the loop is allowed one iteration
    per component of [maddr], which is as many as it can need. *)
Definition Resolve (maddr : Multiaddr) : exec (result (list Multiaddr)) :=
  Resolve_loop (length maddr) [] maddr.

End Resolve.


(** ** resolve_static.go *)

(** [cid.Decode] followed by [c.Type()]: the codec of the content identifier
    a string encodes, or an error. *)
Class CidLib : Type := { cid_Decode_Type : string -> result Z }.

(** [multicodec.Libp2pKey] *)
Definition Libp2pKey : Z := 0x72.

Definition minLibp2pPeerIDLength : nat := 42.
Definition minP2PForgeDomain : nat := 7 + 1 + minLibp2pPeerIDLength + 1 + 1.

Section Static.

Context {lib : NetLib} {cids : CidLib}.

Definition isLibp2pPeerID (s : string) : bool :=
  if (String.length s <? minLibp2pPeerIDLength)%nat then false
  else
    match cid_Decode_Type s with
    | Error _ => false
    | Ok type => type =? Libp2pKey
    end.

(** [parseP2PForgeDomain]: [None] is the nil slice. *)
Definition parseP2PForgeDomain (domain : string) : option (list string) :=
  if (String.length domain <? minP2PForgeDomain)%nat then None
  else
    let parts := GoStrings.Split domain "." in
    if (length parts <? 3)%nat then None
    else
      match parts with
      | _ :: peerID :: _ => if negb (isLibp2pPeerID peerID) then None else Some parts
      | _ => None
      end.

Definition decodeIPv4 (encoded : string) : net.IP :=
  let ipStr := GoStrings.ReplaceAll encoded "-" "." in
  let ip := ParseIP ipStr in
  if net.isNil ip then []
  else if net.isNil (net.To4 ip) then []
  else ip.

Definition decodeIPv6 (encoded : string) : net.IP :=
  let encoded :=
    if GoStrings.HasPrefix encoded "0--" then GoStrings.TrimPrefix encoded "0"
    else encoded in
  let encoded :=
    if GoStrings.HasSuffix encoded "--0" then GoStrings.TrimSuffix encoded "0"
    else encoded in
  let ipStr := GoStrings.ReplaceAll encoded "--" "::" in
  let ipStr := GoStrings.ReplaceAll ipStr "-" ":" in
  let ip := ParseIP ipStr in
  if net.isNil ip then []
  else if negb (net.isNil (net.To4 ip)) then []
  else ip.

(** [resolveP2PForge]; [parts[0]] panics on an empty slice. *)
Definition resolveP2PForge (domain : string) (parts : list string)
    : exec (result (list IPAddr)) :=
  match parts with
  | [] => Panics "index out of range"
  | encodedIP :: _ =>
      if negb (net.isNil (decodeIPv6 encodedIP))
      then Returns (Ok [ {| IP := decodeIPv6 encodedIP; Zone := EmptyString |} ])
      else if negb (net.isNil (decodeIPv4 encodedIP))
      then Returns (Ok [ {| IP := decodeIPv4 encodedIP; Zone := EmptyString |} ])
      else Returns (Error (DNSError "invalid IP encoding in p2p-forge domain"
                                    domain EmptyString))
  end.

End Static.

(** ** resolve_doh.go *)

Module http.

Record Request : Type := {
  Method : string;
  URL : string;
  Header : list (string * string)
}.

(** A response: its status code and what [ioutil.ReadAll(resp.Body)]
    gives. *)
Record Response : Type := { StatusCode : Z; Body : result string }.

(** [*http.Client]: the method [Do]. *)
Record Client : Type := { Do : Request -> result Response }.

Definition Header_Add (req : Request) (key value : string) : Request :=
  {| Method := Method req; URL := URL req;
     Header := Header req ++ [(key, value)] |}.

End http.

(** An element of the [Answer] array of the JSON body. *)
Record Answer : Type := { Type_ : Z; Data : string }.

(** The library functions of the DNS-over-HTTPS client: [url.Parse] with
    [u.String()] once [u.RawQuery] is set, [url.QueryEscape],
    [http.NewRequest] without a body, and [json.Unmarshal] into the
    structure with the [Answer] array. *)
Class WebLib : Type := {
  url_with_query : string -> string -> result string;
  QueryEscape : string -> string;
  NewRequest : string -> string -> result http.Request;
  json_Unmarshal : string -> result (list Answer)
}.

Record DOHResolver : Type := { Host : string; Client : http.Client }.

Definition error_message (e : error) : string :=
  match e with
  | DNSError err _ _ => err
  | ErrorString msg => msg
  end.

Section DOH.

Context {lib : NetLib} {web : WebLib}.

(** the loop of [lookup] over [parsed.Answer] *)
Fixpoint collect_answers (type_ : Z) (parsed : list Answer)
    (answers : list string) : list string :=
  match parsed with
  | [] => answers
  | a :: parsed' =>
      if Type_ a =? type_
      then collect_answers type_ parsed' (answers ++ [Data a])
      else collect_answers type_ parsed' answers
  end.

Definition lookup (r : DOHResolver) (name : string) (type_ : Z)
    : exec (result (list string)) :=
  let RawQuery :=
    "name=" +:+ QueryEscape name +:+ "&type=" +:+ GoStrings.Itoa type_ in
  match url_with_query (Host r) RawQuery with
  | Error err => Panics (error_message err)
  | Ok u =>
      match NewRequest "GET" u with
      | Error err => Returns (Error err)
      | Ok req =>
          let req := http.Header_Add req "Accept" "application/dns-json" in
          match http.Do (Client r) req with
          | Error err => Returns (Error err)
          | Ok resp =>
              if negb (http.StatusCode resp =? 200)
              then Returns (Error (ErrorString "Error getting response from resolver"))
              else
                match http.Body resp with
                | Error err => Returns (Error err)
                | Ok body =>
                    match json_Unmarshal body with
                    | Error err => Returns (Error err)
                    | Ok parsed => Returns (Ok (collect_answers type_ parsed []))
                    end
                end
          end
      end
  end.

(** the loop of [LookupIPAddr] over [records] *)
Fixpoint ip_results (records : list string) (result : list IPAddr) : list IPAddr :=
  match records with
  | [] => result
  | r :: records' =>
      ip_results records' (result ++ [ {| IP := ParseIP r; Zone := EmptyString |} ])
  end.

Definition DOH_LookupIPAddr (r : DOHResolver) (host : string)
    : exec (result (list IPAddr)) :=
  match lookup r host 1 with
  | Returns (Error err) => Returns (Error err)
  | Returns (Ok records) => Returns (Ok (ip_results records []))
  | Panics msg => Panics msg
  | OutOfFuel => OutOfFuel
  end.

Definition double_quote : ascii := ascii_of_N 34.

Fixpoint txt_results (records : list string) (results : list string) : list string :=
  match records with
  | [] => results
  | r :: records' =>
      txt_results records' (results ++ [GoStrings.Trim r double_quote])
  end.

Definition DOH_LookupTXT (r : DOHResolver) (host : string)
    : exec (result (list string)) :=
  match lookup r host 16 with
  | Returns (Error err) => Returns (Error err)
  | Returns (Ok records) => Returns (Ok (txt_results records []))
  | Panics msg => Panics msg
  | OutOfFuel => OutOfFuel
  end.

End DOH.

(** ** The domain-scoped dispatcher *)

Module Dispatcher.

(** Modelled from the spec: the dispatcher of section 4.5 and its
    constructor [NewResolver] (section 6); the version of resolve.go that
    defines them is not among the sources, only its tests are.  A dispatcher
    has exactly one default backend and a table from domain suffixes to
    backends; a key of the table is the list of the labels of the domain in
    right-to-left order. *)
Record t : Type := {
  def : backend;
  custom : gmap (list string) backend;
  maxResolvedAddrs : Z
}.

(** Modelled from the spec: the options of [NewResolver]. *)
Inductive Option_ : Type :=
| WithDefaultResolver (b : backend)
| WithDomainResolver (d : string) (b : backend)
| WithMaxResolvedAddrs (n : Z).

(** Modelled from the spec: a hostname is split into labels at the dots;
    keys are normalized in right-to-left order. *)
Definition labels (h : string) : list string := GoStrings.Split h ".".
Definition key (d : string) : list string := rev (labels d).

Record config : Type := {
  cfg_def : option backend;
  cfg_custom : gmap (list string) backend;
  cfg_max : Z
}.

Definition apply_option (c : config) (o : Option_) : config :=
  match o with
  | WithDefaultResolver b =>
      {| cfg_def := Some b; cfg_custom := cfg_custom c; cfg_max := cfg_max c |}
  | WithDomainResolver d b =>
      {| cfg_def := cfg_def c; cfg_custom := <[key d := b]> (cfg_custom c);
         cfg_max := cfg_max c |}
  | WithMaxResolvedAddrs n =>
      {| cfg_def := cfg_def c; cfg_custom := cfg_custom c; cfg_max := n |}
  end.

(** Modelled from the spec: [NewResolver(options...)]; the default backend
    is required, the reference cap is 100. *)
Definition NewResolver (options : list Option_) : result t :=
  let c := fold_left apply_option options
             {| cfg_def := None; cfg_custom := ∅; cfg_max := 100 |} in
  match cfg_def c with
  | None => Error (ErrorString "no default resolver")
  | Some d =>
      Ok {| def := d; custom := cfg_custom c; maxResolvedAddrs := cfg_max c |}
  end.

(** Modelled from the spec: step 2 of the lookup algorithm.  The keys that
    are suffixes of the labels of [h] are the prefixes of [key h]; they are
    tried from the longest to the shortest non-empty one. *)
Fixpoint longest_key (custom : gmap (list string) backend)
    (rl : list string) (n : nat) : option (list string) :=
  match n with
  | O => None
  | S n' =>
      match custom !! firstn n rl with
      | Some _ => Some (firstn n rl)
      | None => longest_key custom rl n'
      end
  end.

Definition route (r : t) (h : string) : option (list string) :=
  longest_key (custom r) (key h) (length (key h)).

Definition getResolver (r : t) (h : string) : backend :=
  match route r h with
  | Some k => match custom r !! k with Some b => b | None => def r end
  | None => def r
  end.

Section Lookup.

Context {lib : NetLib} {cids : CidLib}.

(** Modelled from the spec: step 1 of the lookup algorithm, the offline
    answer for a p2p-forge domain; [None] when the domain has not the shape
    or its first label encodes no address. *)
Definition offline (h : string) : option (list IPAddr) :=
  match parseP2PForgeDomain h with
  | None => None
  | Some parts =>
      match resolveP2PForge h parts with
      | Returns (Ok addrs) => Some addrs
      | _ => None
      end
  end.

(** Modelled from the spec: the lookup algorithm, steps 1 to 3.  The offline
    resolver yields addresses only, so that [LookupTXT] starts at step 2. *)
Definition LookupIPAddr (r : t) (h : string) : result (list IPAddr) :=
  match offline h with
  | Some addrs => Ok addrs
  | None => LookupIPAddr (getResolver r h) h
  end.

Definition LookupTXT (r : t) (h : string) : result (list string) :=
  LookupTXT (getResolver r h) h.

Definition as_backend (r : t) : backend :=
  Build_backend (LookupIPAddr r) (LookupTXT r).

End Lookup.

End Dispatcher.

(** ** A reference model of the library functions

    The theorems below hold for every [NetLib].  The concrete scenarios (the
    cases of the test files) are evaluated with this model of [net.ParseIP],
    [ip.String()] and [ma.NewMultiaddr]: textual IPv4 and IPv6 addresses
    without zone and without an embedded dotted quad, and the multiaddress
    protocols the tests use. *)

Module GoRef.

Definition digit_val (base : N) (c : ascii) : option N :=
  let n := N_of_ascii c in
  let v :=
    if (48 <=? n)%N && (n <=? 57)%N then Some (n - 48)%N
    else if (97 <=? n)%N && (n <=? 102)%N then Some (n - 87)%N
    else if (65 <=? n)%N && (n <=? 70)%N then Some (n - 55)%N
    else None in
  match v with
  | Some d => if (d <? base)%N then Some d else None
  | None => None
  end.

Definition big : N := 0xFFFFFF.

(** [dtoi] and [xtoi]: the number at the start of [s] and the rest of [s];
    [None] without a digit or from [big] on. *)
Fixpoint number_go (base : N) (s : string) (n : N) (seen : bool)
    : option (N * string) :=
  match s with
  | EmptyString => if seen then Some (n, s) else None
  | String c s' =>
      match digit_val base c with
      | Some d =>
          let n' := (n * base + d)%N in
          if (big <=? n')%N then None else number_go base s' n' true
      | None => if seen then Some (n, s) else None
      end
  end.

Definition dtoi (s : string) : option (N * string) := number_go 10 s 0%N false.
Definition xtoi (s : string) : option (N * string) := number_go 16 s 0%N false.

Definition byte_of (n : N) : byte :=
  match Byte.of_N n with Some b => b | None => x00 end.

Definition v4InV6Prefix : list byte :=
  [x00; x00; x00; x00; x00; x00; x00; x00; x00; x00; xff; xff].

Fixpoint join (sep : string) (l : list string) : string :=
  match l with
  | [] => EmptyString
  | [s] => s
  | s :: l' => s +:+ sep +:+ join sep l'
  end.

(** [parseIPv4] *)
Definition parse_octet (f : string) : option byte :=
  match dtoi f with
  | Some (n, EmptyString) =>
      if (0xFF <? n)%N then None
      else if (1 <? String.length f)%nat && GoStrings.HasPrefix f "0" then None
      else Some (byte_of n)
  | _ => None
  end.

Definition parseIPv4 (s : string) : net.IP :=
  match map parse_octet (GoStrings.Split s ".") with
  | [Some a; Some b; Some c; Some d] => v4InV6Prefix ++ [a; b; c; d]
  | _ => []
  end.

(** [parseIPv6]: the loop reads up to eight groups; [ellipsis] is the number
    of groups before the [::]. *)
Fixpoint parse_groups (fuel : nat) (s : string) (groups : list N)
    (ellipsis : option nat) : option (string * list N * option nat) :=
  match fuel with
  | O => Some (s, groups, ellipsis)
  | S fuel' =>
      match xtoi s with
      | None => None
      | Some (n, s) =>
          if (0xFFFF <? n)%N then None
          else
            let groups := groups ++ [n] in
            match s with
            | EmptyString => Some (s, groups, ellipsis)
            | String c s =>
                if negb (Ascii.eqb c ":") || is_nil (list_ascii_of_string s)
                then None
                else
                  match s with
                  | String ":" s' =>
                      match ellipsis with
                      | Some _ => None
                      | None =>
                          match s' with
                          | EmptyString => Some (s', groups, Some (length groups))
                          | _ => parse_groups fuel' s' groups (Some (length groups))
                          end
                      end
                  | _ => parse_groups fuel' s groups ellipsis
                  end
            end
      end
  end.

Definition group_bytes (g : N) : list byte :=
  [byte_of (g / 256)%N; byte_of (g mod 256)%N].

Definition expand_groups (groups : list N) (ellipsis : option nat) : net.IP :=
  if (length groups <? 8)%nat then
    match ellipsis with
    | None => []
    | Some e =>
        flat_map group_bytes
          (firstn e groups ++ repeat 0%N (8 - length groups) ++ skipn e groups)
    end
  else
    match ellipsis with
    | Some _ => []
    | None => flat_map group_bytes groups
    end.

Definition parseIPv6 (s : string) : net.IP :=
  match s with
  | String ":" (String ":" EmptyString) => expand_groups [] (Some 0%nat)
  | String ":" (String ":" s') =>
      match parse_groups 8 s' [] (Some 0%nat) with
      | Some (EmptyString, groups, ellipsis) => expand_groups groups ellipsis
      | _ => []
      end
  | _ =>
      match parse_groups 8 s [] None with
      | Some (EmptyString, groups, ellipsis) => expand_groups groups ellipsis
      | _ => []
      end
  end.

(** [net.ParseIP]: the first [.] or [:] decides the format. *)
Fixpoint first_separator (s : string) : option ascii :=
  match s with
  | EmptyString => None
  | String c s' =>
      if Ascii.eqb c "." || Ascii.eqb c ":" then Some c else first_separator s'
  end.

Definition ParseIP (s : string) : net.IP :=
  match first_separator s with
  | Some "."%char => parseIPv4 s
  | Some ":"%char => parseIPv6 s
  | _ => []
  end.

(** [ip.String()] *)
Definition dotted (p4 : list byte) : string :=
  join "." (map (fun b => GoStrings.dec (Byte.to_N b)) p4).

Fixpoint groups_of (p : list byte) : list N :=
  match p with
  | hi :: lo :: p' => (Byte.to_N hi * 256 + Byte.to_N lo)%N :: groups_of p'
  | _ => []
  end.

Fixpoint zero_run (groups : list N) : nat :=
  match groups with
  | 0%N :: groups' => S (zero_run groups')
  | _ => O
  end.

(** the first longest run of zero groups: its start and its length *)
Fixpoint longest_zero_run (groups : list N) (i : nat) (best : nat * nat)
    : nat * nat :=
  match groups with
  | [] => best
  | _ :: groups' =>
      let best := if (snd best <? zero_run groups)%nat then (i, zero_run groups) else best in
      longest_zero_run groups' (S i) best
  end.

Definition String_ (ip : net.IP) : string :=
  if (length ip =? 0)%nat then "<nil>"
  else if (length (net.To4 ip) =? net.IPv4len)%nat then dotted (net.To4 ip)
  else if negb (length ip =? net.IPv6len)%nat
       then "?" +:+ String.concat EmptyString (map (fun b => GoStrings.hex (Byte.to_N b)) ip)
  else
    let groups := groups_of ip in
    let '(e0, run) := longest_zero_run groups 0 (0%nat, 0%nat) in
    if (run <=? 1)%nat then join ":" (map GoStrings.hex groups)
    else join ":" (map GoStrings.hex (firstn e0 groups)) +:+ "::"
         +:+ join ":" (map GoStrings.hex (skipn (e0 + run) groups)).

(** The protocols of the multiaddresses of the tests: code, name, and for a
    protocol with a value its transcoder (string to canonical string). *)
Definition port (s : string) : result string :=
  match dtoi s with
  | Some (n, EmptyString) =>
      if (n <? 65536)%N then Ok (GoStrings.dec n)
      else Error (ErrorString "failed to parse port addr: greater than 65536")
  | _ => Error (ErrorString "failed to parse port addr")
  end.

Definition ip4 (s : string) : result string :=
  let i := net.To4 (ParseIP s) in
  if net.isNil i then Error (ErrorString "failed to parse ip4 addr")
  else Ok (String_ i).

Definition ip6 (s : string) : result string :=
  let i := net.To16 (ParseIP s) in
  if net.isNil i then Error (ErrorString "failed to parse ip6 addr")
  else if negb (net.isNil (net.To4 i)) then Ok ("::ffff:" +:+ String_ (net.To4 i))
  else Ok (String_ i).

Definition dns (s : string) : result string :=
  match dnsVal s with Ok _ => Ok s | Error e => Error e end.

Definition protocols : list (Protocol * option (string -> result string)) :=
  [ ({| Code := 0x0004; Name := "ip4" |}, Some ip4);
    ({| Code := 0x0006; Name := "tcp" |}, Some port);
    ({| Code := 0x0111; Name := "udp" |}, Some port);
    ({| Code := 0x0029; Name := "ip6" |}, Some ip6);
    (Dns4Protocol, Some dns);
    (Dns6Protocol, Some dns);
    (DnsaddrProtocol, Some dns);
    ({| Code := 0x01CC; Name := "quic" |}, None);
    ({| Code := 0x01E0; Name := "http" |}, None) ].

Definition ProtocolWithName (s : string)
    : option (Protocol * option (string -> result string)) :=
  List.find (fun p => String.eqb (Name (fst p)) s) protocols.

(** the loop of [stringToBytes] over the fields between the slashes *)
Fixpoint parse_fields (fuel : nat) (sp : list string) : result Multiaddr :=
  match fuel, sp with
  | _, [] => Ok []
  | O, _ => Error (ErrorString "failed to parse multiaddr")
  | S fuel', name :: sp =>
      match ProtocolWithName name with
      | None => Error (ErrorString ("failed to parse multiaddr: unknown protocol " +:+ name))
      | Some (p, None) =>
          match parse_fields fuel' sp with
          | Ok m => Ok ({| protocol := p; Value := EmptyString |} :: m)
          | Error e => Error e
          end
      | Some (p, Some transcoder) =>
          match sp with
          | [] => Error (ErrorString "failed to parse multiaddr: unexpected end of multiaddr")
          | v :: sp =>
              match transcoder v with
              | Error e => Error e
              | Ok v' =>
                  match parse_fields fuel' sp with
                  | Ok m => Ok ({| protocol := p; Value := v' |} :: m)
                  | Error e => Error e
                  end
              end
          end
      end
  end.

Definition NewMultiaddr (s : string) : result Multiaddr :=
  let s := GoStrings.TrimRight s "/" in
  match GoStrings.Split s "/" with
  | EmptyString :: [] => Error (ErrorString "failed to parse multiaddr: empty multiaddr")
  | EmptyString :: sp => parse_fields (length sp) sp
  | _ => Error (ErrorString "failed to parse multiaddr: must begin with /")
  end.

#[global] Instance lib : NetLib :=
  Build_NetLib ParseIP String_ NewMultiaddr.

(** [m.String()] *)
Definition Component_String (c : Component) : string :=
  match List.find (fun p => Code (fst p) =? Code (protocol c)) protocols with
  | Some (_, Some _) => "/" +:+ Name (protocol c) +:+ "/" +:+ Value c
  | _ => "/" +:+ Name (protocol c)
  end.

Definition Multiaddr_String (m : Multiaddr) : string :=
  String.concat EmptyString (map Component_String m).

(** [ma.StringCast]: panics on an error; here the nil multiaddress. *)
Definition StringCast (s : string) : Multiaddr :=
  match NewMultiaddr s with Ok m => m | Error _ => [] end.

End GoRef.


(** ** The resolvers of the test files *)

(** The values and the resolver of [makeResolver] in resolve_test.go. *)
Module resolve_test.

Definition ip4a : IPAddr := {| IP := GoRef.ParseIP "192.0.2.1"; Zone := EmptyString |}.
Definition ip4b : IPAddr := {| IP := GoRef.ParseIP "192.0.2.2"; Zone := EmptyString |}.
Definition ip6a : IPAddr := {| IP := GoRef.ParseIP "2001:db8::a3"; Zone := EmptyString |}.
Definition ip6b : IPAddr := {| IP := GoRef.ParseIP "2001:db8::a4"; Zone := EmptyString |}.

Definition ip4ma : Multiaddr := GoRef.StringCast ("/ip4/" +:+ GoRef.String_ (IP ip4a)).
Definition ip4mb : Multiaddr := GoRef.StringCast ("/ip4/" +:+ GoRef.String_ (IP ip4b)).
Definition ip6ma : Multiaddr := GoRef.StringCast ("/ip6/" +:+ GoRef.String_ (IP ip6a)).
Definition ip6mb : Multiaddr := GoRef.StringCast ("/ip6/" +:+ GoRef.String_ (IP ip6b)).

Definition txtmc : Multiaddr := ma.Join [ip4ma; GoRef.StringCast "/tcp/123/http"].
Definition txtmd : Multiaddr := ma.Join [ip4ma; GoRef.StringCast "/tcp/123"].
Definition txtme : Multiaddr := ma.Join [ip4ma; GoRef.StringCast "/tcp/789/http"].

Definition txta : string := "dnsaddr=" +:+ GoRef.Multiaddr_String ip4ma.
Definition txtb : string := "dnsaddr=" +:+ GoRef.Multiaddr_String ip6ma.
Definition txtc : string := "dnsaddr=" +:+ GoRef.Multiaddr_String txtmc.
Definition txtd : string := "dnsaddr=" +:+ GoRef.Multiaddr_String txtmd.
Definition txte : string := "dnsaddr=" +:+ GoRef.Multiaddr_String txtme.

Definition mock : MockBackend.t :=
  {| MockBackend.IP := {[ "example.com" := [ip4a; ip4b; ip6a; ip6b] ]};
     MockBackend.TXT :=
       {[ "_dnsaddr.example.com" := [txta; txtb];
          "_dnsaddr.matching.com" :=
            [txtc; txtd; txte; "not a dnsaddr"; "dnsaddr=/foobar"] ]} |}.

Definition makeResolver : Resolver :=
  {| Backend := MockBackend.as_backend mock |}.

End resolve_test.

(** The resolver of [TestLimitResolver]: 255 IPv4 records for one name. *)
Module limit_test.

Definition ipaddrs : list IPAddr :=
  map (fun i => {| IP := GoRef.ParseIP ("1.2.3." +:+ GoStrings.dec (N.of_nat i));
                   Zone := EmptyString |})
      (seq 0 255).

Definition mock : MockBackend.t :=
  {| MockBackend.IP := {[ "example.com" := ipaddrs ]}; MockBackend.TXT := ∅ |}.

Definition resolver : Resolver := {| Backend := MockBackend.as_backend mock |}.

End limit_test.

(** The protocol [dns] of go-multiaddr (code 0x35), which dns.go neither
    defines nor lists. *)
Definition P_DNS : Z := 0x0035.
Definition DnsProtocol : Protocol := {| Code := P_DNS; Name := "dns" |}.

(** The backends and the options of [TestCustomResolver]. *)
Module custom_test.

Definition ip (s : string) : IPAddr := {| IP := GoRef.ParseIP s; Zone := EmptyString |}.

Definition ip1 : IPAddr := ip "1.2.3.4".
Definition ip2 : IPAddr := ip "2.3.4.5".
Definition ip3 : IPAddr := ip "3.4.5.6".
Definition ip4 : IPAddr := ip "4.5.6.8".
Definition ip5 : IPAddr := ip "5.6.8.9".
Definition ip6 : IPAddr := ip "6.8.9.10".

Definition def : MockBackend.t :=
  {| MockBackend.IP := {[ "example.com" := [ip1] ]}; MockBackend.TXT := ∅ |}.

Definition custom1 : MockBackend.t :=
  {| MockBackend.IP :=
       {[ "custom.test" := [ip2];
          "another.custom.test" := [ip3];
          "more.custom.test" := [ip6] ]};
     MockBackend.TXT := ∅ |}.

Definition custom2 : MockBackend.t :=
  {| MockBackend.IP :=
       {[ "more.custom.test" := [ip4];
          "some.more.custom.test" := [ip5] ]};
     MockBackend.TXT := ∅ |}.

Definition options : list Dispatcher.Option_ :=
  [ Dispatcher.WithDefaultResolver (MockBackend.as_backend def);
    Dispatcher.WithDomainResolver "custom.test" (MockBackend.as_backend custom1);
    Dispatcher.WithDomainResolver "more.custom.test" (MockBackend.as_backend custom2) ].

(** The dispatcher [NewResolver] makes of the options. *)
Definition rslv : Dispatcher.t :=
  {| Dispatcher.def := MockBackend.as_backend def;
     Dispatcher.custom :=
       <[ Dispatcher.key "more.custom.test" := MockBackend.as_backend custom2 ]>
         (<[ Dispatcher.key "custom.test" := MockBackend.as_backend custom1 ]> ∅);
     Dispatcher.maxResolvedAddrs := 100 |}.

End custom_test.

(** A DNS-over-HTTPS resolver for the scenarios: one canned response, with
    two answers of type 1 (the second is no address) and one of type 5; the
    JSON decoder is canned as well. *)
Module doh_test.

Definition body : string :=
  "{Answer:[{type:1,data:192.0.2.1},{type:1,data:garbage},{type:5,data:example.net.}]}".

Definition answers : list Answer :=
  [ {| Type_ := 1; Data := "192.0.2.1" |};
    {| Type_ := 1; Data := "garbage" |};
    {| Type_ := 5; Data := "example.net." |} ].

#[global] Instance web : WebLib :=
  {| url_with_query := fun host query => Ok (host +:+ "?" +:+ query);
     QueryEscape := fun s => s;
     NewRequest := fun method url =>
       Ok {| http.Method := method; http.URL := url; http.Header := [] |};
     json_Unmarshal := fun b =>
       if String.eqb b body then Ok answers
       else Error (ErrorString "invalid character") |}.

Definition client : http.Client :=
  {| http.Do := fun _ => Ok {| http.StatusCode := 200; http.Body := Ok body |} |}.

Definition resolver : DOHResolver :=
  {| Host := "https://dns.google/resolve"; Client := client |}.

(** The resolver as the [Backend] of a [Resolver], as [DefaultDOHResolver]
    has it. *)
Definition backend_ : backend :=
  {| LookupIPAddr := fun host =>
       match DOH_LookupIPAddr resolver host with
       | Returns res => res
       | _ => Error (ErrorString "panic")
       end;
     LookupTXT := fun host =>
       match DOH_LookupTXT resolver host with
       | Returns res => res
       | _ => Error (ErrorString "panic")
       end |}.

End doh_test.

(** ** Vocabulary of the statements *)

Definition is_ip_dns (c : Component) : bool :=
  (Code (protocol c) =? Code Dns4Protocol) || (Code (protocol c) =? Code Dns6Protocol).

Definition is_dnsaddr (c : Component) : bool :=
  Code (protocol c) =? Code DnsaddrProtocol.

Definition component_v4 (c : Component) : bool :=
  Code (protocol c) =? Code Dns4Protocol.

Definition unresolvable (m : Multiaddr) : bool :=
  forallb (fun c => negb (resolvable c)) m.

(** The [net.IPAddr] values the resolver treats as IPv4 records. *)
Definition is_IPv4 (a : IPAddr) : bool := negb (net.isNil (net.To4 (IP a))).

(** The records a [dns4] component ([v4]) or a [dns6] component keeps. *)
Definition kept (v4 : bool) (a : IPAddr) : bool :=
  if v4 then is_IPv4 a else negb (is_IPv4 a).

Definition dns4 (host : string) : Component :=
  {| protocol := Dns4Protocol; Value := host |}.
Definition dns6 (host : string) : Component :=
  {| protocol := Dns6Protocol; Value := host |}.
Definition dnsaddr (host : string) : Component :=
  {| protocol := DnsaddrProtocol; Value := host |}.

Section Vocabulary.

Context {lib : NetLib}.
Variable rslv : Resolver.

(** What the [switch] of an iteration computes for the resolvable component
    [c] followed by [rest]: the error it returns, or [resolved]. *)
Definition lookup_component (c : Component) (rest : Multiaddr)
    : result (list Multiaddr) :=
  if is_ip_dns c then
    match LookupIPAddr (Backend rslv) (Value c) with
    | Error err => Error err
    | Ok records => resolve_ip_records (component_v4 c) records []
    end
  else
    match LookupTXT (Backend rslv) ("_dnsaddr." +:+ Value c) with
    | Error err => Error err
    | Ok records =>
        Ok (resolve_txt_records rest
              (if negb (is_nil rest) then addrLen rest else 0) records [])
    end.

(** [results] after the statement that appends the part to keep. *)
Definition keep_results (results : list Multiaddr) (keep : Multiaddr)
    : list Multiaddr :=
  if negb (is_nil keep) then
    if is_nil results then results ++ [keep]
    else map (fun x => ma.Encapsulate x keep) results
  else results.

(** The lookup made for the component [c] returns the error [e]. *)
Definition backend_fails (c : Component) (e : error) : Prop :=
  (is_ip_dns c = true /\ LookupIPAddr (Backend rslv) (Value c) = Error e)
  \/ (is_dnsaddr c = true
      /\ LookupTXT (Backend rslv) ("_dnsaddr." +:+ Value c) = Error e).

(** The lookup made for the [dns4] or [dns6] component [c] succeeds, and
    [e] is the error of [ma.NewMultiaddr] on the first record it rejects
    among those the component keeps. *)
Definition record_fails (c : Component) (e : error) : Prop :=
  is_ip_dns c = true
  /\ exists records before a after,
      LookupIPAddr (Backend rslv) (Value c) = Ok records
      /\ records = before ++ a :: after
      /\ Forall (fun a' => forall e', ip_record (component_v4 c) a' <> Some (Error e'))
           before
      /\ ip_record (component_v4 c) a = Some (Error e).

(** The [dns4] or [dns6] component [c] resolves: neither the lookup nor a
    record fails, and at least one record is kept. *)
Definition resolves (c : Component) : Prop :=
  is_ip_dns c = true
  /\ exists resolved, lookup_component c [] = Ok resolved /\ resolved <> [].

(** The loop gets past the components [pre]: each resolvable one resolves. *)
Definition passed (pre : Multiaddr) : Prop :=
  Forall (fun c => resolvable c = true -> resolves c) pre.

(** The next value of the loop variable [maddr], when the loop goes on. *)
Definition loop_next (maddr' maddr : Multiaddr) : Prop :=
  exists results results', iteration rslv results maddr = Continue results' maddr'.

(** The multiaddress [ma.NewMultiaddr] makes of the record of a [dns4]
    component, and of the record of a [dns6] component. *)
Definition ip4_maddr (a : IPAddr) : result Multiaddr :=
  NewMultiaddr ("/ip4/" +:+ IP_String (net.To4 (IP a))).

Definition ip6_maddr (a : IPAddr) : result Multiaddr :=
  NewMultiaddr ("/ip6/" +:+ IP_String (IP a)).

(** The selection of the TXT records of a [dnsaddr] component, in the words
    of the specification: a record is accepted when it carries the literal
    prefix, what follows the prefix parses as a multiaddress [R], [R] has at
    least as many components as the trailer, and the last components of [R],
    as many as the trailer has, are the trailer. *)
Fixpoint strip_prefix (prefix s : string) : option string :=
  match prefix, s with
  | EmptyString, _ => Some s
  | String p prefix', String c s' =>
      if Ascii.eqb c p then strip_prefix prefix' s' else None
  | String _ _, EmptyString => None
  end.

Definition last_components (L : nat) (R : Multiaddr) : Multiaddr :=
  skipn (length R - L) R.

Definition spec_accept (trailer : Multiaddr) (txt : string) : option Multiaddr :=
  match strip_prefix "dnsaddr=" txt with
  | None => None
  | Some text =>
      match NewMultiaddr text with
      | Error _ => None
      | Ok R =>
          if (length trailer <=? length R)%nat
             && bool_decide (last_components (length trailer) R = trailer)
          then Some R
          else None
      end
  end.

Definition accepted (trailer : Multiaddr) (records : list string)
    : list Multiaddr :=
  omap (spec_accept trailer) records.

(** The position at which the loop returns the error [e]. *)
Definition error_position (maddr : Multiaddr) (e : error) : Prop :=
  exists pre c rest,
    maddr = pre ++ c :: rest /\ passed pre /\ resolvable c = true
    /\ lookup_component c rest = Error e.

(** The position at which the loop finds nothing. *)
Definition empty_position (maddr : Multiaddr) : Prop :=
  exists pre c rest,
    maddr = pre ++ c :: rest /\ passed pre /\ resolvable c = true
    /\ lookup_component c rest = Ok [].

(** Nothing is resolved for the component [c] followed by [rest]: the lookup
    succeeds and no record is kept (the backend may have returned none). *)
Definition nothing_resolved (c : Component) (rest : Multiaddr) : Prop :=
  (is_ip_dns c = true
   /\ exists records,
       LookupIPAddr (Backend rslv) (Value c) = Ok records
       /\ Forall (fun a => kept (component_v4 c) a = false) records)
  \/ (is_dnsaddr c = true
      /\ exists records,
          LookupTXT (Backend rslv) ("_dnsaddr." +:+ Value c) = Ok records
          /\ Forall (fun txt =>
                       dnsaddr_record rest
                         (if negb (is_nil rest) then addrLen rest else 0) txt
                       = None)
                    records).

End Vocabulary.

(** The steps of [decode-ipv6], in the words of the specification. *)
Module spec.

Fixpoint string_rev (s : string) : string :=
  match s with
  | EmptyString => EmptyString
  | String c s' => string_rev s' +:+ String c EmptyString
  end.

(** 1. If the label begins with [0--], drop the leading [0]. *)
Definition drop_leading_zero (label : string) : string :=
  match label with
  | String c1 (String c2 (String c3 _) as label') =>
      if Ascii.eqb c1 "0" && Ascii.eqb c2 "-" && Ascii.eqb c3 "-"
      then label' else label
  | _ => label
  end.

(** 2. If the label ends with [--0], drop the trailing [0] (symmetric). *)
Definition drop_trailing_zero (label : string) : string :=
  string_rev (drop_leading_zero (string_rev label)).

(** 3. Replace every [--] with [::]. *)
Fixpoint colons_for_double_hyphens (s : string) : string :=
  match s with
  | String a (String b rest as s') =>
      if Ascii.eqb a "-" && Ascii.eqb b "-"
      then String ":" (String ":" (colons_for_double_hyphens rest))
      else String a (colons_for_double_hyphens s')
  | _ => s
  end.

(** 4. Replace each remaining [-] with [:]. *)
Fixpoint colons_for_hyphens (s : string) : string :=
  match s with
  | EmptyString => EmptyString
  | String c s' =>
      String (if Ascii.eqb c "-" then ":"%char else c) (colons_for_hyphens s')
  end.

(** 5. Parse as an IP address; none when parsing fails or the result is an
    IPv4 address. *)
Definition parse_ipv6 {lib : NetLib} (s : string) : option net.IP :=
  match ParseIP s with
  | [] => None
  | ip => match net.To4 ip with [] => Some ip | _ => None end
  end.

Definition decode_ipv6 {lib : NetLib} (label : string) : option net.IP :=
  parse_ipv6
    (colons_for_hyphens
       (colons_for_double_hyphens
          (drop_trailing_zero (drop_leading_zero label)))).

End spec.

(** ** Vocabulary of the further statements *)

(** The result of a resolution with its list of addresses transformed;
    an error is left as it is. *)
Definition with_results (f : list Multiaddr -> list Multiaddr)
    (r : exec (result (list Multiaddr))) : exec (result (list Multiaddr)) :=
  match r with
  | Returns (Ok out) => Returns (Ok (f out))
  | _ => r
  end.

(** The number of results the addresses of the next component multiply: a
    nil [results] counts as one address without components. *)
Definition result_count (results : list Multiaddr) : nat :=
  Nat.max 1 (length results).

(** The components [Resolve] can reach: those up to the first [dnsaddr]
    component, which ends the loop. *)
Fixpoint reached (m : Multiaddr) : Multiaddr :=
  match m with
  | [] => []
  | c :: m' => if is_dnsaddr c then [c] else c :: reached m'
  end.

(** Two resolvers give the same answer to the lookup [Resolve] makes for
    the component [c]. *)
Definition same_lookup (r1 r2 : Resolver) (c : Component) : Prop :=
  (is_ip_dns c = true ->
   LookupIPAddr (Backend r1) (Value c) = LookupIPAddr (Backend r2) (Value c))
  /\ (is_dnsaddr c = true ->
      LookupTXT (Backend r1) ("_dnsaddr." +:+ Value c)
      = LookupTXT (Backend r2) ("_dnsaddr." +:+ Value c)).

Section Expansion.

Context {lib : NetLib}.
Variable rslv : Resolver.

(** The number of addresses resolved for a [dns4] or [dns6] component. *)
Definition resolved_count (c : Component) : nat :=
  match lookup_component rslv c [] with
  | Ok resolved => length resolved
  | Error _ => 0%nat
  end.

(** The product of these numbers over the resolvable components. *)
Fixpoint expansion (m : Multiaddr) : nat :=
  match m with
  | [] => 1%nat
  | c :: m' =>
      if resolvable c then (resolved_count c * expansion m')%nat
      else expansion m'
  end.

(** Every resolvable component is a [dns4] or [dns6] component for which
    neither the lookup nor a record fails. *)
Definition ip_resolvable (m : Multiaddr) : Prop :=
  Forall (fun c => resolvable c = true ->
                   is_ip_dns c = true
                   /\ is_error (lookup_component rslv c []) = false)
         m.

End Expansion.

(** ** The peer identifiers and answers of the further test files *)

Module static_test.

(** The peer identifier of the domains of the tests of the static
    resolution. *)
Definition peer : string :=
  "k51qzi5uqu5dj2c294cab64yiq2ri684kc5sr9odfhoo84osl4resldwfy8u5r".

(** [cid.Decode] and [Type()] on identifiers of
    [TestLibp2pPeerIDValidation]: the two base36 keys have the codec
    [libp2p-key], the CIDv0 has the codec [dag-pb]; other strings are taken
    not to decode. *)
Definition cids : CidLib :=
  {| cid_Decode_Type := fun s =>
       if String.eqb s peer then Ok Libp2pKey
       else if String.eqb s "k2k4r8oao3a13ig746677ovbb1s6hnvgksy42n2u8vo0o0m3xogyxhju"
       then Ok Libp2pKey
       else if String.eqb s "QmTzQ1JRkWErjk39mryYw2WVaphAZNAREyMchXzYQ59eTR"
       then Ok 0x70
       else Error (ErrorString "invalid cid") |}.

Definition domain (label suffix : string) : string :=
  label +:+ "." +:+ peer +:+ "." +:+ suffix.

End static_test.

Module doh_txt_test.

(** A text record as the JSON API gives it: between double quotes. *)
Definition quoted (s : string) : string :=
  String double_quote (s +:+ String double_quote EmptyString).

Definition answers : list Answer :=
  [ {| Type_ := 16; Data := quoted resolve_test.txta |};
    {| Type_ := 5; Data := "example.net." |};
    {| Type_ := 16; Data := quoted resolve_test.txtb |} ].

Definition web : WebLib :=
  {| url_with_query := fun host query => Ok (host +:+ "?" +:+ query);
     QueryEscape := fun s => s;
     NewRequest := fun method url =>
       Ok {| http.Method := method; http.URL := url; http.Header := [] |};
     json_Unmarshal := fun _ => Ok answers |}.

Definition client : http.Client :=
  {| http.Do := fun _ =>
       Ok {| http.StatusCode := 200; http.Body := Ok EmptyString |} |}.

Definition resolver : DOHResolver :=
  {| Host := "https://dns.google/resolve"; Client := client |}.

End doh_txt_test.

(** The text has no byte [c]. *)
Definition without_byte (c : ascii) (s : string) : Prop :=
  ~ In c (list_ascii_of_string s).

(** The text neither begins nor ends with the byte [c]. *)
Definition untrimmed_free (c : ascii) (s : string) : Prop :=
  GoStrings.HasPrefix s (String c EmptyString) = false
  /\ GoStrings.HasSuffix s (String c EmptyString) = false.

(** ** resolve.go, the revision with [isResolvable] and [matchDnsaddr]

    The revision of [resolve.go] in which [Resolve] looks at the first
    component only, and hands the address to [resolveDns4], [resolveDns6]
    or [resolveDnsaddr].  Its [Resolver] has the one field [Resolver], an
    interface with the two lookups: the record [Resolver] above, whose
    field is [Backend], stands for it.  The functions return a list and an
    error, [None] for nil. *)

Module legacy.

(** [ma.Split(m)]: the components, each as a multiaddress. *)
Definition Split (m : Multiaddr) : list Multiaddr := map (fun c => [c]) m.

(** [m.Protocols()] *)
Definition Protocols (m : Multiaddr) : list Protocol := map protocol m.

(** [m.ValueForProtocol(code)]: the value of the first component of the
    protocol, or [ErrProtocolNotFound]. *)
Fixpoint ValueForProtocol (m : Multiaddr) (code : Z) : result string :=
  match m with
  | [] => Error (ErrorString "protocol not found in multiaddr")
  | c :: m' =>
      if Code (protocol c) =? code then Ok (Value c)
      else ValueForProtocol m' code
  end.

(** [strings.Split(s, sep)] for a non-empty [sep]: the fields between the
    non-overlapping occurrences of [sep], from left to right.  [skip] counts
    the bytes of an occurrence still to be passed over. *)
Fixpoint split_from (sep : string) (skip : nat) (s : string) : list string :=
  match s with
  | EmptyString => [EmptyString]
  | String c s' =>
      match skip with
      | S k => split_from sep k s'
      | O =>
          if GoStrings.HasPrefix s sep
          then EmptyString :: split_from sep (String.length sep - 1) s'
          else match split_from sep 0 s' with
               | [] => [String c EmptyString]
               | f :: fs => String c f :: fs
               end
      end
  end.

Definition strings_Split (s sep : string) : list string := split_from sep 0 s.

(** The loop of [isResolvable] over [ResolvableProtocols]: the first
    protocol that has the code. *)
Definition isResolvable (maddr : Multiaddr) : bool * option Protocol :=
  match Protocols maddr with
  | [] => (false, None)
  | p0 :: _ =>
      match find (fun p => Code p0 =? Code p) ResolvableProtocols with
      | Some p => (true, Some p)
      | None => (false, None)
      end
  end.

(** [matchDnsaddr]: [parts[len(parts)-len(trailer):]] panics when the
    index is negative. *)
Definition matchDnsaddr (maddr : Multiaddr) (trailer : list Multiaddr)
    : exec bool :=
  let parts := Split maddr in
  if (length parts <? length trailer)%nat
  then Panics "slice bounds out of range"
  else
    if ma.Equal (ma.Join (skipn (length parts - length trailer) parts))
                (ma.Join trailer)
    then Returns true
    else Returns false.

Section Revision.

Context {lib : NetLib}.

(** [maddr.String()], which only the messages of errors use. *)
Variable Multiaddr_String : Multiaddr -> string.

Variable r : Resolver.

(** [fmt.Errorf] with the format [error resolving %s: %s] *)
Definition error_resolving (maddr : Multiaddr) (err : error) : error :=
  ErrorString ("error resolving " +:+ Multiaddr_String maddr +:+ ": "
               +:+ error_message err).

(** the loop of [resolveDns4] over [records] *)
Fixpoint dns4_records (encap : list Multiaddr) (records : list IPAddr)
    (result : list Multiaddr) : list Multiaddr * option error :=
  match records with
  | [] => (result, None)
  | r :: records' =>
      let ip4 := net.To4 (IP r) in
      if net.isNil ip4 then dns4_records encap records' result
      else
        match NewMultiaddr ("/ip4/" +:+ IP_String ip4) with
        | Error err => (result, Some err)
        | Ok ip4maddr =>
            let parts := [ip4maddr] ++ encap in
            dns4_records encap records' (result ++ [ma.Join parts])
        end
  end.

Definition resolveDns4 (maddr : Multiaddr)
    : exec (list Multiaddr * option error) :=
  match ValueForProtocol maddr (Code Dns4Protocol) with
  | Error err => Returns ([], Some (error_resolving maddr err))
  | Ok value =>
      match Split maddr with
      | [] => Panics "slice bounds out of range"
      | _ :: encap =>
          match LookupIPAddr (Backend r) value with
          | Error err => Returns ([], Some err)
          | Ok records => Returns (dns4_records encap records [])
          end
      end
  end.

(** the loop of [resolveDns6] over [records] *)
Fixpoint dns6_records (encap : list Multiaddr) (records : list IPAddr)
    (result : list Multiaddr) : list Multiaddr * option error :=
  match records with
  | [] => (result, None)
  | r :: records' =>
      if negb (net.isNil (net.To4 (IP r))) then dns6_records encap records' result
      else
        match NewMultiaddr ("/ip6/" +:+ IP_String (net.To16 (IP r))) with
        | Error err => (result, Some err)
        | Ok ip6maddr =>
            let parts := [ip6maddr] ++ encap in
            dns6_records encap records' (result ++ [ma.Join parts])
        end
  end.

Definition resolveDns6 (maddr : Multiaddr)
    : exec (list Multiaddr * option error) :=
  match ValueForProtocol maddr (Code Dns6Protocol) with
  | Error err => Returns ([], Some (error_resolving maddr err))
  | Ok value =>
      match Split maddr with
      | [] => Panics "slice bounds out of range"
      | _ :: encap =>
          match LookupIPAddr (Backend r) value with
          | Error err => Returns ([], Some err)
          | Ok records => Returns (dns6_records encap records [])
          end
      end
  end.

(** the loop of [resolveDnsaddr] over [records]; [len(rv) != 2] skips the
    record *)
Fixpoint dnsaddr_records (trailer : list Multiaddr) (records : list string)
    (result : list Multiaddr) : exec (list Multiaddr * option error) :=
  match records with
  | [] => Returns (result, None)
  | r :: records' =>
      match strings_Split r "dnsaddr=" with
      | [_; rv1] =>
          match NewMultiaddr rv1 with
          | Error err => Returns (result, Some err)
          | Ok rmaddr =>
              match matchDnsaddr rmaddr trailer with
              | Returns true => dnsaddr_records trailer records' (result ++ [rmaddr])
              | Returns false => dnsaddr_records trailer records' result
              | Panics msg => Panics msg
              | OutOfFuel => OutOfFuel
              end
          end
      | _ => dnsaddr_records trailer records' result
      end
  end.

Definition resolveDnsaddr (maddr : Multiaddr)
    : exec (list Multiaddr * option error) :=
  match ValueForProtocol maddr (Code DnsaddrProtocol) with
  | Error err => Returns ([], Some (error_resolving maddr err))
  | Ok value =>
      match Split maddr with
      | [] => Panics "slice bounds out of range"
      | _ :: trailer =>
          match LookupTXT (Backend r) ("_dnsaddr." +:+ value) with
          | Error err => Returns ([], Some err)
          | Ok records => dnsaddr_records trailer records []
          end
      end
  end.

(** The method [Resolve] of this revision. *)
Definition Resolve (maddr : Multiaddr)
    : exec (list Multiaddr * option error) :=
  match isResolvable maddr with
  | (false, _) => Returns ([maddr], None)
  | (true, None) => Panics "nil pointer dereference"
  | (true, Some proto) =>
      if Code proto =? Code Dns4Protocol then resolveDns4 maddr
      else if Code proto =? Code Dns6Protocol then resolveDns6 maddr
      else if Code proto =? Code DnsaddrProtocol then resolveDnsaddr maddr
      else Panics "unreachable"
  end.

End Revision.

End legacy.

(** What the revision above returns for the result of [Resolve] of the
    present one: the same addresses and a nil error, or the same error. *)
Definition same_outcome (new : exec (result (list Multiaddr)))
    (old : exec (list Multiaddr * option error)) : Prop :=
  match new with
  | Returns (Ok out) => old = Returns (out, None)
  | Returns (Error e) => exists partial, old = Returns (partial, Some e)
  | _ => False
  end.

(** ** resolve.go, the first revision

    The revision of [resolve.go] with the function [Resolve] only, which
    asks the resolver of package [net]: [net.LookupIP] and [net.LookupTXT]
    are the variables [LookupIP] and [LookupTXT].  The error of a lookup is
    assigned and not looked at. *)

Module oldest.

Section Revision.

Context {lib : NetLib}.
Variable Multiaddr_String : Multiaddr -> string.
Variable LookupIP : string -> result (list net.IP).
Variable LookupTXT : string -> result (list string).

(** [fmt.Errorf] with the format [error resolving %s: %s] *)
Definition error_resolving (maddr : Multiaddr) (err : error) : error :=
  ErrorString ("error resolving " +:+ Multiaddr_String maddr +:+ ": "
               +:+ error_message err).

(** [records] after [records, err := net.LookupIP(value)]: nil when the
    lookup fails. *)
Definition records_of {A : Type} (res : result (list A)) : list A :=
  match res with
  | Ok records => records
  | Error _ => []
  end.

(** the loop of [resolveDns4] over [records] *)
Fixpoint dns4_records (encap : list Multiaddr) (records : list net.IP)
    (result : list Multiaddr) : list Multiaddr * option error :=
  match records with
  | [] => (result, None)
  | r :: records' =>
      let ip4 := net.To4 r in
      if net.isNil ip4 then dns4_records encap records' result
      else
        match NewMultiaddr ("/ip4/" +:+ IP_String ip4) with
        | Error err => (result, Some err)
        | Ok ip4maddr =>
            let parts := [ip4maddr] ++ encap in
            dns4_records encap records' (result ++ [ma.Join parts])
        end
  end.

Definition resolveDns4 (maddr : Multiaddr)
    : exec (list Multiaddr * option error) :=
  match legacy.ValueForProtocol maddr (Code Dns4Protocol) with
  | Error err => Returns ([], Some (error_resolving maddr err))
  | Ok value =>
      match legacy.Split maddr with
      | [] => Panics "slice bounds out of range"
      | _ :: encap =>
          let records := records_of (LookupIP value) in
          Returns (dns4_records encap records [])
      end
  end.

(** the loop of [resolveDns6] over [records] *)
Fixpoint dns6_records (encap : list Multiaddr) (records : list net.IP)
    (result : list Multiaddr) : list Multiaddr * option error :=
  match records with
  | [] => (result, None)
  | r :: records' =>
      let ip6 := net.To16 r in
      if negb (net.isNil (net.To4 r)) then dns6_records encap records' result
      else
        match NewMultiaddr ("/ip6/" +:+ IP_String ip6) with
        | Error err => (result, Some err)
        | Ok ip6maddr =>
            let parts := [ip6maddr] ++ encap in
            dns6_records encap records' (result ++ [ma.Join parts])
        end
  end.

Definition resolveDns6 (maddr : Multiaddr)
    : exec (list Multiaddr * option error) :=
  match legacy.ValueForProtocol maddr (Code Dns6Protocol) with
  | Error err => Returns ([], Some (error_resolving maddr err))
  | Ok value =>
      match legacy.Split maddr with
      | [] => Panics "slice bounds out of range"
      | _ :: encap =>
          let records := records_of (LookupIP value) in
          Returns (dns6_records encap records [])
      end
  end.

(** the loop of [resolveDnsaddr] over [records], with the slice
    [parts[len(parts)-len(trailer):]] *)
Fixpoint dnsaddr_records (trailer : list Multiaddr) (records : list string)
    (result : list Multiaddr) : exec (list Multiaddr * option error) :=
  match records with
  | [] => Returns (result, None)
  | r :: records' =>
      match legacy.strings_Split r "dnsaddr=" with
      | [_; rv1] =>
          match NewMultiaddr rv1 with
          | Error err => Returns (result, Some err)
          | Ok rmaddr =>
              let parts := legacy.Split rmaddr in
              if (length parts <? length trailer)%nat
              then Panics "slice bounds out of range"
              else
                if ma.Equal
                     (ma.Join (skipn (length parts - length trailer) parts))
                     (ma.Join trailer)
                then dnsaddr_records trailer records' (result ++ [rmaddr])
                else dnsaddr_records trailer records' result
          end
      | _ => dnsaddr_records trailer records' result
      end
  end.

Definition resolveDnsaddr (maddr : Multiaddr)
    : exec (list Multiaddr * option error) :=
  match legacy.ValueForProtocol maddr (Code DnsaddrProtocol) with
  | Error err => Returns ([], Some (error_resolving maddr err))
  | Ok value =>
      match legacy.Split maddr with
      | [] => Panics "slice bounds out of range"
      | _ :: trailer =>
          let records := records_of (LookupTXT ("_dnsaddr." +:+ value)) in
          dnsaddr_records trailer records []
      end
  end.

(** The function [Resolve] of this revision; the loop over
    [ResolvableProtocols] sets [resolvable]. *)
Definition Resolve (maddr : Multiaddr)
    : exec (list Multiaddr * option error) :=
  match legacy.Protocols maddr with
  | [] => Returns ([maddr], None)
  | p0 :: _ =>
      let resolvable :=
        fold_left (fun resolvable p =>
                     if Code p0 =? Code p then true else resolvable)
                  ResolvableProtocols false in
      if negb resolvable then Returns ([maddr], None)
      else if Code p0 =? Code Dns4Protocol then resolveDns4 maddr
      else if Code p0 =? Code Dns6Protocol then resolveDns6 maddr
      else if Code p0 =? Code DnsaddrProtocol then resolveDnsaddr maddr
      else Panics "unreachable"
  end.

End Revision.

End oldest.

(** The lookups of package [net] when its resolver answers as the backend
    of [rslv] does. *)
Definition net_LookupIP (rslv : Resolver) (host : string)
    : result (list net.IP) :=
  match LookupIPAddr (Backend rslv) host with
  | Ok records => Ok (map IP records)
  | Error e => Error e
  end.

Definition net_LookupTXT (rslv : Resolver) (name : string)
    : result (list string) :=
  LookupTXT (Backend rslv) name.

Section LegacyVocabulary.

Context {lib : NetLib}.

(** What the loop of [resolveDnsaddr] of that revision parses of a record:
    nothing when the record has not two fields, otherwise the result of
    [ma.NewMultiaddr] on the second field. *)
Definition legacy_parsed (r : string) : option (result Multiaddr) :=
  match legacy.strings_Split r "dnsaddr=" with
  | [_; rv1] => Some (NewMultiaddr rv1)
  | _ => None
  end.

(** The record parses as an address with fewer components than [rest]. *)
Definition short_record (rest : Multiaddr) (r : string) : Prop :=
  exists rm, legacy_parsed r = Some (Ok rm) /\ (length rm < length rest)%nat.

(** The second field of the record does not parse. *)
Definition failing_record (r : string) : Prop :=
  exists e, legacy_parsed r = Some (Error e).

End LegacyVocabulary.

(** The address ends with the components [m]. *)
Definition ends_with (m x : Multiaddr) : Prop := exists y, x = y ++ m.

(** * Properties *)

(** ** The multiaddress operations *)

Lemma SplitFunc_app (cb : Component -> bool) (m pre post : Multiaddr) :
  ma.SplitFunc m cb = (pre, post) -> m = pre ++ post.
Proof.
  revert pre post. induction m as [|c m IH]; intros pre post; simpl.
  - intros [= <- <-]. reflexivity.
  - destruct (cb c).
    + intros [= <- <-]. reflexivity.
    + destruct (ma.SplitFunc m cb) as [pre' post'].
      intros [= <- <-]. simpl. f_equal. apply IH. reflexivity.
Qed.

Lemma SplitFunc_pre (cb : Component -> bool) (m pre post : Multiaddr) :
  ma.SplitFunc m cb = (pre, post) -> forallb (fun c => negb (cb c)) pre = true.
Proof.
  revert pre post. induction m as [|c m IH]; intros pre post; simpl.
  - intros [= <- <-]. reflexivity.
  - destruct (cb c) eqn:Hc.
    + intros [= <- <-]. reflexivity.
    + destruct (ma.SplitFunc m cb) as [pre' post'].
      intros [= <- <-]. simpl. rewrite Hc. simpl. eapply IH. reflexivity.
Qed.

Lemma SplitFunc_post (cb : Component -> bool) (m pre post : Multiaddr) :
  ma.SplitFunc m cb = (pre, post) ->
  match post with [] => True | c :: _ => cb c = true end.
Proof.
  revert pre post. induction m as [|c m IH]; intros pre post; simpl.
  - intros [= <- <-]. exact I.
  - destruct (cb c) eqn:Hc.
    + intros [= <- <-]. exact Hc.
    + destruct (ma.SplitFunc m cb) as [pre' post'].
      intros [= <- <-]. eapply IH. reflexivity.
Qed.

Lemma SplitFunc_keep (cb : Component -> bool) (keep : Multiaddr) (c : Component)
    (rest : Multiaddr) :
  forallb (fun c => negb (cb c)) keep = true -> cb c = true ->
  ma.SplitFunc (keep ++ c :: rest) cb = (keep, c :: rest).
Proof.
  intros Hkeep Hc. induction keep as [|k keep IH]; simpl in *.
  - rewrite Hc. reflexivity.
  - apply andb_true_iff in Hkeep as [Hk Hkeep].
    apply negb_true_iff in Hk. rewrite Hk, (IH Hkeep). reflexivity.
Qed.

Lemma SplitFunc_all (cb : Component -> bool) (m : Multiaddr) :
  forallb (fun c => negb (cb c)) m = true -> ma.SplitFunc m cb = (m, []).
Proof.
  induction m as [|c m IH]; simpl; intros H.
  - reflexivity.
  - apply andb_true_iff in H as [Hc H].
    apply negb_true_iff in Hc. rewrite Hc, (IH H). reflexivity.
Qed.

Lemma ForEach_count (m : Multiaddr) (n : Z) :
  ma.ForEach m (fun _ length => (length + 1, true)) n = n + Z.of_nat (length m).
Proof.
  revert n. induction m as [|c m IH]; intros n; simpl ma.ForEach.
  - simpl. lia.
  - rewrite IH. simpl length. lia.
Qed.

Lemma addrLen_length (m : Multiaddr) : addrLen m = Z.of_nat (length m).
Proof. unfold addrLen. rewrite ForEach_count. lia. Qed.

Lemma offset_skipn (m : Multiaddr) (k : nat) :
  offset m (Z.of_nat k) = skipn k m.
Proof.
  revert k. induction m as [|c m IH]; intros k.
  - destruct k; reflexivity.
  - destruct k as [|k].
    + reflexivity.
    + cbn [offset skipn]. rewrite <- IH.
      replace (Z.of_nat (S k) =? 0) with false by (symmetry; apply Z.eqb_neq; lia).
      f_equal. lia.
Qed.

Lemma cross_inner_map (x : Multiaddr) (b res : list Multiaddr) :
  cross_inner x b res = res ++ map (fun y => x ++ y) b.
Proof.
  unfold cross_inner. revert res.
  induction b as [|y b IH]; intros res; simpl.
  - rewrite app_nil_r. reflexivity.
  - rewrite IH. unfold ma.Encapsulate. rewrite <- app_assoc. reflexivity.
Qed.

Lemma cross_from (a b acc : list Multiaddr) :
  fold_left (fun res x => cross_inner x b res) a acc
  = acc ++ flat_map (fun x => map (fun y => x ++ y) b) a.
Proof.
  revert acc. induction a as [|x a IH]; intros acc; simpl.
  - rewrite app_nil_r. reflexivity.
  - rewrite IH, cross_inner_map, <- app_assoc. reflexivity.
Qed.

(** [cross a b] lists [x.Encapsulate(y)] with [x] in the outer loop and [y]
    in the inner one. *)
Lemma cross_flat_map (a b : list Multiaddr) :
  cross a b = flat_map (fun x => map (fun y => x ++ y) b) a.
Proof. unfold cross. rewrite cross_from. reflexivity. Qed.

Lemma length_flat_map_const {A B : Type} (f : A -> list B) (l : list A) (n : nat) :
  (forall x, length (f x) = n) -> length (flat_map f l) = (length l * n)%nat.
Proof.
  intros Hf. induction l as [|x l IH]; simpl.
  - reflexivity.
  - rewrite length_app, Hf, IH. reflexivity.
Qed.

Lemma length_cross (a b : list Multiaddr) :
  length (cross a b) = (length a * length b)%nat.
Proof.
  rewrite cross_flat_map. apply length_flat_map_const.
  intros x. apply length_map.
Qed.

(** [Matches] is true exactly when a component is resolvable. *)
Lemma Matches_existsb (maddr : Multiaddr) : Matches maddr = existsb resolvable maddr.
Proof.
  unfold Matches. induction maddr as [|c m IH]; [reflexivity|].
  cbn [ma.ForEach existsb]. destruct (resolvable c); [reflexivity|exact IH].
Qed.

(** ** One iteration of the loop of [Resolve] *)

Lemma resolvable_cases (c : Component) :
  resolvable c = is_ip_dns c || is_dnsaddr c.
Proof. reflexivity. Qed.

(** A multiaddress has no resolvable component, or it splits at its first
    resolvable component. *)
Lemma first_resolvable (m : Multiaddr) :
  unresolvable m = true
  \/ exists keep c rest,
       m = keep ++ c :: rest /\ unresolvable keep = true /\ resolvable c = true.
Proof.
  destruct (ma.SplitFunc m resolvable) as [keep post] eqn:Hsplit.
  pose proof (SplitFunc_app _ _ _ _ Hsplit) as Happ.
  pose proof (SplitFunc_pre _ _ _ _ Hsplit) as Hpre.
  pose proof (SplitFunc_post _ _ _ _ Hsplit) as Hpost.
  destruct post as [|c rest].
  - left. rewrite app_nil_r in Happ. subst m. exact Hpre.
  - right. exists keep, c, rest. auto.
Qed.

(** The first resolvable component of a multiaddress is unique. *)
Lemma first_resolvable_unique (keep pre rest0 rest : Multiaddr) (c0 c : Component) :
  keep ++ c0 :: rest0 = pre ++ c :: rest ->
  unresolvable keep = true -> resolvable c0 = true -> resolvable c = true ->
  (pre = keep /\ c = c0 /\ rest = rest0)
  \/ exists pre', pre = keep ++ c0 :: pre' /\ rest0 = pre' ++ c :: rest.
Proof.
  revert pre. induction keep as [|k keep IH]; intros pre Heq Hkeep Hc0 Hc.
  - destruct pre as [|p pre]; simpl in Heq.
    + injection Heq as -> ->. left. auto.
    + injection Heq as -> ->. right. exists pre. auto.
  - simpl in Hkeep. apply andb_true_iff in Hkeep as [Hk Hkeep].
    destruct pre as [|p pre]; simpl in Heq.
    + injection Heq as <- _. rewrite Hc in Hk. discriminate.
    + injection Heq as <- Heq.
      destruct (IH pre Heq Hkeep Hc0 Hc) as [(-> & -> & ->)|[pre' [-> ->]]].
      * left. auto.
      * right. exists pre'. auto.
Qed.

Section Iteration.

Context {lib : NetLib}.
Variable rslv : Resolver.

(** The iteration that meets the resolvable component [c] after the
    unresolvable components [keep]. *)
Lemma iteration_split (results : list Multiaddr) (keep : Multiaddr)
    (c : Component) (rest : Multiaddr) :
  unresolvable keep = true -> resolvable c = true ->
  iteration rslv results (keep ++ c :: rest)
  = match lookup_component rslv c rest with
    | Error e => Return (Error e)
    | Ok resolved =>
        combine_resolved (keep_results results keep) resolved
          (if is_ip_dns c then rest else [])
    end.
Proof.
  intros Hkeep Hc. unfold iteration.
  rewrite (SplitFunc_keep _ _ _ _ Hkeep Hc).
  cbn [is_nil ma.SplitFirst]. fold (keep_results results keep).
  unfold lookup_component, component_v4.
  rewrite resolvable_cases in Hc. fold (is_ip_dns c). fold (is_dnsaddr c).
  destruct (is_ip_dns c).
  - destruct (LookupIPAddr (Backend rslv) (Value c)); [|reflexivity].
    destruct (resolve_ip_records _ _ _); reflexivity.
  - simpl in Hc. rewrite Hc.
    destruct (LookupTXT (Backend rslv) _); reflexivity.
Qed.

(** The iteration on what is left without a resolvable component. *)
Lemma iteration_unresolvable (results : list Multiaddr) (m : Multiaddr) :
  unresolvable m = true ->
  iteration rslv results m = Return (Ok (keep_results results m)).
Proof.
  intros Hm. unfold iteration. rewrite (SplitFunc_all _ _ Hm). reflexivity.
Qed.

Lemma combine_resolved_continue (results resolved : list Multiaddr)
    (maddr : Multiaddr) (results' : list Multiaddr) (maddr' : Multiaddr) :
  combine_resolved results resolved maddr = Continue results' maddr' ->
  maddr' = maddr /\ resolved <> [].
Proof.
  unfold combine_resolved.
  destruct resolved; simpl; [discriminate|].
  destruct (length results =? 0)%nat; intros [= <- <-]; split; congruence.
Qed.

(** An iteration that is followed by another one leaves fewer components
    to process: what follows the first resolvable component, or nothing. *)
Lemma iteration_continue (results : list Multiaddr) (maddr : Multiaddr)
    (results' : list Multiaddr) (maddr' : Multiaddr) :
  iteration rslv results maddr = Continue results' maddr' ->
  exists keep c rest,
    maddr = keep ++ c :: rest /\ unresolvable keep = true /\ resolvable c = true
    /\ maddr' = (if is_ip_dns c then rest else []).
Proof.
  intros Hit.
  destruct (first_resolvable maddr) as [Hm|(keep & c & rest & -> & Hkeep & Hc)].
  - rewrite (iteration_unresolvable _ _ Hm) in Hit. discriminate.
  - exists keep, c, rest. repeat split; try assumption.
    rewrite (iteration_split _ _ _ _ Hkeep Hc) in Hit.
    destruct (lookup_component rslv c rest); [|discriminate].
    apply combine_resolved_continue in Hit as [-> _]. reflexivity.
Qed.

Lemma iteration_decreases (results : list Multiaddr) (maddr : Multiaddr)
    (results' : list Multiaddr) (maddr' : Multiaddr) :
  iteration rslv results maddr = Continue results' maddr' ->
  (length maddr' < length maddr)%nat.
Proof.
  intros Hit.
  apply iteration_continue in Hit as (keep & c & rest & -> & _ & _ & ->).
  rewrite length_app. simpl. destruct (is_ip_dns c); simpl; lia.
Qed.

(** The [default] case of the [switch] and a nil [resolve] are not reached. *)
Lemma iteration_no_panic (results : list Multiaddr) (maddr : Multiaddr)
    (msg : string) :
  iteration rslv results maddr <> Panic msg.
Proof.
  destruct (first_resolvable maddr) as [Hm|(keep & c & rest & -> & Hkeep & Hc)].
  - rewrite (iteration_unresolvable _ _ Hm). discriminate.
  - rewrite (iteration_split _ _ _ _ Hkeep Hc).
    destruct (lookup_component rslv c rest); [|discriminate].
    unfold combine_resolved.
    destruct (length a =? 0)%nat; [discriminate|].
    destruct (length _ =? 0)%nat; discriminate.
Qed.

(** ** The loop *)

Lemma Resolve_loop_nil (fuel : nat) (results : list Multiaddr) :
  Resolve_loop rslv fuel results [] = Returns (Ok results).
Proof. destruct fuel; reflexivity. Qed.

Lemma Resolve_loop_cons (fuel : nat) (results : list Multiaddr)
    (c : Component) (m : Multiaddr) :
  Resolve_loop rslv (S fuel) results (c :: m)
  = match iteration rslv results (c :: m) with
    | Continue results' maddr' => Resolve_loop rslv fuel results' maddr'
    | Return res => Returns res
    | Panic msg => Panics msg
    end.
Proof. reflexivity. Qed.

(** The result of the loop does not depend on the iterations it is allowed,
    from one per component on. *)
Lemma Resolve_loop_fuel (n : nat) :
  forall (maddr : Multiaddr) (fuel fuel' : nat) (results : list Multiaddr),
    (length maddr <= n)%nat ->
    (length maddr <= fuel)%nat -> (length maddr <= fuel')%nat ->
    Resolve_loop rslv fuel results maddr = Resolve_loop rslv fuel' results maddr.
Proof.
  induction n as [|n IH]; intros maddr fuel fuel' results Hn Hf Hf'.
  - destruct maddr; [|simpl in Hn; lia]. rewrite !Resolve_loop_nil. reflexivity.
  - destruct maddr as [|c m]; [rewrite !Resolve_loop_nil; reflexivity|].
    destruct fuel as [|fuel]; [simpl in Hf; lia|].
    destruct fuel' as [|fuel']; [simpl in Hf'; lia|].
    rewrite !Resolve_loop_cons.
    destruct (iteration rslv results (c :: m)) as [results' maddr'| |] eqn:Hit;
      try reflexivity.
    apply iteration_decreases in Hit. simpl in *.
    apply IH; lia.
Qed.

Lemma Resolve_loop_returns (n : nat) :
  forall (maddr : Multiaddr) (fuel : nat) (results : list Multiaddr),
    (length maddr <= n)%nat -> (length maddr <= fuel)%nat ->
    exists res, Resolve_loop rslv fuel results maddr = Returns res.
Proof.
  induction n as [|n IH]; intros maddr fuel results Hn Hf.
  - destruct maddr; [|simpl in Hn; lia]. rewrite Resolve_loop_nil. eauto.
  - destruct maddr as [|c m]; [rewrite Resolve_loop_nil; eauto|].
    destruct fuel as [|fuel]; [simpl in Hf; lia|].
    rewrite Resolve_loop_cons.
    destruct (iteration rslv results (c :: m)) as [results' maddr'|res|msg] eqn:Hit.
    + apply iteration_decreases in Hit. simpl in *. apply IH; lia.
    + eauto.
    + exfalso. exact (iteration_no_panic _ _ _ Hit).
Qed.

(** The loop at the resolvable component [c] after the unresolvable [keep]. *)
Lemma Resolve_loop_split (fuel : nat) (results : list Multiaddr) (keep : Multiaddr)
    (c : Component) (rest : Multiaddr) :
  unresolvable keep = true -> resolvable c = true ->
  (length (keep ++ c :: rest) <= fuel)%nat ->
  Resolve_loop rslv fuel results (keep ++ c :: rest)
  = match lookup_component rslv c rest with
    | Error e => Returns (Error e)
    | Ok [] => Returns (Ok [])
    | Ok resolved =>
        Resolve_loop rslv (length rest)
          (if is_nil (keep_results results keep) then resolved
           else cross (keep_results results keep) resolved)
          (if is_ip_dns c then rest else [])
    end.
Proof.
  intros Hkeep Hc Hfuel.
  destruct fuel as [|fuel]; [rewrite length_app in Hfuel; simpl in Hfuel; lia|].
  destruct (keep ++ c :: rest) as [|c' m'] eqn:Hm; [destruct keep; discriminate|].
  rewrite Resolve_loop_cons, <- Hm, (iteration_split _ _ _ _ Hkeep Hc).
  assert (length rest <= fuel)%nat as Hrest.
  { rewrite <- Hm, length_app in Hfuel. simpl in Hfuel. lia. }
  destruct (lookup_component rslv c rest) as [resolved|e]; [|reflexivity].
  destruct resolved as [|x resolved]; [reflexivity|].
  unfold combine_resolved. cbn [length Nat.eqb].
  assert (forall results' : list Multiaddr,
            Resolve_loop rslv fuel results' (if is_ip_dns c then rest else [])
            = Resolve_loop rslv (length rest) results' (if is_ip_dns c then rest else []))
    as Hfuel'.
  { intros results'. apply (Resolve_loop_fuel (length rest)); destruct (is_ip_dns c); simpl; lia. }
  destruct (keep_results results keep); simpl; apply Hfuel'.
Qed.

Lemma Resolve_loop_unresolvable (fuel : nat) (results : list Multiaddr)
    (m : Multiaddr) :
  unresolvable m = true -> (length m <= fuel)%nat ->
  Resolve_loop rslv fuel results m = Returns (Ok (keep_results results m)).
Proof.
  intros Hm Hfuel. destruct m as [|c m]; [apply Resolve_loop_nil|].
  destruct fuel as [|fuel]; [simpl in Hfuel; lia|].
  rewrite Resolve_loop_cons, (iteration_unresolvable _ _ Hm). reflexivity.
Qed.

End Iteration.

(** ** Termination *)

(** C9: [Resolve] terminates on every multiaddress.  An iteration that is
    followed by another one has split the remaining address at its first
    resolvable component [c] and goes on with what follows [c], or, when [c]
    is a [dnsaddr] component, with the nil address; either way fewer
    components are left, so that the loop is well-founded, needs no more
    than one iteration per component, and returns (it neither runs on nor
    panics). *)
Theorem Resolve_terminates {lib : NetLib} (rslv : Resolver) :
  (forall results maddr results' maddr',
      iteration rslv results maddr = Continue results' maddr' ->
      (exists keep c rest,
          maddr = keep ++ c :: rest
          /\ unresolvable keep = true /\ resolvable c = true
          /\ (maddr' = rest \/ (is_dnsaddr c = true /\ maddr' = [])))
      /\ (length maddr' < length maddr)%nat)
  /\ well_founded (loop_next rslv)
  /\ (forall maddr, exists res, Resolve rslv maddr = Returns res)
  /\ (forall maddr fuel results,
        (length maddr <= fuel)%nat ->
        Resolve_loop rslv fuel results maddr
        = Resolve_loop rslv (length maddr) results maddr).
Proof.
  split; [|split; [|split]].
  - intros results maddr results' maddr' Hit. split.
    + destruct (iteration_continue _ _ _ _ _ Hit)
        as (keep & c & rest & -> & Hkeep & Hc & ->).
      exists keep, c, rest. repeat split; try assumption.
      rewrite resolvable_cases in Hc.
      destruct (is_ip_dns c); [left; reflexivity|right; auto].
    + exact (iteration_decreases _ _ _ _ _ Hit).
  - apply (well_founded_lt_compat _ (fun m : Multiaddr => length m)).
    intros maddr' maddr (results & results' & Hit).
    exact (iteration_decreases _ _ _ _ _ Hit).
  - intros maddr. unfold Resolve.
    apply (Resolve_loop_returns rslv (length maddr)); lia.
  - intros maddr fuel results Hfuel.
    apply (Resolve_loop_fuel rslv (length maddr)); lia.
Qed.

(** ** The records of a [dns4] or [dns6] component *)

Section Records.

Context {lib : NetLib}.

Lemma ip_record_kept (v4 : bool) (a : IPAddr) :
  kept v4 a = true ->
  ip_record v4 a = Some (if v4 then ip4_maddr a else ip6_maddr a).
Proof.
  unfold kept, is_IPv4, ip_record, ip4_maddr, ip6_maddr.
  destruct v4, (net.isNil (net.To4 (IP a))); simpl; congruence.
Qed.

Lemma ip_record_skipped (v4 : bool) (a : IPAddr) :
  kept v4 a = false -> ip_record v4 a = None.
Proof.
  unfold kept, is_IPv4, ip_record.
  destruct v4, (net.isNil (net.To4 (IP a))); simpl; congruence.
Qed.

(** When [ma.NewMultiaddr] accepts every kept record, the loop appends
    their multiaddresses in the order of the records. *)
Lemma resolve_ip_records_ok (v4 : bool) (records : list IPAddr) :
  forall (xs acc : list Multiaddr),
    Forall2 (fun a x => (if v4 then ip4_maddr a else ip6_maddr a) = Ok x)
            (List.filter (kept v4) records) xs ->
    resolve_ip_records v4 records acc = Ok (acc ++ xs).
Proof.
  induction records as [|a records IH]; intros xs acc Hxs; simpl in *.
  - inversion Hxs. rewrite app_nil_r. reflexivity.
  - destruct (kept v4 a) eqn:Hkept.
    + inversion Hxs as [|a' x l xs' Hx Hxs' E1 E2]; subst.
      rewrite (ip_record_kept _ _ Hkept), Hx, (IH xs' _ Hxs'), <- app_assoc.
      reflexivity.
    + rewrite (ip_record_skipped _ _ Hkept). apply IH, Hxs.
Qed.

(** The loop returns an error exactly when [ma.NewMultiaddr] rejects a
    record; the error is that of the first such record. *)
Lemma resolve_ip_records_error (v4 : bool) (records : list IPAddr) (e : error) :
  forall acc : list Multiaddr,
    resolve_ip_records v4 records acc = Error e
    <-> exists before a after,
          records = before ++ a :: after
          /\ Forall (fun a' => forall e', ip_record v4 a' <> Some (Error e')) before
          /\ ip_record v4 a = Some (Error e).
Proof.
  induction records as [|a records IH]; intros acc; simpl.
  - split; [discriminate|]. intros (before & a & after & H & _).
    destruct before; discriminate.
  - destruct (ip_record v4 a) as [[x|e0]|] eqn:Ha.
    + rewrite IH. split.
      * intros (before & a' & after & -> & Hb & Ha').
        exists (a :: before), a', after. repeat split; try assumption.
        constructor; [congruence|assumption].
      * intros (before & a' & after & Heq & Hb & Ha').
        destruct before as [|b before]; simpl in Heq; injection Heq as -> ->.
        -- congruence.
        -- inversion Hb; subst. exists before, a', after. auto.
    + split.
      * intros [= ->]. exists [], a, records. repeat split; auto.
      * intros (before & a' & after & Heq & Hb & Ha').
        destruct before as [|b before]; simpl in Heq; injection Heq as -> ->.
        -- congruence.
        -- inversion Hb as [|? ? Hb1 Hb2]; subst. exfalso. exact (Hb1 _ Ha).
    + rewrite IH. split.
      * intros (before & a' & after & -> & Hb & Ha').
        exists (a :: before), a', after. repeat split; try assumption.
        constructor; [congruence|assumption].
      * intros (before & a' & after & Heq & Hb & Ha').
        destruct before as [|b before]; simpl in Heq; injection Heq as -> ->.
        -- congruence.
        -- inversion Hb; subst. exists before, a', after. auto.
Qed.

End Records.

Lemma flat_map_nil_r {A B C : Type} (f : A -> B -> C) (xs : list A) :
  flat_map (fun x => map (f x) []) xs = [].
Proof. induction xs; simpl; auto. Qed.

Lemma nth_error_flat_map_pairs {A B C : Type} (f : A -> B -> C)
    (xs : list A) (ys : list B) :
  forall (i j : nat) (x : A) (y : B),
    nth_error xs i = Some x -> nth_error ys j = Some y ->
    nth_error (flat_map (fun x => map (f x) ys) xs) (i * length ys + j)
    = Some (f x y).
Proof.
  induction xs as [|x0 xs IH]; intros i j x y Hx Hy.
  - destruct i; discriminate.
  - assert (j < length ys)%nat as Hj by (apply nth_error_Some; congruence).
    destruct i as [|i]; simpl in *.
    + injection Hx as ->.
      rewrite nth_error_app1 by (rewrite length_map; exact Hj).
      rewrite nth_error_map, Hy. reflexivity.
    + rewrite nth_error_app2 by (rewrite length_map; lia).
      rewrite length_map.
      replace (length ys + i * length ys + j - length ys)%nat
        with (i * length ys + j)%nat by lia.
      apply IH; assumption.
Qed.

(** ** Cross product of two DNS segments *)

Section Cross.

Context {lib : NetLib}.
Variable rslv : Resolver.

Lemma lookup_component_dns4 (host : string) (rest : Multiaddr)
    (records : list IPAddr) :
  LookupIPAddr (Backend rslv) host = Ok records ->
  lookup_component rslv (dns4 host) rest = resolve_ip_records true records [].
Proof.
  intros H. unfold lookup_component.
  change (is_ip_dns (dns4 host)) with true.
  change (component_v4 (dns4 host)) with true.
  change (Value (dns4 host)) with host. rewrite H. reflexivity.
Qed.

Lemma lookup_component_dns6 (host : string) (rest : Multiaddr)
    (records : list IPAddr) :
  LookupIPAddr (Backend rslv) host = Ok records ->
  lookup_component rslv (dns6 host) rest = resolve_ip_records false records [].
Proof.
  intros H. unfold lookup_component.
  change (is_ip_dns (dns6 host)) with true.
  change (component_v4 (dns6 host)) with false.
  change (Value (dns6 host)) with host. rewrite H. reflexivity.
Qed.

Lemma keep_results_cross (xs ys : list Multiaddr) (mid : Multiaddr) :
  xs <> [] ->
  cross (keep_results xs mid) ys
  = flat_map (fun x => map (fun y => x ++ mid ++ y) ys) xs.
Proof.
  intros Hxs. rewrite cross_flat_map. unfold keep_results.
  destruct mid as [|c mid]; simpl negb; cbv iota.
  - reflexivity.
  - destruct xs as [|x xs]; [congruence|]. cbn [is_nil].
    rewrite flat_map_concat_map, map_map, <- flat_map_concat_map.
    apply flat_map_ext. intros a. apply map_ext. intros y.
    unfold ma.Encapsulate. rewrite <- app_assoc. reflexivity.
Qed.

Lemma keep_results_nonempty (xs : list Multiaddr) (mid : Multiaddr) :
  xs <> [] -> is_nil (keep_results xs mid) = false.
Proof.
  intros Hxs. unfold keep_results.
  destruct xs as [|x xs]; [congruence|]. destruct mid; reflexivity.
Qed.

End Cross.

(** C3: for [/dns4/A/dns6/B], possibly with unresolvable components [mid]
    between the two segments, when the backend returns [recordsA] for [A]
    and [recordsB] for [B] and [ma.NewMultiaddr] accepts the text of every
    IPv4 record of [A] and of every non-IPv4 record of [B], making the
    multiaddresses [xs] and [ys] of them, [Resolve] returns
    as many addresses as the product of the number of IPv4 records of [A] and
    the number of non-IPv4 records of [B], in A-major, B-minor order: the
    address at index [i * length ys + j] is the [i]-th of [xs], then [mid],
    then the [j]-th of [ys]. *)
Theorem Resolve_dns4_dns6_cross {lib : NetLib} (rslv : Resolver) (A B : string)
    (mid : Multiaddr) (recordsA recordsB : list IPAddr) (xs ys : list Multiaddr) :
  unresolvable mid = true ->
  LookupIPAddr (Backend rslv) A = Ok recordsA ->
  LookupIPAddr (Backend rslv) B = Ok recordsB ->
  Forall2 (fun a x => ip4_maddr a = Ok x) (List.filter is_IPv4 recordsA) xs ->
  Forall2 (fun a y => ip6_maddr a = Ok y)
          (List.filter (fun a => negb (is_IPv4 a)) recordsB) ys ->
  exists out,
    Resolve rslv (dns4 A :: mid ++ [dns6 B]) = Returns (Ok out)
    /\ length out
       = (length (List.filter is_IPv4 recordsA)
          * length (List.filter (fun a => negb (is_IPv4 a)) recordsB))%nat
    /\ out = flat_map (fun x => map (fun y => x ++ mid ++ y) ys) xs
    /\ forall i j x y,
         nth_error xs i = Some x -> nth_error ys j = Some y ->
         nth_error out (i * length ys + j) = Some (x ++ mid ++ y).
Proof.
  intros Hmid HA HB Hxs Hys.
  exists (flat_map (fun x => map (fun y => x ++ mid ++ y) ys) xs).
  split; [|split; [|split]].
  - unfold Resolve.
    change (dns4 A :: mid ++ [dns6 B]) with ([] ++ dns4 A :: mid ++ [dns6 B]).
    rewrite Resolve_loop_split by (reflexivity || (simpl; lia)).
    rewrite (lookup_component_dns4 _ _ _ _ HA).
    rewrite (resolve_ip_records_ok true recordsA xs [] Hxs).
    destruct (([] : list Multiaddr) ++ xs) as [|x xs0] eqn:Exs; simpl in Exs; subst xs.
    + reflexivity.
    + change (is_ip_dns (dns4 A)) with true.
      change (keep_results [] []) with ([] : list Multiaddr). cbn [is_nil].
      rewrite Resolve_loop_split by (assumption || reflexivity || (simpl; lia)).
      rewrite (lookup_component_dns6 _ _ _ _ HB).
      rewrite (resolve_ip_records_ok false recordsB ys [] Hys).
      destruct (([] : list Multiaddr) ++ ys) as [|y ys0] eqn:Eys; simpl in Eys; subst ys.
      * rewrite (flat_map_nil_r (fun x y => x ++ mid ++ y)). reflexivity.
      * rewrite keep_results_nonempty by discriminate.
        rewrite keep_results_cross by discriminate.
        change (is_ip_dns (dns6 B)) with true.
        rewrite Resolve_loop_nil. reflexivity.
  - rewrite (length_flat_map_const _ _ (length ys)) by (intros; apply length_map).
    rewrite (Forall2_length _ _ _ Hxs), (Forall2_length _ _ _ Hys). reflexivity.
  - reflexivity.
  - intros i j x y Hx Hy.
    exact (nth_error_flat_map_pairs (fun x y => x ++ mid ++ y) xs ys i j x y Hx Hy).
Qed.

(** The case of [TestResolveMultiple]:
    [/dns4/example.com/quic/dns6/example.com] with two records of each
    family. *)
Lemma Resolve_dns4_dns6_cross_witness :
  let mid := GoRef.StringCast "/quic" in
  let records := [resolve_test.ip4a; resolve_test.ip4b;
                  resolve_test.ip6a; resolve_test.ip6b] in
  let xs := [resolve_test.ip4ma; resolve_test.ip4mb] in
  let ys := [resolve_test.ip6ma; resolve_test.ip6mb] in
  unresolvable mid = true
  /\ LookupIPAddr (Backend resolve_test.makeResolver) "example.com" = Ok records
  /\ Forall2 (fun a x => ip4_maddr a = Ok x) (List.filter is_IPv4 records) xs
  /\ Forall2 (fun a y => ip6_maddr a = Ok y)
             (List.filter (fun a => negb (is_IPv4 a)) records) ys
  /\ exists out,
       Resolve resolve_test.makeResolver
         (dns4 "example.com" :: mid ++ [dns6 "example.com"]) = Returns (Ok out)
       /\ length out = (length (List.filter is_IPv4 records)
                        * length (List.filter (fun a => negb (is_IPv4 a)) records))%nat
       /\ out = flat_map (fun x => map (fun y => x ++ mid ++ y) ys) xs
       /\ forall i j x y,
            nth_error xs i = Some x -> nth_error ys j = Some y ->
            nth_error out (i * length ys + j) = Some (x ++ mid ++ y).
Proof.
  intros mid records xs ys.
  assert (unresolvable mid = true) as Hmid by reflexivity.
  assert (LookupIPAddr (Backend resolve_test.makeResolver) "example.com" = Ok records)
    as Hlookup by (vm_compute; reflexivity).
  assert (Forall2 (fun a x => ip4_maddr a = Ok x) (List.filter is_IPv4 records) xs)
    as Hxs.
  { replace (List.filter is_IPv4 records)
      with [resolve_test.ip4a; resolve_test.ip4b] by (vm_compute; reflexivity).
    repeat constructor; vm_compute; reflexivity. }
  assert (Forall2 (fun a y => ip6_maddr a = Ok y)
            (List.filter (fun a => negb (is_IPv4 a)) records) ys) as Hys.
  { replace (List.filter (fun a => negb (is_IPv4 a)) records)
      with [resolve_test.ip6a; resolve_test.ip6b] by (vm_compute; reflexivity).
    repeat constructor; vm_compute; reflexivity. }
  repeat (split; [assumption|]).
  exact (Resolve_dns4_dns6_cross resolve_test.makeResolver "example.com"
           "example.com" mid records records xs ys Hmid Hlookup Hlookup Hxs Hys).
Defined.

(** With the DNS-over-HTTPS resolver of the tests as backend, as in
    [DefaultDOHResolver]: the lookup returns one IPv4 record and one record
    that is no IPv4 address, its address being nil since the text of the
    answer is no address.  [n] and [m] are 1, and [Resolve] returns an
    error for [/dns4/example.com/dns6/example.com], not one address:
    [ma.NewMultiaddr] rejects the text of the second record. *)
Lemma Resolve_dns4_dns6_rejected_record_counterexample :
  let rslv := {| Backend := doh_test.backend_ |} in
  let records := [ {| IP := GoRef.ParseIP "192.0.2.1"; Zone := EmptyString |};
                   {| IP := GoRef.ParseIP "garbage"; Zone := EmptyString |} ] in
  let maddr := [dns4 "example.com"; dns6 "example.com"] in
  LookupIPAddr (Backend rslv) "example.com" = Ok records
  /\ length (List.filter is_IPv4 records) = 1%nat
  /\ length (List.filter (fun a => negb (is_IPv4 a)) records) = 1%nat
  /\ (exists e, Resolve rslv maddr = Returns (Error e))
  /\ ~ (exists out,
          Resolve rslv maddr = Returns (Ok out)
          /\ length out
             = (length (List.filter is_IPv4 records)
                * length (List.filter (fun a => negb (is_IPv4 a)) records))%nat).
Proof.
  intros rslv records maddr.
  assert (exists e, Resolve rslv maddr = Returns (Error e)) as Herr
    by (eexists; vm_compute; reflexivity).
  split; [vm_compute; reflexivity|].
  split; [vm_compute; reflexivity|].
  split; [vm_compute; reflexivity|].
  split; [exact Herr|].
  destruct Herr as [e He]. intros (out & Hout & _). congruence.
Qed.

(** ** The records of a [dnsaddr] component *)

Lemma strip_prefix_HasPrefix (prefix s : string) :
  strip_prefix prefix s
  = if GoStrings.HasPrefix s prefix
    then Some (GoStrings.slice_from (String.length prefix) s)
    else None.
Proof.
  revert s. induction prefix as [|p prefix IH]; intros s; simpl.
  - reflexivity.
  - destruct s as [|c s]; [reflexivity|].
    destruct (Ascii.eqb c p); [apply IH|reflexivity].
Qed.

Section Dnsaddr.

Context {lib : NetLib}.
Variable rslv : Resolver.

(** The body of the loop over the TXT records selects as the specification
    says, when a trailer follows the component. *)
Lemma dnsaddr_record_spec (trailer : Multiaddr) (txt : string) :
  trailer <> [] ->
  dnsaddr_record trailer (addrLen trailer) txt = spec_accept trailer txt.
Proof.
  intros Htrailer. unfold dnsaddr_record, spec_accept, dnsaddrTXTPrefix.
  rewrite strip_prefix_HasPrefix.
  destruct (GoStrings.HasPrefix txt "dnsaddr="); [|reflexivity].
  cbn [negb].
  destruct (NewMultiaddr _) as [R|e]; [|reflexivity].
  destruct trailer as [|t trailer]; [congruence|]. cbn [is_nil negb].
  rewrite !addrLen_length.
  destruct (Nat.leb_spec (length (t :: trailer)) (length R)) as [Hle|Hlt].
  - replace (Z.of_nat (length R) <? Z.of_nat (length (t :: trailer))) with false
      by (symmetry; apply Z.ltb_ge; lia).
    rewrite <- Nat2Z.inj_sub by exact Hle. rewrite offset_skipn.
    unfold ma.Equal, last_components. cbn [andb].
    destruct (decide (t :: trailer = skipn (length R - length (t :: trailer)) R))
      as [Heq|Hne].
    + rewrite bool_decide_eq_true_2 by exact Heq.
      rewrite bool_decide_eq_true_2 by (symmetry; exact Heq). reflexivity.
    + rewrite bool_decide_eq_false_2 by exact Hne.
      rewrite bool_decide_eq_false_2 by (intros Heq; apply Hne; symmetry; exact Heq).
      reflexivity.
  - replace (Z.of_nat (length R) <? Z.of_nat (length (t :: trailer))) with true
      by (symmetry; apply Z.ltb_lt; lia).
    reflexivity.
Qed.

Lemma resolve_txt_records_omap (maddr : Multiaddr) (len : Z)
    (records : list string) :
  forall resolved : list Multiaddr,
    resolve_txt_records maddr len records resolved
    = resolved ++ omap (dnsaddr_record maddr len) records.
Proof.
  induction records as [|txt records IH]; intros resolved; csimpl.
  - rewrite app_nil_r. reflexivity.
  - destruct (dnsaddr_record maddr len txt) as [R|]; rewrite IH.
    + rewrite <- app_assoc. reflexivity.
    + reflexivity.
Qed.

Lemma resolve_txt_records_accepted (trailer : Multiaddr) (records : list string) :
  trailer <> [] ->
  resolve_txt_records trailer (addrLen trailer) records []
  = accepted trailer records.
Proof.
  intros Htrailer. rewrite resolve_txt_records_omap, app_nil_l. unfold accepted.
  induction records as [|txt records IH]; [reflexivity|]. csimpl.
  rewrite (dnsaddr_record_spec _ _ Htrailer), IH. reflexivity.
Qed.

Lemma lookup_component_dnsaddr (host : string) (rest : Multiaddr)
    (records : list string) :
  LookupTXT (Backend rslv) ("_dnsaddr." +:+ host) = Ok records ->
  lookup_component rslv (dnsaddr host) rest
  = Ok (resolve_txt_records rest
          (if negb (is_nil rest) then addrLen rest else 0) records []).
Proof.
  intros H. unfold lookup_component.
  change (is_ip_dns (dnsaddr host)) with false.
  change (Value (dnsaddr host)) with host. rewrite H. reflexivity.
Qed.

Lemma accepted_iff (trailer : Multiaddr) (records : list string) (R : Multiaddr) :
  In R (accepted trailer records)
  <-> exists txt,
        In txt records
        /\ GoStrings.HasPrefix txt "dnsaddr=" = true
        /\ NewMultiaddr (GoStrings.slice_from 8 txt) = Ok R
        /\ (length trailer <= length R)%nat
        /\ skipn (length R - length trailer) R = trailer.
Proof.
  unfold accepted. rewrite <- list_elem_of_In, list_elem_of_omap.
  split.
  - intros (txt & Hin & Hacc). exists txt. rewrite <- list_elem_of_In.
    split; [exact Hin|].
    unfold spec_accept in Hacc. rewrite strip_prefix_HasPrefix in Hacc.
    destruct (GoStrings.HasPrefix txt "dnsaddr="); [|discriminate].
    change (String.length "dnsaddr=") with 8%nat in Hacc.
    destruct (NewMultiaddr _) as [R'|]; [|discriminate].
    destruct (Nat.leb_spec (length trailer) (length R')); [|discriminate].
    cbn [andb] in Hacc.
    destruct (decide (last_components (length trailer) R' = trailer)) as [Heq|Hne].
    + rewrite bool_decide_eq_true_2 in Hacc by exact Heq.
      injection Hacc as ->. auto.
    + rewrite bool_decide_eq_false_2 in Hacc by exact Hne. discriminate.
  - intros (txt & Hin & Hprefix & Hparse & Hlen & Hlast). exists txt.
    rewrite list_elem_of_In. split; [exact Hin|].
    unfold spec_accept. rewrite strip_prefix_HasPrefix, Hprefix.
    change (String.length "dnsaddr=") with 8%nat. rewrite Hparse.
    apply Nat.leb_le in Hlen. rewrite Hlen. cbn [andb].
    rewrite bool_decide_eq_true_2 by exact Hlast. reflexivity.
Qed.

End Dnsaddr.

(** C1, as the code has it: for a multiaddress whose first resolvable
    component is a [dnsaddr] component, after the unresolvable components
    [keep] and before a non-empty [trailer], [Resolve] keeps exactly the TXT
    records that carry the literal prefix [dnsaddr=], parse as a multiaddress
    [R], have at least as many components as the trailer and end with the
    trailer, component for component.  Each accepted [R] is returned in the
    order of the records, behind [keep] and otherwise unchanged (so as [R]
    itself when no component precedes the [dnsaddr] component).  The trailer
    is consumed by the match: it is appended to no output, and no lookup is
    made for its components. *)
Theorem Resolve_dnsaddr_trailer {lib : NetLib} (rslv : Resolver)
    (keep : Multiaddr) (host : string) (trailer : Multiaddr)
    (records : list string) :
  unresolvable keep = true ->
  trailer <> [] ->
  LookupTXT (Backend rslv) ("_dnsaddr." +:+ host) = Ok records ->
  Resolve rslv (keep ++ dnsaddr host :: trailer)
  = Returns (Ok (map (fun R => keep ++ R) (accepted trailer records)))
  /\ (keep = [] ->
      Resolve rslv (dnsaddr host :: trailer)
      = Returns (Ok (accepted trailer records)))
  /\ (forall R,
        In R (accepted trailer records)
        <-> exists txt,
              In txt records
              /\ GoStrings.HasPrefix txt "dnsaddr=" = true
              /\ NewMultiaddr (GoStrings.slice_from 8 txt) = Ok R
              /\ (length trailer <= length R)%nat
              /\ skipn (length R - length trailer) R = trailer).
Proof.
  intros Hkeep Htrailer Hlookup.
  assert (Resolve rslv (keep ++ dnsaddr host :: trailer)
          = Returns (Ok (map (fun R => keep ++ R) (accepted trailer records))))
    as Hres.
  { unfold Resolve.
    rewrite Resolve_loop_split by (assumption || reflexivity || lia).
    rewrite (lookup_component_dnsaddr _ _ _ _ Hlookup).
    destruct trailer as [|t trailer]; [congruence|]. cbn [is_nil negb].
    rewrite (resolve_txt_records_accepted _ _ Htrailer).
    destruct (accepted (t :: trailer) records) as [|R Rs]; [reflexivity|].
    change (is_ip_dns (dnsaddr host)) with false. rewrite Resolve_loop_nil.
    unfold keep_results. destruct keep as [|k keep]; cbn [is_nil negb app].
    - rewrite map_id. reflexivity.
    - rewrite cross_flat_map. simpl flat_map. rewrite app_nil_r. reflexivity. }
  split; [exact Hres|split].
  - intros ->.
    change ([] ++ dnsaddr host :: trailer) with (dnsaddr host :: trailer) in Hres.
    rewrite Hres.
    change (fun R : Multiaddr => [] ++ R) with (fun R : Multiaddr => R).
    rewrite map_id. reflexivity.
  - intros R. apply accepted_iff.
Qed.

(** The case of [TestDnsaddrMatching]: [/dnsaddr/matching.com/tcp/123/http]
    resolves to the one record that ends with [/tcp/123/http]. *)
Lemma Resolve_dnsaddr_trailer_witness :
  let trailer := GoRef.StringCast "/tcp/123/http" in
  let records := [resolve_test.txtc; resolve_test.txtd; resolve_test.txte;
                  "not a dnsaddr"; "dnsaddr=/foobar"] in
  (unresolvable [] = true
   /\ trailer <> []
   /\ LookupTXT (Backend resolve_test.makeResolver) "_dnsaddr.matching.com"
      = Ok records)
  /\ accepted trailer records = [resolve_test.txtmc]
  /\ (Resolve resolve_test.makeResolver ([] ++ dnsaddr "matching.com" :: trailer)
      = Returns (Ok (map (fun R => [] ++ R) (accepted trailer records)))
      /\ (@nil Component = [] ->
          Resolve resolve_test.makeResolver (dnsaddr "matching.com" :: trailer)
          = Returns (Ok (accepted trailer records)))
      /\ (forall R,
            In R (accepted trailer records)
            <-> exists txt,
                  In txt records
                  /\ GoStrings.HasPrefix txt "dnsaddr=" = true
                  /\ NewMultiaddr (GoStrings.slice_from 8 txt) = Ok R
                  /\ (length trailer <= length R)%nat
                  /\ skipn (length R - length trailer) R = trailer)).
Proof.
  intros trailer records.
  assert (unresolvable [] = true) as Hkeep by reflexivity.
  assert (trailer <> []) as Htrailer by (vm_compute; discriminate).
  assert (LookupTXT (Backend resolve_test.makeResolver) "_dnsaddr.matching.com"
          = Ok records) as Hlookup by (vm_compute; reflexivity).
  split; [auto|]. split; [vm_compute; reflexivity|].
  exact (Resolve_dnsaddr_trailer resolve_test.makeResolver [] "matching.com"
           trailer records Hkeep Htrailer Hlookup).
Defined.

(** With a component before the [dnsaddr] component, the accepted record is
    returned behind that component, not as it is. *)
Lemma Resolve_dnsaddr_prefix_counterexample :
  let maddr := GoRef.StringCast "/tcp/1/dnsaddr/matching.com/tcp/123" in
  let trailer := GoRef.StringCast "/tcp/123" in
  let records := [resolve_test.txtc; resolve_test.txtd; resolve_test.txte;
                  "not a dnsaddr"; "dnsaddr=/foobar"] in
  LookupTXT (Backend resolve_test.makeResolver) "_dnsaddr.matching.com" = Ok records
  /\ accepted trailer records = [GoRef.StringCast "/ip4/192.0.2.1/tcp/123"]
  /\ Resolve resolve_test.makeResolver maddr
     = Returns (Ok [GoRef.StringCast "/tcp/1/ip4/192.0.2.1/tcp/123"])
  /\ Resolve resolve_test.makeResolver maddr
     <> Returns (Ok [GoRef.StringCast "/ip4/192.0.2.1/tcp/123"]).
Proof.
  intros maddr trailer records.
  split; [vm_compute; reflexivity|].
  split; [vm_compute; reflexivity|].
  split; [vm_compute; reflexivity|].
  vm_compute. discriminate.
Qed.

(** ** Errors *)

Lemma ip_dns_not_dnsaddr (c : Component) :
  is_ip_dns c = true -> is_dnsaddr c = false.
Proof.
  unfold is_ip_dns, is_dnsaddr. intros H.
  apply orb_true_iff in H as [H|H]; apply Z.eqb_eq in H; rewrite H; reflexivity.
Qed.

Section Errors.

Context {lib : NetLib}.
Variable rslv : Resolver.

Lemma lookup_component_ip_rest (c : Component) (rest : Multiaddr) :
  is_ip_dns c = true ->
  lookup_component rslv c rest = lookup_component rslv c [].
Proof. intros Hc. unfold lookup_component. rewrite Hc. reflexivity. Qed.

(** The [switch] returns an error exactly when the lookup does or a record
    is rejected. *)
Lemma lookup_component_error_iff (c : Component) (rest : Multiaddr) (e : error) :
  resolvable c = true ->
  lookup_component rslv c rest = Error e
  <-> backend_fails rslv c e \/ record_fails rslv c e.
Proof.
  intros Hc. rewrite resolvable_cases in Hc.
  unfold lookup_component, backend_fails, record_fails.
  destruct (is_ip_dns c) eqn:Hip.
  - rewrite (ip_dns_not_dnsaddr _ Hip).
    destruct (LookupIPAddr (Backend rslv) (Value c)) as [records|e0] eqn:Hlookup.
    + rewrite resolve_ip_records_error. split.
      * intros (before & a & after & H). right. split; [reflexivity|].
        exists records, before, a, after. tauto.
      * intros [[[_ H]|[H _]]|[_ (records' & before & a & after & H1 & H)]];
          try discriminate.
        injection H1 as <-. exists before, a, after. exact H.
    + split.
      * intros [= ->]. left. left. auto.
      * intros [[[_ H]|[H _]]|[_ (records' & before & a & after & H1 & H)]];
          congruence.
  - simpl in Hc. rewrite Hc.
    destruct (LookupTXT (Backend rslv) _) as [records|e0] eqn:Hlookup.
    + split; [discriminate|].
      intros [[[H _]|[_ H]]|[H _]]; discriminate.
    + split.
      * intros [= ->]. left. right. auto.
      * intros [[[H _]|[_ H]]|[H _]]; congruence.
Qed.

Lemma passed_unresolvable (keep : Multiaddr) :
  unresolvable keep = true -> passed rslv keep.
Proof.
  unfold unresolvable, passed. rewrite forallb_forall, List.Forall_forall.
  intros H c Hin Hc. specialize (H c Hin). rewrite Hc in H. discriminate.
Qed.

Lemma unresolvable_no_position (m pre rest : Multiaddr) (c : Component) :
  unresolvable m = true -> m = pre ++ c :: rest -> resolvable c = true -> False.
Proof.
  unfold unresolvable. rewrite forallb_forall. intros H -> Hc.
  specialize (H c). rewrite Hc in H.
  assert (In c (pre ++ c :: rest)) as Hin by (apply in_or_app; right; left; reflexivity).
  specialize (H Hin). discriminate.
Qed.

(** A position in [keep ++ c0 :: rest0] that the loop reaches is the
    component [c0], or a position of [rest0] reached once [c0] is resolved. *)
Lemma position_cases (keep rest0 pre rest : Multiaddr) (c0 c : Component) :
  keep ++ c0 :: rest0 = pre ++ c :: rest ->
  unresolvable keep = true -> resolvable c0 = true -> resolvable c = true ->
  passed rslv pre ->
  (pre = keep /\ c = c0 /\ rest = rest0)
  \/ (resolves rslv c0
      /\ exists pre', rest0 = pre' ++ c :: rest /\ passed rslv pre').
Proof.
  intros Heq Hkeep Hc0 Hc Hpre.
  destruct (first_resolvable_unique _ _ _ _ _ _ Heq Hkeep Hc0 Hc)
    as [H|(pre' & -> & ->)]; [left; exact H|right].
  unfold passed in Hpre. rewrite Forall_app, Forall_cons_iff in Hpre.
  destruct Hpre as (_ & Hres & Hpre'). split; [exact (Hres Hc0)|].
  exists pre'. auto.
Qed.

Lemma passed_extend (keep pre' : Multiaddr) (c0 : Component) :
  unresolvable keep = true -> resolves rslv c0 -> passed rslv pre' ->
  passed rslv (keep ++ c0 :: pre').
Proof.
  intros Hkeep Hc0 Hpre'. unfold passed.
  rewrite Forall_app, Forall_cons_iff. split; [|split].
  - apply passed_unresolvable, Hkeep.
  - intros _. exact Hc0.
  - exact Hpre'.
Qed.

Lemma resolves_lookup (c0 : Component) (rest0 : Multiaddr) :
  resolves rslv c0 ->
  is_ip_dns c0 = true
  /\ exists x xs, lookup_component rslv c0 rest0 = Ok (x :: xs).
Proof.
  intros (Hip & resolved & Hlookup & Hne). split; [exact Hip|].
  rewrite (lookup_component_ip_rest _ rest0 Hip), Hlookup.
  destruct resolved as [|x xs]; [congruence|]. eauto.
Qed.

(** The loop returns the error [e] exactly when it reaches a resolvable
    component whose [switch] returns [e]. *)
Lemma Resolve_loop_error_iff (e : error) (n : nat) :
  forall (maddr : Multiaddr) (fuel : nat) (results : list Multiaddr),
    (length maddr <= n)%nat -> (length maddr <= fuel)%nat ->
    Resolve_loop rslv fuel results maddr = Returns (Error e)
    <-> error_position rslv maddr e.
Proof.
  induction n as [|n IH]; intros maddr fuel results Hn Hfuel.
  - destruct maddr; [|simpl in Hn; lia]. rewrite Resolve_loop_nil.
    split; [discriminate|]. intros (pre & c & rest & H & _).
    destruct pre; discriminate.
  - destruct (first_resolvable maddr) as [Hm|(keep & c0 & rest0 & -> & Hkeep & Hc0)].
    + rewrite (Resolve_loop_unresolvable _ _ _ _ Hm Hfuel).
      split; [discriminate|]. intros (pre & c & rest & H & _ & Hc & _).
      destruct (unresolvable_no_position _ _ _ _ Hm H Hc).
    + rewrite (Resolve_loop_split _ _ _ _ _ _ Hkeep Hc0 Hfuel).
      assert (length rest0 <= n)%nat as Hrest0.
      { rewrite length_app in Hn. simpl in Hn. lia. }
      destruct (lookup_component rslv c0 rest0) as [[|x xs]|e0] eqn:Hlookup.
      * split; [discriminate|].
        intros (pre & c & rest & Heq & Hpre & Hc & Hfail).
        destruct (position_cases _ _ _ _ _ _ Heq Hkeep Hc0 Hc Hpre)
          as [(-> & -> & ->)|(Hres & _)]; [congruence|].
        apply (resolves_lookup _ rest0) in Hres as (_ & x & xs & Hres). congruence.
      * destruct (is_ip_dns c0) eqn:Hip.
        -- rewrite (IH rest0 _ _ Hrest0 (Nat.le_refl _)). split.
           ++ intros (pre' & c & rest & -> & Hpre' & Hc & Hfail).
              exists (keep ++ c0 :: pre'), c, rest.
              rewrite <- app_assoc. repeat split; try assumption.
              apply passed_extend; try assumption.
              split; [exact Hip|]. exists (x :: xs).
              rewrite <- (lookup_component_ip_rest _ (pre' ++ c :: rest) Hip).
              split; congruence.
           ++ intros (pre & c & rest & Heq & Hpre & Hc & Hfail).
              destruct (position_cases _ _ _ _ _ _ Heq Hkeep Hc0 Hc Hpre)
                as [(-> & -> & ->)|(_ & pre' & -> & Hpre')]; [congruence|].
              exists pre', c, rest. auto.
        -- rewrite Resolve_loop_nil. split; [discriminate|].
           intros (pre & c & rest & Heq & Hpre & Hc & Hfail).
           destruct (position_cases _ _ _ _ _ _ Heq Hkeep Hc0 Hc Hpre)
             as [(-> & -> & ->)|((Hip' & _) & _)]; congruence.
      * split.
        -- intros [= ->]. exists keep, c0, rest0. repeat split; try assumption.
           apply passed_unresolvable, Hkeep.
        -- intros (pre & c & rest & Heq & Hpre & Hc & Hfail).
           destruct (position_cases _ _ _ _ _ _ Heq Hkeep Hc0 Hc Hpre)
             as [(-> & -> & ->)|(Hres & _)]; [congruence|].
           apply (resolves_lookup _ rest0) in Hres as (_ & x & xs & Hres).
           congruence.
Qed.

(** The loop returns the nil result without an error when it reaches a
    resolvable component for which nothing is resolved. *)
Lemma Resolve_loop_empty (n : nat) :
  forall (maddr : Multiaddr) (fuel : nat) (results : list Multiaddr),
    (length maddr <= n)%nat -> (length maddr <= fuel)%nat ->
    empty_position rslv maddr ->
    Resolve_loop rslv fuel results maddr = Returns (Ok []).
Proof.
  induction n as [|n IH]; intros maddr fuel results Hn Hfuel
    (pre & c & rest & Heq & Hpre & Hc & Hempty).
  - subst maddr. rewrite length_app in Hn. simpl in Hn. lia.
  - destruct (first_resolvable maddr) as [Hm|(keep & c0 & rest0 & -> & Hkeep & Hc0)].
    + destruct (unresolvable_no_position _ _ _ _ Hm Heq Hc).
    + rewrite (Resolve_loop_split _ _ _ _ _ _ Hkeep Hc0 Hfuel).
      assert (length rest0 <= n)%nat as Hrest0.
      { rewrite length_app in Hn. simpl in Hn. lia. }
      destruct (position_cases _ _ _ _ _ _ Heq Hkeep Hc0 Hc Hpre)
        as [(-> & -> & ->)|(Hres & pre' & -> & Hpre')].
      * rewrite Hempty. reflexivity.
      * apply (resolves_lookup _ (pre' ++ c :: rest)) in Hres
          as (Hip & x & xs & Hres).
        rewrite Hres, Hip. apply IH; try lia.
        exists pre', c, rest. auto.
Qed.

End Errors.

Lemma dnsaddr_not_ip_dns (c : Component) :
  is_dnsaddr c = true -> is_ip_dns c = false.
Proof.
  unfold is_ip_dns, is_dnsaddr. intros H. apply Z.eqb_eq in H. rewrite H.
  reflexivity.
Qed.

Lemma resolve_ip_records_skip_all {lib : NetLib} (v4 : bool)
    (records : list IPAddr) (acc : list Multiaddr) :
  Forall (fun a => kept v4 a = false) records ->
  resolve_ip_records v4 records acc = Ok acc.
Proof.
  induction 1 as [|a records Ha _ IH]; simpl.
  - reflexivity.
  - rewrite (ip_record_skipped _ _ Ha). exact IH.
Qed.

Lemma resolve_txt_records_skip_all {lib : NetLib} (maddr : Multiaddr) (len : Z)
    (records : list string) (acc : list Multiaddr) :
  Forall (fun txt => dnsaddr_record maddr len txt = None) records ->
  resolve_txt_records maddr len records acc = acc.
Proof.
  induction 1 as [|txt records Htxt _ IH]; simpl.
  - reflexivity.
  - rewrite Htxt. exact IH.
Qed.

Lemma nothing_resolved_lookup {lib : NetLib} (rslv : Resolver) (c : Component)
    (rest : Multiaddr) :
  nothing_resolved rslv c rest -> lookup_component rslv c rest = Ok [].
Proof.
  unfold lookup_component.
  intros [(Hip & records & Hlookup & Hskip)|(Haddr & records & Hlookup & Hskip)].
  - rewrite Hip, Hlookup. apply resolve_ip_records_skip_all, Hskip.
  - rewrite (dnsaddr_not_ip_dns _ Haddr), Hlookup.
    rewrite (resolve_txt_records_skip_all _ _ _ _ Hskip). reflexivity.
Qed.

(** C5, as the code has it: [Resolve] returns the error [e] exactly when
    the loop reaches a resolvable component (every resolvable component
    before it has resolved to at least one address) for which the backend
    lookup returns [e], or for which the lookup succeeds and
    [ma.NewMultiaddr] returns [e] on the text of a record the component
    keeps.  The error ends the resolution: it is returned whatever follows
    the component.  When nothing is resolved for the component the loop
    reaches, [Resolve] returns the nil result and no error. *)
Theorem Resolve_error_exactly {lib : NetLib} (rslv : Resolver) :
  (forall maddr e,
      Resolve rslv maddr = Returns (Error e)
      <-> exists pre c rest,
            maddr = pre ++ c :: rest
            /\ passed rslv pre /\ resolvable c = true
            /\ (backend_fails rslv c e \/ record_fails rslv c e))
  /\ (forall pre c rest,
        passed rslv pre -> resolvable c = true -> nothing_resolved rslv c rest ->
        Resolve rslv (pre ++ c :: rest) = Returns (Ok [])).
Proof.
  split.
  - intros maddr e. unfold Resolve.
    rewrite (Resolve_loop_error_iff rslv e (length maddr)) by lia.
    unfold error_position. split.
    + intros (pre & c & rest & Heq & Hpre & Hc & Hfail).
      exists pre, c, rest. repeat split; try assumption.
      apply (lookup_component_error_iff rslv c rest e Hc), Hfail.
    + intros (pre & c & rest & Heq & Hpre & Hc & Hfail).
      exists pre, c, rest. repeat split; try assumption.
      apply (lookup_component_error_iff rslv c rest e Hc), Hfail.
  - intros pre c rest Hpre Hc Hnothing. unfold Resolve.
    apply (Resolve_loop_empty rslv (length (pre ++ c :: rest))); try lia.
    exists pre, c, rest. repeat split; try assumption.
    apply nothing_resolved_lookup, Hnothing.
Qed.

Lemma MockBackend_no_error (m : MockBackend.t) (name : string) :
  is_error (LookupIPAddr (MockBackend.as_backend m) name) = false
  /\ is_error (LookupTXT (MockBackend.as_backend m) name) = false.
Proof.
  simpl. unfold MockBackend.LookupIPAddr, MockBackend.LookupTXT.
  destruct (MockBackend.IP m !! name), (MockBackend.TXT m !! name); auto.
Qed.

(** A backend that never returns an error, with a record whose address is
    nil (what [net.ParseIP] returns on a text that is no address, as the
    DNS-over-HTTPS backend stores it): [Resolve] returns an error for a
    [dns6] component. *)
Lemma Resolve_error_without_backend_error :
  let record := {| IP := GoRef.ParseIP "garbage"; Zone := EmptyString |} in
  let mock := {| MockBackend.IP := {[ "example.com" := [record] ]};
                 MockBackend.TXT := ∅ |} in
  let rslv := {| Backend := MockBackend.as_backend mock |} in
  IP record = []
  /\ (forall name, is_error (LookupIPAddr (Backend rslv) name) = false)
  /\ (forall name, is_error (LookupTXT (Backend rslv) name) = false)
  /\ GoRef.String_ (IP record) = "<nil>"
  /\ Resolve rslv [dns6 "example.com"]
     = Returns (Error (ErrorString "failed to parse ip6 addr")).
Proof.
  intros record mock rslv.
  split; [reflexivity|].
  split; [intros name; apply MockBackend_no_error|].
  split; [intros name; apply MockBackend_no_error|].
  split; vm_compute; reflexivity.
Qed.

(** ** Addresses with one resolvable component, or none *)

Section Single.

Context {lib : NetLib}.
Variable rslv : Resolver.

(** An address without a resolvable component is returned as it is. *)
Lemma Resolve_unresolvable (m : Multiaddr) :
  unresolvable m = true ->
  Resolve rslv m = Returns (Ok (if is_nil m then [] else [m])).
Proof.
  intros Hm. unfold Resolve.
  rewrite (Resolve_loop_unresolvable _ _ _ _ Hm) by lia.
  destruct m; reflexivity.
Qed.

(** [dns4] keeps the IPv4 records only, [dns6] the other records only. *)
Lemma Resolve_dns4_only (host : string) (records : list IPAddr)
    (xs : list Multiaddr) :
  LookupIPAddr (Backend rslv) host = Ok records ->
  Forall2 (fun a x => ip4_maddr a = Ok x) (List.filter is_IPv4 records) xs ->
  Resolve rslv [dns4 host] = Returns (Ok xs).
Proof.
  intros Hlookup Hxs. unfold Resolve.
  change [dns4 host] with ([] ++ dns4 host :: []).
  rewrite Resolve_loop_split by (reflexivity || (simpl; lia)).
  rewrite (lookup_component_dns4 _ _ _ _ Hlookup).
  rewrite (resolve_ip_records_ok true records xs [] Hxs).
  destruct xs; reflexivity.
Qed.

Lemma Resolve_dns6_only (host : string) (records : list IPAddr)
    (ys : list Multiaddr) :
  LookupIPAddr (Backend rslv) host = Ok records ->
  Forall2 (fun a y => ip6_maddr a = Ok y)
          (List.filter (fun a => negb (is_IPv4 a)) records) ys ->
  Resolve rslv [dns6 host] = Returns (Ok ys).
Proof.
  intros Hlookup Hys. unfold Resolve.
  change [dns6 host] with ([] ++ dns6 host :: []).
  rewrite Resolve_loop_split by (reflexivity || (simpl; lia)).
  rewrite (lookup_component_dns6 _ _ _ _ Hlookup).
  rewrite (resolve_ip_records_ok false records ys [] Hys).
  destruct ys; reflexivity.
Qed.

End Single.

(** C2, on the code: a [dns] component is no resolvable component.
    [Matches] is false on [/dns/host], and [Resolve] returns [/dns/host] as it
    is, whatever the backend; with the resolver of [TestSimpleIPResolve] the
    result is not the four addresses the test expects. *)
Theorem Resolve_dns_unresolved {lib : NetLib} (rslv : Resolver) (host : string) :
  resolvable {| protocol := DnsProtocol; Value := host |} = false
  /\ Matches [ {| protocol := DnsProtocol; Value := host |} ] = false
  /\ Resolve rslv [ {| protocol := DnsProtocol; Value := host |} ]
     = Returns (Ok [ [ {| protocol := DnsProtocol; Value := host |} ] ])
  /\ Resolve resolve_test.makeResolver
       [ {| protocol := DnsProtocol; Value := "example.com" |} ]
     <> Returns (Ok [resolve_test.ip4ma; resolve_test.ip4mb;
                     resolve_test.ip6ma; resolve_test.ip6mb]).
Proof.
  split; [reflexivity|]. split; [reflexivity|]. split.
  - rewrite Resolve_unresolvable by reflexivity. reflexivity.
  - rewrite Resolve_unresolvable by reflexivity. vm_compute. discriminate.
Qed.

(** C4, on the code: the result of [Resolve] is not capped.  For the
    resolver of [TestLimitResolver], with 255 IPv4 records, [Resolve] returns
    255 addresses; and for every cap there are a backend and an address
    whose result is longer than the cap. *)
Theorem Resolve_not_capped :
  (exists out,
      Resolve limit_test.resolver [dns4 "example.com"] = Returns (Ok out)
      /\ length out = 255%nat)
  /\ forall cap : nat,
       exists (rslv : Resolver) (out : list Multiaddr),
         Resolve rslv [dns4 "example.com"] = Returns (Ok out)
         /\ (cap < length out)%nat.
Proof.
  split.
  - eexists. split; [vm_compute; reflexivity|reflexivity].
  - intros cap.
    exists {| Backend :=
                MockBackend.as_backend
                  {| MockBackend.IP :=
                       {[ "example.com" := repeat resolve_test.ip4a (S cap) ]};
                     MockBackend.TXT := ∅ |} |}.
    exists (repeat resolve_test.ip4ma (S cap)). split.
    + apply (Resolve_dns4_only _ _ (repeat resolve_test.ip4a (S cap))).
      * simpl. unfold MockBackend.LookupIPAddr. simpl.
        rewrite lookup_singleton_eq. reflexivity.
      * generalize (S cap). intros n. induction n as [|n IH]; simpl.
        -- constructor.
        -- change (is_IPv4 resolve_test.ip4a) with true. cbv iota.
           constructor; [vm_compute; reflexivity|exact IH].
    + rewrite repeat_length. lia.
Qed.

(** ** The offline resolver *)

(** C6: [resolveP2PForge] tries the IPv6 decoding of the leftmost label
    first and returns the one address it gives; only when that decoding
    fails it tries the IPv4 decoding, and returns the one address it gives;
    when both fail it returns a [DNSError] with the original domain as name
    and the message of an invalid IP encoding. *)
Theorem resolveP2PForge_order {lib : NetLib} (domain label : string)
    (labels : list string) :
  (decodeIPv6 label <> [] ->
   resolveP2PForge domain (label :: labels)
   = Returns (Ok [ {| IP := decodeIPv6 label; Zone := EmptyString |} ]))
  /\ (decodeIPv6 label = [] -> decodeIPv4 label <> [] ->
      resolveP2PForge domain (label :: labels)
      = Returns (Ok [ {| IP := decodeIPv4 label; Zone := EmptyString |} ]))
  /\ (decodeIPv6 label = [] -> decodeIPv4 label = [] ->
      resolveP2PForge domain (label :: labels)
      = Returns (Error (DNSError "invalid IP encoding in p2p-forge domain"
                                 domain EmptyString))).
Proof.
  unfold resolveP2PForge. repeat split.
  - intros H6. destruct (decodeIPv6 label); [congruence|reflexivity].
  - intros -> H4. destruct (decodeIPv4 label); [congruence|reflexivity].
  - intros -> ->. reflexivity.
Qed.

(** The cases of [TestLibP2PDirectIPv6Priority],
    [TestLibP2PDirectIPv6PrioritySuccess] and the invalid label of
    [TestLibP2PDirectInvalidFormat]. *)
Example resolveP2PForge_examples :
  resolveP2PForge "10-0-0-1.peer.libp2p.direct" ["10-0-0-1"; "peer"; "libp2p"; "direct"]
  = Returns (Ok [ {| IP := GoRef.ParseIP "10.0.0.1"; Zone := EmptyString |} ])
  /\ resolveP2PForge "2001-db8--a-b.peer.libp2p.direct"
       ["2001-db8--a-b"; "peer"; "libp2p"; "direct"]
     = Returns (Ok [ {| IP := GoRef.ParseIP "2001:db8::a:b"; Zone := EmptyString |} ])
  /\ resolveP2PForge "invalid-ip.peer.libp2p.direct"
       ["invalid-ip"; "peer"; "libp2p"; "direct"]
     = Returns (Error (DNSError "invalid IP encoding in p2p-forge domain"
                                "invalid-ip.peer.libp2p.direct" EmptyString)).
Proof. repeat split; vm_compute; reflexivity. Qed.

(** The tables of [TestDecodeIPv4] and [TestDecodeIPv6]. *)
Example decodeIPv4_examples :
  map decodeIPv4 ["192-0-2-1"; "198-51-100-1"; "203-0-113-42"; "0-0-0-0";
                  "invalid"; "192-0-2"; "192-0-2-1-5"]
  = map GoRef.ParseIP ["192.0.2.1"; "198.51.100.1"; "203.0.113.42"; "0.0.0.0"]
    ++ [[]; []; []].
Proof. vm_compute. reflexivity. Qed.

Example decodeIPv6_examples :
  map decodeIPv6 ["2001-db8--1"; "2001-db8-85a3--8a2e"; "0--1"; "--1";
                  "2001-db8--0"; "2001-db8--"; "fe80-0-0-0-0-0-0-1";
                  "2001-0db8-85a3-0000-0000-8a2e-0370-7334";
                  "invalid"; "192-0-2-1"]
  = map GoRef.ParseIP ["2001:db8::1"; "2001:db8:85a3::8a2e"; "::1"; "::1";
                       "2001:db8::"; "2001:db8::"; "fe80::1";
                       "2001:db8:85a3::8a2e:370:7334"]
    ++ [[]; []].
Proof. vm_compute. reflexivity. Qed.

(** ** Go strings: slices, prefixes and suffixes *)

Lemma append_nil_r (s : string) : s +:+ EmptyString = s.
Proof. induction s as [|c s IH]; simpl; [reflexivity|]. unfold String.append in *. fold String.append in *. rewrite IH. reflexivity. Qed.

Lemma append_assoc (s t u : string) : (s +:+ t) +:+ u = s +:+ (t +:+ u).
Proof.
  induction s as [|c s IH]; [reflexivity|].
  change (String c ((s +:+ t) +:+ u) = String c (s +:+ (t +:+ u))).
  rewrite IH. reflexivity.
Qed.

Lemma length_append (s t : string) :
  String.length (s +:+ t) = (String.length s + String.length t)%nat.
Proof.
  induction s as [|c s IH]; [reflexivity|].
  change (S (String.length (s +:+ t)) = S (String.length s + String.length t)).
  rewrite IH. reflexivity.
Qed.

Lemma slice_from_append (t u : string) :
  GoStrings.slice_from (String.length t) (t +:+ u) = u.
Proof. induction t as [|c t IH]; [reflexivity|exact IH]. Qed.

Lemma slice_to_append (t u : string) :
  GoStrings.slice_to (String.length t) (t +:+ u) = t.
Proof.
  induction t as [|c t IH]; [reflexivity|].
  change (String c (GoStrings.slice_to (String.length t) (t +:+ u)) = String c t).
  rewrite IH. reflexivity.
Qed.

Lemma slice_split (n : nat) (s : string) :
  s = GoStrings.slice_to n s +:+ GoStrings.slice_from n s.
Proof.
  revert s. induction n as [|n IH]; intros s; [reflexivity|].
  destruct s as [|c s]; [reflexivity|].
  change (String c s
          = String c (GoStrings.slice_to n s +:+ GoStrings.slice_from n s)).
  rewrite <- IH. reflexivity.
Qed.

Lemma HasPrefix_append (p t : string) : GoStrings.HasPrefix (p +:+ t) p = true.
Proof.
  induction p as [|c p IH]; [reflexivity|].
  change (String c p +:+ t) with (String c (p +:+ t)). simpl.
  rewrite Ascii.eqb_refl. exact IH.
Qed.

Lemma HasSuffix_iff (s suffix : string) :
  GoStrings.HasSuffix s suffix = true <-> exists t, s = t +:+ suffix.
Proof.
  unfold GoStrings.HasSuffix. rewrite andb_true_iff, Nat.leb_le, String.eqb_eq.
  split.
  - intros [_ Heq].
    exists (GoStrings.slice_to (String.length s - String.length suffix) s).
    pose proof (slice_split (String.length s - String.length suffix) s) as Hsplit.
    rewrite Heq in Hsplit. exact Hsplit.
  - intros [t ->]. rewrite length_append. split; [lia|].
    replace (String.length t + String.length suffix - String.length suffix)%nat
      with (String.length t) by lia.
    apply slice_from_append.
Qed.

Lemma TrimSuffix_append (t suffix : string) :
  GoStrings.TrimSuffix (t +:+ suffix) suffix = t.
Proof.
  unfold GoStrings.TrimSuffix.
  assert (GoStrings.HasSuffix (t +:+ suffix) suffix = true) as ->
    by (apply HasSuffix_iff; eauto).
  rewrite length_append.
  replace (String.length t + String.length suffix - String.length suffix)%nat
    with (String.length t) by lia.
  apply slice_to_append.
Qed.

Lemma string_rev_append (s t : string) :
  spec.string_rev (s +:+ t) = spec.string_rev t +:+ spec.string_rev s.
Proof.
  induction s as [|c s IH].
  - simpl. rewrite append_nil_r. reflexivity.
  - change (spec.string_rev (s +:+ t) +:+ String c EmptyString
            = spec.string_rev t +:+ (spec.string_rev s +:+ String c EmptyString)).
    rewrite IH, append_assoc. reflexivity.
Qed.

Lemma string_rev_involutive (s : string) :
  spec.string_rev (spec.string_rev s) = s.
Proof.
  induction s as [|c s IH]; [reflexivity|].
  simpl. rewrite string_rev_append, IH. reflexivity.
Qed.

(** ** The IPv6 label decoder *)

(** Step 1 *)
Lemma TrimPrefix_leading_zero (encoded : string) :
  (if GoStrings.HasPrefix encoded "0--" then GoStrings.TrimPrefix encoded "0"
   else encoded)
  = spec.drop_leading_zero encoded.
Proof.
  unfold GoStrings.TrimPrefix.
  destruct encoded as [|c1 [|c2 [|c3 rest]]]; simpl;
    repeat match goal with
           | |- context [Ascii.eqb ?c ?d] => destruct (Ascii.eqb c d)
           end; reflexivity.
Qed.

Lemma drop_leading_zero_cases (s : string) :
  spec.drop_leading_zero s = s
  \/ exists u, s = "0--" +:+ u /\ spec.drop_leading_zero s = "--" +:+ u.
Proof.
  destruct s as [|c1 [|c2 [|c3 rest]]]; try (left; reflexivity).
  unfold spec.drop_leading_zero.
  destruct (Ascii.eqb_spec c1 "0"); [|left; reflexivity].
  destruct (Ascii.eqb_spec c2 "-"); [|left; reflexivity].
  destruct (Ascii.eqb_spec c3 "-"); [|left; reflexivity].
  subst. right. exists rest. split; reflexivity.
Qed.

(** Step 2 *)
Lemma TrimSuffix_trailing_zero (encoded : string) :
  (if GoStrings.HasSuffix encoded "--0" then GoStrings.TrimSuffix encoded "0"
   else encoded)
  = spec.drop_trailing_zero encoded.
Proof.
  unfold spec.drop_trailing_zero.
  destruct (GoStrings.HasSuffix encoded "--0") eqn:Hsuffix.
  - apply HasSuffix_iff in Hsuffix as [t ->].
    change "--0" with ("--" +:+ "0") at 1.
    rewrite <- append_assoc, TrimSuffix_append.
    rewrite string_rev_append.
    change (spec.string_rev "--0") with "0--".
    change (spec.drop_leading_zero ("0--" +:+ spec.string_rev t))
      with ("--" +:+ spec.string_rev t).
    rewrite string_rev_append, string_rev_involutive. reflexivity.
  - destruct (drop_leading_zero_cases (spec.string_rev encoded))
      as [->|(u & Hu & _)].
    + rewrite string_rev_involutive. reflexivity.
    + assert (GoStrings.HasSuffix encoded "--0" = true) as Htrue.
      { apply HasSuffix_iff. exists (spec.string_rev u).
        rewrite <- (string_rev_involutive encoded), Hu, string_rev_append.
        reflexivity. }
      congruence.
Qed.

(** Step 3 *)
Lemma replace_from_here (old new : string) (c : ascii) (s : string) :
  GoStrings.replace_from old new 0 (String c s)
  = if GoStrings.HasPrefix (String c s) old
    then new +:+ GoStrings.replace_from old new (String.length old - 1) s
    else String c (GoStrings.replace_from old new 0 s).
Proof. reflexivity. Qed.

Lemma replace_from_skip (old new : string) (k : nat) (c : ascii) (s : string) :
  GoStrings.replace_from old new (S k) (String c s)
  = GoStrings.replace_from old new k s.
Proof. reflexivity. Qed.

Lemma colons_for_double_hyphens_cons (a b : ascii) (rest : string) :
  spec.colons_for_double_hyphens (String a (String b rest))
  = if Ascii.eqb a "-" && Ascii.eqb b "-"
    then String ":" (String ":" (spec.colons_for_double_hyphens rest))
    else String a (spec.colons_for_double_hyphens (String b rest)).
Proof. reflexivity. Qed.

Lemma ReplaceAll_double_hyphens (n : nat) :
  forall s : string,
    (String.length s <= n)%nat ->
    GoStrings.ReplaceAll s "--" "::" = spec.colons_for_double_hyphens s.
Proof.
  unfold GoStrings.ReplaceAll.
  induction n as [|n IH]; intros s Hn.
  - destruct s; [reflexivity|simpl in Hn; lia].
  - destruct s as [|a [|b rest]].
    + reflexivity.
    + simpl. destruct (Ascii.eqb a "-"); reflexivity.
    + assert (GoStrings.replace_from "--" "::" 0 rest
              = spec.colons_for_double_hyphens rest) as Hrest.
      { apply IH. simpl in Hn. lia. }
      assert (GoStrings.replace_from "--" "::" 0 (String b rest)
              = spec.colons_for_double_hyphens (String b rest)) as Htail.
      { apply IH. simpl in Hn. simpl. lia. }
      rewrite replace_from_here, colons_for_double_hyphens_cons.
      change (String.length "--" - 1)%nat with 1%nat.
      rewrite replace_from_skip, Hrest, Htail.
      cbn [GoStrings.HasPrefix].
      destruct (Ascii.eqb a "-"), (Ascii.eqb b "-"); reflexivity.
Qed.

(** Step 4 *)
Lemma ReplaceAll_hyphens (s : string) :
  GoStrings.ReplaceAll s "-" ":" = spec.colons_for_hyphens s.
Proof.
  unfold GoStrings.ReplaceAll.
  induction s as [|c s IH]; [reflexivity|].
  cbn [GoStrings.replace_from GoStrings.HasPrefix spec.colons_for_hyphens].
  change (String.length "-" - 1)%nat with 0%nat.
  destruct (Ascii.eqb c "-"); rewrite IH; reflexivity.
Qed.

(** Steps 3 and 4 together put a colon for every hyphen. *)
Lemma colons_for_all_hyphens (n : nat) :
  forall s : string,
    (String.length s <= n)%nat ->
    spec.colons_for_hyphens (spec.colons_for_double_hyphens s)
    = spec.colons_for_hyphens s.
Proof.
  induction n as [|n IH]; intros s Hn.
  - destruct s; [reflexivity|simpl in Hn; lia].
  - destruct s as [|a [|b rest]]; try reflexivity.
    assert (spec.colons_for_hyphens (spec.colons_for_double_hyphens rest)
            = spec.colons_for_hyphens rest) as Hrest.
    { apply IH. simpl in Hn. lia. }
    assert (spec.colons_for_hyphens (spec.colons_for_double_hyphens (String b rest))
            = spec.colons_for_hyphens (String b rest)) as Htail.
    { apply IH. simpl in Hn. simpl. lia. }
    rewrite colons_for_double_hyphens_cons.
    destruct (Ascii.eqb a "-") eqn:Ha, (Ascii.eqb b "-") eqn:Hb; cbn [andb].
    + change (spec.colons_for_hyphens
                (String ":" (String ":" (spec.colons_for_double_hyphens rest))))
        with (String ":" (String ":" (spec.colons_for_hyphens
                                        (spec.colons_for_double_hyphens rest)))).
      rewrite Hrest. cbn [spec.colons_for_hyphens]. rewrite Ha, Hb. reflexivity.
    + change (spec.colons_for_hyphens
                (String a (spec.colons_for_double_hyphens (String b rest))))
        with (String (if Ascii.eqb a "-" then ":"%char else a)
                (spec.colons_for_hyphens
                   (spec.colons_for_double_hyphens (String b rest)))).
      rewrite Htail. reflexivity.
    + change (spec.colons_for_hyphens
                (String a (spec.colons_for_double_hyphens (String b rest))))
        with (String (if Ascii.eqb a "-" then ":"%char else a)
                (spec.colons_for_hyphens
                   (spec.colons_for_double_hyphens (String b rest)))).
      rewrite Htail. reflexivity.
    + change (spec.colons_for_hyphens
                (String a (spec.colons_for_double_hyphens (String b rest))))
        with (String (if Ascii.eqb a "-" then ":"%char else a)
                (spec.colons_for_hyphens
                   (spec.colons_for_double_hyphens (String b rest)))).
      rewrite Htail. reflexivity.
Qed.

(** C7: [decodeIPv6] applies the five steps of the specification in order:
    it drops the leading [0] of a label that begins with [0--], then the
    trailing [0] when the label ends with [--0], puts [::] for every [--],
    then [:] for each remaining [-], and parses the result as an IP address;
    it returns nil when the parser does or when the parsed address is an
    IPv4 address, and the parsed address otherwise.  (After steps 3 and 4
    every hyphen has become a colon.) *)
Theorem decodeIPv6_steps {lib : NetLib} (label : string) :
  decodeIPv6 label
  = match spec.decode_ipv6 label with Some ip => ip | None => [] end
  /\ (forall ip, spec.decode_ipv6 label = Some ip ->
                 ip <> [] /\ net.To4 ip = []
                 /\ ip = ParseIP (spec.colons_for_hyphens
                                    (spec.drop_trailing_zero
                                       (spec.drop_leading_zero label))))
  /\ (spec.decode_ipv6 label = None <-> decodeIPv6 label = []).
Proof.
  assert (decodeIPv6 label
          = match spec.decode_ipv6 label with Some ip => ip | None => [] end)
    as Heq.
  { unfold decodeIPv6, spec.decode_ipv6, spec.parse_ipv6.
    rewrite TrimPrefix_leading_zero, TrimSuffix_trailing_zero.
    rewrite (ReplaceAll_double_hyphens _ _ (Nat.le_refl _)), ReplaceAll_hyphens.
    destruct (ParseIP _) as [|b ip]; [reflexivity|].
    destruct (net.To4 (b :: ip)); reflexivity. }
  split; [exact Heq|]. split.
  - intros ip. unfold spec.decode_ipv6, spec.parse_ipv6.
    rewrite (colons_for_all_hyphens _ _ (Nat.le_refl _)).
    destruct (ParseIP _) as [|b ip'] eqn:Hparse; [discriminate|].
    destruct (net.To4 (b :: ip')) eqn:H4; [|discriminate].
    intros [= <-]. auto.
  - rewrite Heq. unfold spec.decode_ipv6, spec.parse_ipv6.
    destruct (ParseIP _) as [|b ip']; [tauto|].
    destruct (net.To4 (b :: ip')); split; (discriminate || reflexivity).
Qed.

(** ** The dispatcher *)

Lemma longest_key_Some (custom : gmap (list string) backend) (rl : list string)
    (n : nat) (k : list string) :
  Dispatcher.longest_key custom rl n = Some k ->
  exists m,
    (0 < m <= n)%nat /\ k = firstn m rl /\ is_Some (custom !! k)
    /\ forall m', (m < m' <= n)%nat -> custom !! firstn m' rl = None.
Proof.
  induction n as [|n IH]; simpl; [discriminate|].
  destruct (custom !! firstn (S n) rl) as [b|] eqn:Hlookup.
  - intros [= <-]. exists (S n).
    split; [lia|]. split; [reflexivity|]. split.
    + rewrite Hlookup. eauto.
    + intros m' Hm'. lia.
  - intros Hk. destruct (IH Hk) as (m & Hm & -> & Hsome & Hnone).
    exists m.
    split; [lia|]. split; [reflexivity|]. split; [assumption|].
    intros m' Hm'. destruct (decide (m' = S n)) as [->|Hne].
    + exact Hlookup.
    + apply Hnone. lia.
Qed.

Lemma longest_key_None (custom : gmap (list string) backend) (rl : list string)
    (n : nat) :
  Dispatcher.longest_key custom rl n = None ->
  forall m', (0 < m' <= n)%nat -> custom !! firstn m' rl = None.
Proof.
  induction n as [|n IH]; simpl; [intros _ m' Hm'; lia|].
  destruct (custom !! firstn (S n) rl) as [b|] eqn:Hlookup; [discriminate|].
  intros Hk m' Hm'. destruct (decide (m' = S n)) as [->|Hne].
  - exact Hlookup.
  - apply (IH Hk). lia.
Qed.

Lemma suffix_rev_prefix (k ls : list string) :
  rev k `suffix_of` ls <-> k `prefix_of` rev ls.
Proof.
  split.
  - intros [t ->]. exists (rev t). rewrite rev_app_distr, rev_involutive.
    reflexivity.
  - intros [t Ht]. exists (rev t).
    rewrite <- (rev_involutive ls), Ht, rev_app_distr. reflexivity.
Qed.

Lemma prefix_firstn (k rl : list string) :
  k `prefix_of` rl -> k = firstn (length k) rl /\ (length k <= length rl)%nat.
Proof.
  intros [t ->]. rewrite length_app. split; [|lia].
  rewrite firstn_app, Nat.sub_diag, firstn_all. simpl.
  rewrite app_nil_r. reflexivity.
Qed.

(** The default backend is mandatory: without the option that sets it,
    [NewResolver] returns an error. *)
Lemma NewResolver_requires_default (options : list Dispatcher.Option_) :
  Forall (fun o => match o with Dispatcher.WithDefaultResolver _ => False | _ => True end)
         options ->
  is_error (Dispatcher.NewResolver options) = true.
Proof.
  intros Hoptions. unfold Dispatcher.NewResolver.
  assert (forall c, Dispatcher.cfg_def c = None ->
                    Dispatcher.cfg_def (fold_left Dispatcher.apply_option options c)
                    = None) as Hfold.
  { induction Hoptions as [|o options Ho _ IH]; intros c Hc; simpl; [exact Hc|].
    apply IH. destruct o; simpl; [destruct Ho|exact Hc|exact Hc]. }
  rewrite Hfold by reflexivity. reflexivity.
Qed.

(** C8: the dispatcher routes a hostname to the backend of the key whose
    labels are the longest suffix of the labels of the hostname (keys hold
    the labels from right to left, so that the key is the longest one that
    is a prefix of the reversed labels), and to the default backend when no
    key matches; [LookupTXT] is delegated to that backend, and so is
    [LookupIPAddr] unless the offline resolver answers.  With the keys
    [custom.test] and [more.custom.test], [some.more.custom.test] is routed
    to [more.custom.test], [another.custom.test] to [custom.test], and
    [example.com] to the default, as [TestCustomResolver] finds. *)
Theorem dispatcher_routes_longest_suffix {lib : NetLib} {cids : CidLib}
    (r : Dispatcher.t) (h : string) :
  match Dispatcher.route r h with
  | Some k =>
      k <> []
      /\ rev k `suffix_of` Dispatcher.labels h
      /\ (exists b, Dispatcher.custom r !! k = Some b
                    /\ Dispatcher.getResolver r h = b)
      /\ (forall k', is_Some (Dispatcher.custom r !! k') -> k' <> [] ->
                     rev k' `suffix_of` Dispatcher.labels h ->
                     (length k' <= length k)%nat)
  | None =>
      (forall k', is_Some (Dispatcher.custom r !! k') -> k' <> [] ->
                  ~ rev k' `suffix_of` Dispatcher.labels h)
      /\ Dispatcher.getResolver r h = Dispatcher.def r
  end
  /\ Dispatcher.LookupTXT r h = LookupTXT (Dispatcher.getResolver r h) h
  /\ (Dispatcher.offline h = None ->
      Dispatcher.LookupIPAddr r h = LookupIPAddr (Dispatcher.getResolver r h) h)
  /\ (Dispatcher.NewResolver custom_test.options = Ok custom_test.rslv
      /\ Dispatcher.route custom_test.rslv "some.more.custom.test"
         = Some (Dispatcher.key "more.custom.test")
      /\ Dispatcher.route custom_test.rslv "another.custom.test"
         = Some (Dispatcher.key "custom.test")
      /\ Dispatcher.route custom_test.rslv "example.com" = None
      /\ map (Dispatcher.LookupIPAddr custom_test.rslv)
           ["example.com"; "custom.test"; "another.custom.test";
            "more.custom.test"; "some.more.custom.test"]
         = map Ok [[custom_test.ip1]; [custom_test.ip2]; [custom_test.ip3];
                   [custom_test.ip4]; [custom_test.ip5]]).
Proof.
  assert (forall k' : list string,
             rev k' `suffix_of` Dispatcher.labels h ->
             k' `prefix_of` Dispatcher.key h) as Hsuffix.
  { intros k' Hk'. unfold Dispatcher.key. apply suffix_rev_prefix, Hk'. }
  split; [|split; [|split]].
  - unfold Dispatcher.getResolver, Dispatcher.route.
    destruct (Dispatcher.longest_key _ _ _) as [k|] eqn:Hroute.
    + destruct (longest_key_Some _ _ _ _ Hroute) as (m & Hm & Hk & [b Hb] & Hnone).
      assert (length k = m) as Hlen.
      { rewrite Hk, length_firstn. lia. }
      split; [|split; [|split]].
      * intros ->. simpl in Hlen. lia.
      * apply suffix_rev_prefix. unfold Dispatcher.key in Hk. rewrite Hk.
        exists (skipn m (rev (Dispatcher.labels h))).
        symmetry. apply firstn_skipn.
      * exists b. rewrite Hb. auto.
      * intros k' Hsome Hne Hk'.
        apply Hsuffix, prefix_firstn in Hk' as [Hk' Hle].
        destruct (Nat.le_gt_cases (length k') m) as [|Hgt]; [lia|].
        assert (m < length k' <= length (Dispatcher.key h))%nat as Hbounds by lia.
        rewrite Hk', (Hnone (length k') Hbounds) in Hsome.
        destruct Hsome as [? [=]].
    + split; [|reflexivity].
      intros k' Hsome Hne Hk'.
      apply Hsuffix, prefix_firstn in Hk' as [Hk' Hle].
      assert (0 < length k')%nat as Hpos by (destruct k'; [congruence|simpl; lia]).
      rewrite Hk', (longest_key_None _ _ _ Hroute (length k')) in Hsome by lia.
      destruct Hsome as [? [=]].
  - reflexivity.
  - unfold Dispatcher.LookupIPAddr. intros ->. reflexivity.
  - repeat split; vm_compute; reflexivity.
Qed.

(** ** The DNS-over-HTTPS backend *)

Section DOHFacts.

Context {lib : NetLib} {web : WebLib}.

Lemma collect_answers_filter (type_ : Z) (parsed : list Answer) :
  forall answers : list string,
    collect_answers type_ parsed answers
    = answers ++ map Data (List.filter (fun a => Type_ a =? type_) parsed).
Proof.
  induction parsed as [|a parsed IH]; intros answers; simpl.
  - rewrite app_nil_r. reflexivity.
  - destruct (Type_ a =? type_); rewrite IH; simpl.
    + rewrite <- app_assoc. reflexivity.
    + reflexivity.
Qed.

Lemma ip_results_map (records : list string) :
  forall result : list IPAddr,
    ip_results records result
    = result ++ map (fun r => {| IP := ParseIP r; Zone := EmptyString |}) records.
Proof.
  induction records as [|r records IH]; intros result; simpl.
  - rewrite app_nil_r. reflexivity.
  - rewrite IH, <- app_assoc. reflexivity.
Qed.

End DOHFacts.

(** C10: when the HTTP response has status 200 and its body decodes,
    [LookupIPAddr] of the DNS-over-HTTPS resolver returns, with a nil error,
    one entry for every answer of type 1, in order, whose address is
    [net.ParseIP] of the text of the answer, unchecked: an answer whose text
    is no IP address gives an entry with a nil address, and no error. *)
Theorem DOH_LookupIPAddr_unchecked {lib : NetLib} {web : WebLib}
    (r : DOHResolver) (host u : string) (req : http.Request)
    (resp : http.Response) (body : string) (parsed : list Answer) :
  url_with_query (Host r)
    ("name=" +:+ QueryEscape host +:+ "&type=" +:+ GoStrings.Itoa 1) = Ok u ->
  NewRequest "GET" u = Ok req ->
  http.Do (Client r) (http.Header_Add req "Accept" "application/dns-json") = Ok resp ->
  http.StatusCode resp = 200 ->
  http.Body resp = Ok body ->
  json_Unmarshal body = Ok parsed ->
  DOH_LookupIPAddr r host
  = Returns (Ok (map (fun a => {| IP := ParseIP (Data a); Zone := EmptyString |})
                     (List.filter (fun a => Type_ a =? 1) parsed)))
  /\ forall a,
       In a parsed -> Type_ a = 1 -> ParseIP (Data a) = [] ->
       exists l,
         DOH_LookupIPAddr r host = Returns (Ok l)
         /\ In {| IP := []; Zone := EmptyString |} l.
Proof.
  intros Hurl Hreq Hdo Hstatus Hbody Hjson.
  assert (DOH_LookupIPAddr r host
          = Returns (Ok (map (fun a => {| IP := ParseIP (Data a); Zone := EmptyString |})
                             (List.filter (fun a => Type_ a =? 1) parsed))))
    as Hres.
  { unfold DOH_LookupIPAddr, lookup.
    rewrite Hurl, Hreq, Hdo, Hstatus, Hbody, Hjson. cbn [Z.eqb Pos.eqb negb].
    rewrite collect_answers_filter, ip_results_map, !app_nil_l, List.map_map.
    reflexivity. }
  split; [exact Hres|].
  intros a Hin Htype Hnil. eexists. split; [exact Hres|].
  rewrite <- Hnil. apply (in_map (fun a => {| IP := ParseIP (Data a); Zone := EmptyString |})).
  apply filter_In. split; [exact Hin|]. rewrite Htype. reflexivity.
Qed.

(** A response with the answers [192.0.2.1] and [garbage] of type 1. *)
Lemma DOH_LookupIPAddr_unchecked_witness :
  let r := doh_test.resolver in
  let u := "https://dns.google/resolve?name=example.com&type=1" in
  let req := {| http.Method := "GET"; http.URL := u; http.Header := [] |} in
  let resp := {| http.StatusCode := 200; http.Body := Ok doh_test.body |} in
  (url_with_query (Host r)
     ("name=" +:+ QueryEscape "example.com" +:+ "&type=" +:+ GoStrings.Itoa 1) = Ok u
   /\ NewRequest "GET" u = Ok req
   /\ http.Do (Client r) (http.Header_Add req "Accept" "application/dns-json") = Ok resp
   /\ http.StatusCode resp = 200
   /\ http.Body resp = Ok doh_test.body
   /\ json_Unmarshal doh_test.body = Ok doh_test.answers)
  /\ DOH_LookupIPAddr r "example.com"
     = Returns (Ok [ {| IP := GoRef.ParseIP "192.0.2.1"; Zone := EmptyString |};
                     {| IP := []; Zone := EmptyString |} ])
  /\ (DOH_LookupIPAddr r "example.com"
      = Returns (Ok (map (fun a => {| IP := ParseIP (Data a); Zone := EmptyString |})
                         (List.filter (fun a => Type_ a =? 1) doh_test.answers)))
      /\ forall a,
           In a doh_test.answers -> Type_ a = 1 -> ParseIP (Data a) = [] ->
           exists l,
             DOH_LookupIPAddr r "example.com" = Returns (Ok l)
             /\ In {| IP := []; Zone := EmptyString |} l).
Proof.
  intros r u req resp.
  assert (url_with_query (Host r)
            ("name=" +:+ QueryEscape "example.com" +:+ "&type=" +:+ GoStrings.Itoa 1)
          = Ok u) as Hurl by (vm_compute; reflexivity).
  assert (NewRequest "GET" u = Ok req) as Hreq by reflexivity.
  assert (http.Do (Client r) (http.Header_Add req "Accept" "application/dns-json")
          = Ok resp) as Hdo by reflexivity.
  assert (http.StatusCode resp = 200) as Hstatus by reflexivity.
  assert (http.Body resp = Ok doh_test.body) as Hbody by reflexivity.
  assert (json_Unmarshal doh_test.body = Ok doh_test.answers) as Hjson
    by (vm_compute; reflexivity).
  split; [auto 10|]. split; [vm_compute; reflexivity|].
  exact (DOH_LookupIPAddr_unchecked r "example.com" u req resp doh_test.body
           doh_test.answers Hurl Hreq Hdo Hstatus Hbody Hjson).
Defined.

(** With that resolver as backend, as in [DefaultDOHResolver], no lookup
    returns an error and [Resolve] returns one for [/dns6/example.com]. *)
Example Resolve_error_with_DOH_backend :
  is_error (LookupIPAddr doh_test.backend_ "example.com") = false
  /\ Resolve {| Backend := doh_test.backend_ |} [dns6 "example.com"]
     = Returns (Error (ErrorString "failed to parse ip6 addr")).
Proof. split; vm_compute; reflexivity. Qed.

(** ** The scenarios of the test files *)

Example GoRef_ParseIP_examples :
  map GoRef.String_ (map GoRef.ParseIP
    ["192.0.2.1"; "2001:db8::a3"; "::1"; "2001:db8::"; "fe80:0:0:0:0:0:0:1";
     "2001:0db8:85a3:0000:0000:8a2e:0370:7334"; "::"; "1:2:3:4:5:6:7::";
     "10:0:0:1"; "invalid"; "1.2.3"; "01.2.3.4"; "1::2::3"; "<nil>"])
  = ["192.0.2.1"; "2001:db8::a3"; "::1"; "2001:db8::"; "fe80::1";
     "2001:db8:85a3::8a2e:370:7334"; "::"; "1:2:3:4:5:6:7:0";
     "<nil>"; "<nil>"; "<nil>"; "<nil>"; "<nil>"; "<nil>"].
Proof. vm_compute. reflexivity. Qed.

Example GoRef_NewMultiaddr_examples :
  GoRef.NewMultiaddr "/ip4/192.0.2.1/tcp/123/http"
  = Ok [ {| protocol := {| Code := 4; Name := "ip4" |}; Value := "192.0.2.1" |};
         {| protocol := {| Code := 6; Name := "tcp" |}; Value := "123" |};
         {| protocol := {| Code := 480; Name := "http" |}; Value := EmptyString |} ]
  /\ is_error (GoRef.NewMultiaddr "/foobar") = true
  /\ is_error (GoRef.NewMultiaddr "not a dnsaddr") = true
  /\ is_error (GoRef.NewMultiaddr "/ip6/<nil>") = true
  /\ is_error (GoRef.NewMultiaddr EmptyString) = true
  /\ GoRef.Multiaddr_String (GoRef.StringCast "/ip4/192.0.2.1/tcp/123/http")
     = "/ip4/192.0.2.1/tcp/123/http".
Proof. vm_compute. repeat split; reflexivity. Qed.

(** [TestMatches], without the case of [/dns/example.com]. *)
Example TestMatches :
  map (fun s => Matches (GoRef.StringCast s))
      ["/tcp/1234/dns6/example.com"; "/dns4/example.com"; "/dns6/example.com";
       "/dnsaddr/example.com"; "/ip4/192.0.2.1"]
  = [true; true; true; true; false].
Proof. vm_compute. reflexivity. Qed.

(** [TestSimpleIPResolve] without the case of [/dns/example.com],
    [TestResolveMultiple], [TestResolveMultipleAdjacent],
    [TestResolveMultipleSandwitch], [TestSimpleTXTResolve],
    [TestNonResolvable], [TestLongMatch], [TestEmptyResult],
    [TestDnsaddrMatching] and [TestNil]. *)
Example resolve_test_scenarios :
  let resolve := fun s => Resolve resolve_test.makeResolver (GoRef.StringCast s) in
  let cast := map GoRef.StringCast in
  resolve "/dns4/example.com"
  = Returns (Ok [resolve_test.ip4ma; resolve_test.ip4mb])
  /\ resolve "/dns6/example.com"
     = Returns (Ok [resolve_test.ip6ma; resolve_test.ip6mb])
  /\ resolve "/dns4/example.com/quic/dns6/example.com"
     = Returns (Ok (cast ["/ip4/192.0.2.1/quic/ip6/2001:db8::a3";
                          "/ip4/192.0.2.1/quic/ip6/2001:db8::a4";
                          "/ip4/192.0.2.2/quic/ip6/2001:db8::a3";
                          "/ip4/192.0.2.2/quic/ip6/2001:db8::a4"]))
  /\ resolve "/dns4/example.com/dns6/example.com"
     = Returns (Ok (cast ["/ip4/192.0.2.1/ip6/2001:db8::a3";
                          "/ip4/192.0.2.1/ip6/2001:db8::a4";
                          "/ip4/192.0.2.2/ip6/2001:db8::a3";
                          "/ip4/192.0.2.2/ip6/2001:db8::a4"]))
  /\ resolve "/quic/dns4/example.com/dns6/example.com/http"
     = Returns (Ok (cast ["/quic/ip4/192.0.2.1/ip6/2001:db8::a3/http";
                          "/quic/ip4/192.0.2.1/ip6/2001:db8::a4/http";
                          "/quic/ip4/192.0.2.2/ip6/2001:db8::a3/http";
                          "/quic/ip4/192.0.2.2/ip6/2001:db8::a4/http"]))
  /\ resolve "/dnsaddr/example.com"
     = Returns (Ok [resolve_test.ip4ma; resolve_test.ip6ma])
  /\ resolve "/ip4/192.0.2.1" = Returns (Ok [resolve_test.ip4ma])
  /\ resolve "/dnsaddr/example.com/quic/quic/quic/quic" = Returns (Ok [])
  /\ resolve "/dnsaddr/none.com" = Returns (Ok [])
  /\ resolve "/dnsaddr/matching.com/tcp/123/http" = Returns (Ok [resolve_test.txtmc])
  /\ resolve "/dnsaddr/matching.com/tcp/123" = Returns (Ok [resolve_test.txtmd])
  /\ Resolve resolve_test.makeResolver [] = Returns (Ok []).
Proof. vm_compute. repeat split; reflexivity. Qed.

(** The offline scenarios: when the second label is recognized as a peer
    identifier, the address encoded in the first label is the answer,
    whatever the backends are. *)
Example offline_scenarios {cids : CidLib} (r : Dispatcher.t) :
  let peer := "k51qzi5uqu5dj2c294cab64yiq2ri684kc5sr9odfhoo84osl4resldwfy8u5r" in
  isLibp2pPeerID peer = true ->
  Dispatcher.LookupIPAddr r ("192-0-2-1." +:+ peer +:+ ".libp2p.direct")
  = Ok [ {| IP := GoRef.ParseIP "192.0.2.1"; Zone := EmptyString |} ]
  /\ Dispatcher.LookupIPAddr r ("0--1." +:+ peer +:+ ".libp2p.direct")
     = Ok [ {| IP := GoRef.ParseIP "::1"; Zone := EmptyString |} ]
  /\ Dispatcher.LookupIPAddr r ("invalid-ip." +:+ peer +:+ ".libp2p.direct")
     = LookupIPAddr (Dispatcher.getResolver r ("invalid-ip." +:+ peer +:+ ".libp2p.direct"))
         ("invalid-ip." +:+ peer +:+ ".libp2p.direct").
Proof.
  intros peer Hpeer.
  assert (forall label ips,
             resolveP2PForge (label +:+ "." +:+ peer +:+ ".libp2p.direct")
               [label; peer; "libp2p"; "direct"] = Returns (Ok ips) ->
             GoStrings.Split (label +:+ "." +:+ peer +:+ ".libp2p.direct") "."
             = [label; peer; "libp2p"; "direct"] ->
             (String.length (label +:+ "." +:+ peer +:+ ".libp2p.direct")
              <? minP2PForgeDomain)%nat = false ->
             Dispatcher.LookupIPAddr r (label +:+ "." +:+ peer +:+ ".libp2p.direct")
             = Ok ips) as Hoffline.
  { intros label ips Hresolve Hsplit Hlen.
    unfold Dispatcher.LookupIPAddr, Dispatcher.offline, parseP2PForgeDomain.
    rewrite Hlen, Hsplit. cbn [length Nat.ltb Nat.leb]. rewrite Hpeer.
    cbn [negb]. rewrite Hresolve. reflexivity. }
  split; [|split].
  - apply (Hoffline "192-0-2-1"); vm_compute; reflexivity.
  - apply (Hoffline "0--1"); vm_compute; reflexivity.
  - unfold Dispatcher.LookupIPAddr, Dispatcher.offline, parseP2PForgeDomain.
    replace (String.length ("invalid-ip." +:+ peer +:+ ".libp2p.direct")
             <? minP2PForgeDomain)%nat with false by (vm_compute; reflexivity).
    replace (GoStrings.Split ("invalid-ip." +:+ peer +:+ ".libp2p.direct") ".")
      with ["invalid-ip"; peer; "libp2p"; "direct"] by (vm_compute; reflexivity).
    cbn [length Nat.ltb Nat.leb]. rewrite Hpeer. cbn [negb].
    replace (resolveP2PForge ("invalid-ip." +:+ peer +:+ ".libp2p.direct")
               ["invalid-ip"; peer; "libp2p"; "direct"])
      with (Returns (Error (DNSError "invalid IP encoding in p2p-forge domain"
                              ("invalid-ip." +:+ peer +:+ ".libp2p.direct")
                              EmptyString)) : exec (result (list IPAddr)))
      by (vm_compute; reflexivity).
    reflexivity.
Qed.

(** * Further properties of the code *)

(** ** [Matches], [cross], [addrLen] and [offset] *)

Lemma resolvable_iff (c : Component) :
  resolvable c = true
  <-> In (Code (protocol c)) (map Code ResolvableProtocols).
Proof.
  unfold resolvable. rewrite !orb_true_iff, !Z.eqb_eq. simpl.
  split.
  - intros [[H|H]|H]; rewrite H; auto.
  - intros [H|[H|[H|[]]]]; rewrite <- H; auto.
Qed.

Lemma Matches_false_unresolvable (maddr : Multiaddr) :
  Matches maddr = false <-> unresolvable maddr = true.
Proof.
  rewrite Matches_existsb. unfold unresolvable.
  induction maddr as [|c m IH]; simpl; [tauto|].
  destruct (resolvable c); simpl; [split; discriminate|exact IH].
Qed.

(** X1: [Matches] is true exactly when the code of the protocol of some
    component is the code of one of the [ResolvableProtocols]; the walk
    stops at the first such component. *)
Theorem Matches_sound (maddr : Multiaddr) :
  Matches maddr = true
  <-> exists c, In c maddr
                /\ In (Code (protocol c)) (map Code ResolvableProtocols).
Proof.
  rewrite Matches_existsb, existsb_exists.
  split; intros (c & Hin & Hc); exists c; split; try assumption;
    apply resolvable_iff; assumption.
Qed.

(** X2: an address that [Matches] rejects is returned by [Resolve] as the
    only result, unchanged and without an error, whatever the backend. *)
Theorem Resolve_keeps_unmatched {lib : NetLib} (rslv : Resolver)
    (maddr : Multiaddr) :
  maddr <> [] -> Matches maddr = false ->
  Resolve rslv maddr = Returns (Ok [maddr]).
Proof.
  intros Hne Hm. apply Matches_false_unresolvable in Hm. unfold Resolve.
  rewrite (Resolve_loop_unresolvable _ _ _ _ Hm) by lia.
  destruct maddr; [congruence|reflexivity].
Qed.

(** The case of [TestNonResolvable]. *)
Lemma Resolve_keeps_unmatched_witness :
  resolve_test.ip4ma <> []
  /\ Matches resolve_test.ip4ma = false
  /\ Resolve resolve_test.makeResolver resolve_test.ip4ma
     = Returns (Ok [resolve_test.ip4ma]).
Proof.
  assert (resolve_test.ip4ma <> []) as Hne by (vm_compute; discriminate).
  assert (Matches resolve_test.ip4ma = false) as Hm by (vm_compute; reflexivity).
  split; [exact Hne|]. split; [exact Hm|].
  exact (Resolve_keeps_unmatched resolve_test.makeResolver resolve_test.ip4ma Hne Hm).
Defined.

(** X3: [cross a b] has [len(a) * len(b)] elements, the capacity it
    allocates, and the element at index [i * len(b) + j] is
    [a[i].Encapsulate(b[j])]; it is empty when [a] or [b] is. *)
Theorem cross_order (a b : list Multiaddr) :
  length (cross a b) = (length a * length b)%nat
  /\ (forall i j x y,
         nth_error a i = Some x -> nth_error b j = Some y ->
         nth_error (cross a b) (i * length b + j) = Some (ma.Encapsulate x y))
  /\ (a = [] \/ b = [] -> cross a b = []).
Proof.
  split; [apply length_cross|]. split.
  - intros i j x y Hx Hy. rewrite cross_flat_map.
    exact (nth_error_flat_map_pairs (fun x y => x ++ y) a b i j x y Hx Hy).
  - intros [-> | ->]; [reflexivity|].
    rewrite cross_flat_map. apply (flat_map_nil_r (fun x y : Multiaddr => x ++ y)).
Qed.

Lemma offset_negative (maddr : Multiaddr) (k : Z) :
  k < 0 -> offset maddr k = [].
Proof.
  revert k. induction maddr as [|c m IH]; intros k Hk; [reflexivity|].
  cbn [offset]. replace (k =? 0) with false by (symmetry; apply Z.eqb_neq; lia).
  apply IH. lia.
Qed.

(** X4: for [0 <= k < addrLen(maddr)], [offset(maddr, k)] is [maddr] without
    its first [k] components, so that its length is [addrLen(maddr) - k];
    for a negative [k] and from [addrLen(maddr)] on, it is nil. *)
Theorem offset_splits (maddr : Multiaddr) (k : Z) :
  (0 <= k < addrLen maddr ->
   firstn (Z.to_nat k) maddr ++ offset maddr k = maddr
   /\ addrLen (offset maddr k) = addrLen maddr - k
   /\ offset maddr k <> [])
  /\ (k < 0 \/ addrLen maddr <= k -> offset maddr k = []).
Proof.
  rewrite addrLen_length. split.
  - intros Hk. rewrite <- (Z2Nat.id k) at 2 3 5 by lia.
    rewrite offset_skipn, addrLen_length. split; [apply firstn_skipn|]. split.
    + rewrite List.length_skipn. lia.
    + intros H. apply (f_equal (@length Component)) in H.
      rewrite List.length_skipn in H. simpl in H. lia.
  - intros [Hk|Hk]; [apply offset_negative, Hk|].
    rewrite <- (Z2Nat.id k) by lia. rewrite offset_skipn.
    apply skipn_all2. lia.
Qed.

(** ** One resolvable component between components to keep *)

Lemma keep_results_map {lib : NetLib} (xs : list Multiaddr) (t : Multiaddr) :
  xs <> [] -> keep_results xs t = map (fun x => x ++ t) xs.
Proof.
  intros Hxs. unfold keep_results.
  destruct t as [|c t]; cbn [is_nil negb].
  - rewrite <- (map_id xs) at 1. apply map_ext. intros x.
    rewrite app_nil_r. reflexivity.
  - destruct xs; [congruence|reflexivity].
Qed.

Lemma cross_singleton (keep : Multiaddr) (xs : list Multiaddr) :
  cross [keep] xs = map (fun x => keep ++ x) xs.
Proof. rewrite cross_flat_map. simpl. apply app_nil_r. Qed.

(** X5: for an address with one [dns4] component (one [dns6] component)
    between components to keep, [Resolve] returns, for every IPv4 record
    (every other record) of the host in the order of the backend, the
    components before, the address of the record and the components after:
    what precedes and what follows the component is in every result. *)
Theorem Resolve_ip_segment {lib : NetLib} (rslv : Resolver) (v4 : bool)
    (keep : Multiaddr) (host : string) (trailer : Multiaddr)
    (records : list IPAddr) (xs : list Multiaddr) :
  unresolvable keep = true -> unresolvable trailer = true ->
  LookupIPAddr (Backend rslv) host = Ok records ->
  Forall2 (fun a x => (if v4 then ip4_maddr a else ip6_maddr a) = Ok x)
          (List.filter (kept v4) records) xs ->
  Resolve rslv (keep ++ (if v4 then dns4 host else dns6 host) :: trailer)
  = Returns (Ok (map (fun x => keep ++ x ++ trailer) xs)).
Proof.
  intros Hkeep Htrailer Hlookup Hxs. unfold Resolve.
  rewrite Resolve_loop_split by (assumption || (destruct v4; reflexivity) || lia).
  assert (lookup_component rslv (if v4 then dns4 host else dns6 host) trailer
          = Ok xs) as ->.
  { destruct v4.
    - rewrite (lookup_component_dns4 _ _ _ _ Hlookup).
      apply (resolve_ip_records_ok true records xs [] Hxs).
    - rewrite (lookup_component_dns6 _ _ _ _ Hlookup).
      apply (resolve_ip_records_ok false records xs [] Hxs). }
  destruct xs as [|x xs]; [reflexivity|].
  replace (is_ip_dns (if v4 then dns4 host else dns6 host)) with true
    by (destruct v4; reflexivity).
  rewrite (Resolve_loop_unresolvable _ _ _ _ Htrailer) by lia.
  do 2 f_equal. unfold keep_results at 2 3.
  destruct keep as [|k keep]; cbn [is_nil negb app].
  - rewrite keep_results_map by discriminate. reflexivity.
  - rewrite cross_singleton, keep_results_map by discriminate.
    rewrite List.map_map. apply map_ext. intros y.
    rewrite <- app_assoc. reflexivity.
Qed.

(** [/quic/dns6/example.com/http] with the resolver of the tests. *)
Lemma Resolve_ip_segment_witness :
  let keep := GoRef.StringCast "/quic" in
  let trailer := GoRef.StringCast "/http" in
  let records := [resolve_test.ip4a; resolve_test.ip4b;
                  resolve_test.ip6a; resolve_test.ip6b] in
  let ys := [resolve_test.ip6ma; resolve_test.ip6mb] in
  (unresolvable keep = true /\ unresolvable trailer = true
   /\ LookupIPAddr (Backend resolve_test.makeResolver) "example.com" = Ok records
   /\ Forall2 (fun a y => ip6_maddr a = Ok y) (List.filter (kept false) records) ys)
  /\ Resolve resolve_test.makeResolver (keep ++ dns6 "example.com" :: trailer)
     = Returns (Ok (map (fun y => keep ++ y ++ trailer) ys)).
Proof.
  intros keep trailer records ys.
  assert (unresolvable keep = true) as Hkeep by reflexivity.
  assert (unresolvable trailer = true) as Htrailer by reflexivity.
  assert (LookupIPAddr (Backend resolve_test.makeResolver) "example.com" = Ok records)
    as Hlookup by (vm_compute; reflexivity).
  assert (Forall2 (fun a y => ip6_maddr a = Ok y) (List.filter (kept false) records) ys)
    as Hys.
  { replace (List.filter (kept false) records)
      with [resolve_test.ip6a; resolve_test.ip6b] by (vm_compute; reflexivity).
    repeat constructor; vm_compute; reflexivity. }
  split; [auto|].
  exact (Resolve_ip_segment resolve_test.makeResolver false keep "example.com"
           trailer records ys Hkeep Htrailer Hlookup Hys).
Defined.

(** X6: with a [MockBackend], a name that is not in the map is no error:
    when the first resolvable component of an address names a host without
    an entry, [Resolve] returns the nil result and no error, whatever
    follows the component. *)
Theorem Resolve_mock_missing {lib : NetLib} (mock : MockBackend.t)
    (keep : Multiaddr) (c : Component) (rest : Multiaddr) :
  unresolvable keep = true -> resolvable c = true ->
  (is_ip_dns c = true -> MockBackend.IP mock !! Value c = None) ->
  (is_dnsaddr c = true ->
   MockBackend.TXT mock !! ("_dnsaddr." +:+ Value c) = None) ->
  Resolve {| Backend := MockBackend.as_backend mock |} (keep ++ c :: rest)
  = Returns (Ok []).
Proof.
  intros Hkeep Hc Hip Htxt. unfold Resolve.
  rewrite Resolve_loop_split by (assumption || lia).
  unfold lookup_component. rewrite resolvable_cases in Hc.
  destruct (is_ip_dns c) eqn:Hipc.
  - cbn [Backend LookupIPAddr MockBackend.as_backend].
    unfold MockBackend.LookupIPAddr. rewrite (Hip eq_refl). reflexivity.
  - simpl in Hc. cbn [Backend LookupTXT MockBackend.as_backend].
    unfold MockBackend.LookupTXT. rewrite (Htxt Hc). reflexivity.
Qed.

(** The case of [TestEmptyResult]: [/dnsaddr/none.com]. *)
Lemma Resolve_mock_missing_witness :
  (unresolvable [] = true
   /\ resolvable (dnsaddr "none.com") = true
   /\ (is_ip_dns (dnsaddr "none.com") = true ->
       MockBackend.IP resolve_test.mock !! Value (dnsaddr "none.com") = None)
   /\ (is_dnsaddr (dnsaddr "none.com") = true ->
       MockBackend.TXT resolve_test.mock
         !! ("_dnsaddr." +:+ Value (dnsaddr "none.com")) = None))
  /\ Resolve {| Backend := MockBackend.as_backend resolve_test.mock |}
       ([] ++ dnsaddr "none.com" :: [])
     = Returns (Ok []).
Proof.
  assert (is_ip_dns (dnsaddr "none.com") = true ->
          MockBackend.IP resolve_test.mock !! Value (dnsaddr "none.com") = None)
    as Hip by (intros _; vm_compute; reflexivity).
  assert (is_dnsaddr (dnsaddr "none.com") = true ->
          MockBackend.TXT resolve_test.mock
            !! ("_dnsaddr." +:+ Value (dnsaddr "none.com")) = None)
    as Htxt by (intros _; vm_compute; reflexivity).
  split; [repeat split; (reflexivity || assumption)|].
  exact (Resolve_mock_missing resolve_test.mock [] (dnsaddr "none.com") []
           eq_refl eq_refl Hip Htxt).
Defined.

(** ** A [dnsaddr] component that nothing follows *)

Lemma dnsaddr_record_nil {lib : NetLib} (len : Z) (txt : string) :
  dnsaddr_record [] len txt = spec_accept [] txt.
Proof.
  unfold dnsaddr_record, spec_accept, dnsaddrTXTPrefix.
  rewrite strip_prefix_HasPrefix.
  destruct (GoStrings.HasPrefix txt "dnsaddr="); [|reflexivity].
  cbn [negb is_nil]. destruct (NewMultiaddr _) as [R|e]; [|reflexivity].
  unfold last_components. cbn [length Nat.leb andb].
  rewrite Nat.sub_0_r, skipn_all.
  rewrite bool_decide_eq_true_2 by reflexivity. reflexivity.
Qed.

(** X7: for an address that ends with its first resolvable component, a
    [dnsaddr] component, [Resolve] returns one result for every TXT record
    that carries the prefix [dnsaddr=] and whose rest parses as a
    multiaddress, in the order of the records: the parsed multiaddress behind
    the components to keep.  The other records are skipped without an
    error. *)
Theorem Resolve_dnsaddr_no_trailer {lib : NetLib} (rslv : Resolver)
    (keep : Multiaddr) (host : string) (records : list string) :
  unresolvable keep = true ->
  LookupTXT (Backend rslv) ("_dnsaddr." +:+ host) = Ok records ->
  Resolve rslv (keep ++ [dnsaddr host])
  = Returns (Ok (map (fun R => keep ++ R) (accepted [] records)))
  /\ forall R,
       In R (accepted [] records)
       <-> exists txt,
             In txt records
             /\ GoStrings.HasPrefix txt "dnsaddr=" = true
             /\ NewMultiaddr (GoStrings.slice_from 8 txt) = Ok R.
Proof.
  intros Hkeep Hlookup. split.
  - unfold Resolve.
    rewrite Resolve_loop_split by (assumption || reflexivity || lia).
    rewrite (lookup_component_dnsaddr _ _ _ _ Hlookup). cbn [is_nil negb].
    rewrite resolve_txt_records_omap, app_nil_l.
    assert (omap (dnsaddr_record [] 0) records = accepted [] records) as ->.
    { clear Hlookup. unfold accepted.
      induction records as [|txt records IH]; [reflexivity|].
      csimpl. rewrite dnsaddr_record_nil, IH. reflexivity. }
    destruct (accepted [] records) as [|R Rs]; [reflexivity|].
    change (is_ip_dns (dnsaddr host)) with false. rewrite Resolve_loop_nil.
    unfold keep_results. destruct keep as [|k keep]; cbn [is_nil negb app].
    + rewrite map_id. reflexivity.
    + rewrite cross_singleton. reflexivity.
  - intros R. rewrite accepted_iff. split.
    + intros (txt & Hin & Hprefix & Hparse & _). eauto.
    + intros (txt & Hin & Hprefix & Hparse). exists txt.
      repeat split; try assumption; [simpl; lia|].
      rewrite Nat.sub_0_r. apply skipn_all.
Qed.

(** The case of [TestSimpleTXTResolve]: [/dnsaddr/example.com]. *)
Lemma Resolve_dnsaddr_no_trailer_witness :
  let records := [resolve_test.txta; resolve_test.txtb] in
  (unresolvable [] = true
   /\ LookupTXT (Backend resolve_test.makeResolver) ("_dnsaddr." +:+ "example.com")
      = Ok records)
  /\ accepted [] records = [resolve_test.ip4ma; resolve_test.ip6ma]
  /\ (Resolve resolve_test.makeResolver ([] ++ [dnsaddr "example.com"])
      = Returns (Ok (map (fun R => [] ++ R) (accepted [] records)))
      /\ forall R,
           In R (accepted [] records)
           <-> exists txt,
                 In txt records
                 /\ GoStrings.HasPrefix txt "dnsaddr=" = true
                 /\ NewMultiaddr (GoStrings.slice_from 8 txt) = Ok R).
Proof.
  intros records.
  assert (LookupTXT (Backend resolve_test.makeResolver) ("_dnsaddr." +:+ "example.com")
          = Ok records) as Hlookup by (vm_compute; reflexivity).
  split; [split; [reflexivity|exact Hlookup]|].
  split; [vm_compute; reflexivity|].
  exact (Resolve_dnsaddr_no_trailer resolve_test.makeResolver [] "example.com"
           records eq_refl Hlookup).
Defined.

(** ** The number of results *)

Section Product.

Context {lib : NetLib}.
Variable rslv : Resolver.

Lemma expansion_unresolvable (keep m : Multiaddr) :
  unresolvable keep = true ->
  expansion rslv (keep ++ m) = expansion rslv m.
Proof.
  intros Hkeep. induction keep as [|k keep IH]; [reflexivity|].
  simpl in Hkeep. apply andb_true_iff in Hkeep as [Hk Hkeep].
  apply negb_true_iff in Hk. simpl. rewrite Hk. apply IH, Hkeep.
Qed.

Lemma result_count_keep (results : list Multiaddr) (keep : Multiaddr) :
  result_count (keep_results results keep) = result_count results.
Proof.
  unfold keep_results, result_count.
  destruct keep; cbn [is_nil negb]; [reflexivity|].
  destruct results; cbn [is_nil]; [reflexivity|].
  rewrite length_map. reflexivity.
Qed.

Lemma result_count_next (kr resolved : list Multiaddr) :
  resolved <> [] ->
  length (if is_nil kr then resolved else cross kr resolved)
  = (result_count kr * length resolved)%nat
  /\ (if is_nil kr then resolved else cross kr resolved) <> [].
Proof.
  intros Hres. unfold result_count. destruct kr as [|k kr]; cbn [is_nil].
  - split; [simpl; lia|exact Hres].
  - rewrite length_cross. split; [simpl; lia|].
    intros H. apply (f_equal (@length Multiaddr)) in H.
    rewrite length_cross in H. destruct resolved; [congruence|]. simpl in H. lia.
Qed.

Lemma Resolve_loop_count (n : nat) :
  forall (m : Multiaddr) (fuel : nat) (results : list Multiaddr),
    (length m <= n)%nat -> (length m <= fuel)%nat ->
    ip_resolvable rslv m -> m <> [] \/ results <> [] ->
    exists out,
      Resolve_loop rslv fuel results m = Returns (Ok out)
      /\ length out = (result_count results * expansion rslv m)%nat.
Proof.
  induction n as [|n IH]; intros m fuel results Hn Hfuel Hm Hne.
  - destruct m; [|simpl in Hn; lia]. destruct Hne as [Hne|Hne]; [congruence|].
    rewrite Resolve_loop_nil. exists results. split; [reflexivity|].
    unfold result_count. destruct results; [congruence|]. simpl. lia.
  - destruct (first_resolvable m) as [Hun|(keep & c & rest & -> & Hkeep & Hc)].
    + rewrite (Resolve_loop_unresolvable _ _ _ _ Hun Hfuel).
      exists (keep_results results m). split; [reflexivity|].
      rewrite <- (app_nil_r m) at 2. rewrite (expansion_unresolvable _ _ Hun).
      simpl. rewrite Nat.mul_1_r, <- (result_count_keep results m).
      unfold result_count.
      assert (keep_results results m <> []) as Hkr.
      { unfold keep_results. destruct m as [|c m]; cbn [is_nil negb].
        - destruct Hne; congruence.
        - destruct results; cbn [is_nil]; discriminate. }
      destruct (keep_results results m); [congruence|]. simpl. lia.
    + rewrite (Resolve_loop_split _ _ _ _ _ _ Hkeep Hc Hfuel).
      rewrite (expansion_unresolvable _ _ Hkeep). cbn [expansion]. rewrite Hc.
      unfold ip_resolvable in Hm. rewrite Forall_app, Forall_cons_iff in Hm.
      destruct Hm as (_ & Hcok & Hrest). destruct (Hcok Hc) as [Hip Hok].
      rewrite (lookup_component_ip_rest rslv c rest Hip). unfold resolved_count.
      destruct (lookup_component rslv c []) as [resolved|e]; [|discriminate].
      destruct resolved as [|x xs].
      * exists []. split; [reflexivity|]. simpl. lia.
      * rewrite Hip.
        destruct (result_count_next (keep_results results keep) (x :: xs))
          as [Hlen Hnonempty]; [discriminate|].
        destruct (IH rest (length rest)
                    (if is_nil (keep_results results keep) then x :: xs
                     else cross (keep_results results keep) (x :: xs)))
          as (out & Hout & Hlenout); try lia; auto.
        { rewrite length_app in Hn. simpl in Hn. lia. }
        exists out. split; [exact Hout|].
        rewrite Hlenout. unfold result_count at 1.
        destruct (if is_nil (keep_results results keep) then x :: xs
                  else cross (keep_results results keep) (x :: xs))
          as [|y ys] eqn:Hnext; [congruence|].
        rewrite Nat.max_r by (simpl; lia).
        rewrite Hlen, result_count_keep. lia.
Qed.

End Product.

(** X8: for a non-nil address whose resolvable components are [dns4] and
    [dns6] components for which neither the lookup nor a record fails,
    [Resolve] returns as many addresses as the product, over these
    components, of the number of addresses resolved for each; one address
    when there is no such component, none when a component resolves to
    nothing. *)
Theorem Resolve_count {lib : NetLib} (rslv : Resolver) (maddr : Multiaddr) :
  maddr <> [] -> ip_resolvable rslv maddr ->
  exists out,
    Resolve rslv maddr = Returns (Ok out)
    /\ length out = expansion rslv maddr.
Proof.
  intros Hne Hm.
  destruct (Resolve_loop_count rslv (length maddr) maddr (length maddr) [])
    as (out & Hout & Hlen); auto.
  exists out. split; [exact Hout|]. rewrite Hlen. unfold result_count. simpl. lia.
Qed.

(** Three segments with two addresses each: eight results. *)
Lemma Resolve_count_witness :
  let maddr :=
    GoRef.StringCast "/dns4/example.com/quic/dns6/example.com/dns4/example.com" in
  (maddr <> [] /\ ip_resolvable resolve_test.makeResolver maddr)
  /\ expansion resolve_test.makeResolver maddr = 8%nat
  /\ exists out,
       Resolve resolve_test.makeResolver maddr = Returns (Ok out)
       /\ length out = expansion resolve_test.makeResolver maddr.
Proof.
  intros maddr.
  assert (maddr <> []) as Hne by (vm_compute; discriminate).
  assert (ip_resolvable resolve_test.makeResolver maddr) as Hm.
  { unfold ip_resolvable.
    let m := eval vm_compute in maddr in change maddr with m.
    repeat apply List.Forall_cons; try apply List.Forall_nil; intros H;
      try (vm_compute in H; discriminate); split; vm_compute; reflexivity. }
  split; [auto|]. split; [vm_compute; reflexivity|].
  exact (Resolve_count resolve_test.makeResolver maddr Hne Hm).
Defined.

(** ** Components before and after the part that is resolved *)

Lemma with_results_id (r : exec (result (list Multiaddr))) :
  with_results (map (fun x : Multiaddr => [] ++ x)) r = r.
Proof.
  destruct r as [[out|e]|msg|]; simpl; try reflexivity.
  rewrite map_id. reflexivity.
Qed.

Lemma unresolvable_app (a b : Multiaddr) :
  unresolvable (a ++ b) = unresolvable a && unresolvable b.
Proof. apply forallb_app. Qed.

Lemma is_nil_map {A B : Type} (f : A -> B) (l : list A) :
  is_nil (map f l) = is_nil l.
Proof. destruct l; reflexivity. Qed.

Lemma cross_map_prefix (p : Multiaddr) (a b : list Multiaddr) :
  cross (map (fun x => p ++ x) a) b = map (fun x => p ++ x) (cross a b).
Proof.
  rewrite !cross_flat_map. induction a as [|x a IH]; simpl; [reflexivity|].
  rewrite map_app, IH, map_map. f_equal. apply map_ext. intros y.
  rewrite app_assoc. reflexivity.
Qed.

Section Laws.

Context {lib : NetLib}.
Variable rslv : Resolver.

Lemma keep_results_prefix (p : Multiaddr) (rs : list Multiaddr) (keep : Multiaddr) :
  rs <> [] ->
  keep_results (map (fun x => p ++ x) rs) keep
  = map (fun x => p ++ x) (keep_results rs keep).
Proof.
  intros Hrs. rewrite !keep_results_map; [|exact Hrs|destruct rs; [congruence|discriminate]].
  rewrite !map_map. apply map_ext. intros x. rewrite app_assoc. reflexivity.
Qed.

Lemma keep_results_nonempty_r (rs : list Multiaddr) (keep : Multiaddr) :
  rs <> [] -> keep_results rs keep <> [].
Proof.
  intros Hrs. rewrite keep_results_map by exact Hrs.
  destruct rs; [congruence|discriminate].
Qed.

Lemma Resolve_loop_prefix (p : Multiaddr) (n : nat) :
  forall (m : Multiaddr) (fuel fuel' : nat) (rs : list Multiaddr),
    (length m <= n)%nat -> (length m <= fuel)%nat -> (length m <= fuel')%nat ->
    rs <> [] ->
    Resolve_loop rslv fuel (map (fun x => p ++ x) rs) m
    = with_results (map (fun x => p ++ x)) (Resolve_loop rslv fuel' rs m).
Proof.
  induction n as [|n IH]; intros m fuel fuel' rs Hn Hfuel Hfuel' Hrs.
  - destruct m; [|simpl in Hn; lia]. rewrite !Resolve_loop_nil. reflexivity.
  - destruct (first_resolvable m) as [Hun|(keep & c & rest & -> & Hkeep & Hc)].
    + rewrite !(Resolve_loop_unresolvable _ _ _ _ Hun) by assumption.
      simpl. rewrite keep_results_prefix by exact Hrs. reflexivity.
    + rewrite !(Resolve_loop_split _ _ _ _ _ _ Hkeep Hc) by assumption.
      destruct (lookup_component rslv c rest) as [[|x xs]|e]; try reflexivity.
      rewrite keep_results_prefix by exact Hrs.
      pose proof (keep_results_nonempty_r rs keep Hrs) as Hkr.
      rewrite is_nil_map, cross_map_prefix.
      destruct (keep_results rs keep) as [|k kr]; [congruence|]. cbn [is_nil].
      rewrite length_app in Hn. simpl in Hn.
      apply IH; try (destruct (is_ip_dns c); simpl; lia).
      intros H. apply (f_equal (@length Multiaddr)) in H.
      rewrite length_cross in H. simpl in H. lia.
Qed.

Lemma Resolve_loop_trailer (t : Multiaddr) (n : nat) :
  unresolvable t = true ->
  forall (m : Multiaddr) (fuel fuel' : nat) (rs : list Multiaddr),
    (length m <= n)%nat -> (length (m ++ t) <= fuel)%nat ->
    (length m <= fuel')%nat ->
    m <> [] \/ rs <> [] ->
    Forall (fun c => is_dnsaddr c = false) m ->
    Resolve_loop rslv fuel rs (m ++ t)
    = with_results (map (fun x => x ++ t)) (Resolve_loop rslv fuel' rs m).
Proof.
  intros Ht. induction n as [|n IH]; intros m fuel fuel' rs Hn Hfuel Hfuel' Hne Hm.
  - destruct m; [|simpl in Hn; lia]. destruct Hne as [Hne|Hne]; [congruence|].
    simpl app. rewrite Resolve_loop_nil.
    rewrite (Resolve_loop_unresolvable _ _ _ _ Ht) by exact Hfuel.
    simpl. rewrite keep_results_map by exact Hne. reflexivity.
  - destruct (first_resolvable m) as [Hun|(keep & c & rest & -> & Hkeep & Hc)].
    + assert (unresolvable (m ++ t) = true) as Hall
        by (rewrite unresolvable_app, Hun, Ht; reflexivity).
      rewrite (Resolve_loop_unresolvable _ _ _ _ Hall) by exact Hfuel.
      rewrite (Resolve_loop_unresolvable _ _ _ _ Hun) by exact Hfuel'.
      simpl. f_equal. f_equal. destruct rs as [|r rs].
      * unfold keep_results. destruct m as [|c m]; [destruct Hne; congruence|].
        reflexivity.
      * rewrite !keep_results_map by discriminate. rewrite map_map.
        apply map_ext. intros x. rewrite app_assoc. reflexivity.
    + rewrite Forall_app, Forall_cons_iff in Hm. destruct Hm as (_ & Hcd & Hrest).
      assert (is_ip_dns c = true) as Hip.
      { rewrite resolvable_cases, Hcd, orb_false_r in Hc. exact Hc. }
      rewrite <- app_assoc in *. rewrite <- app_comm_cons in *.
      rewrite (Resolve_loop_split _ _ _ _ _ _ Hkeep Hc) by exact Hfuel.
      rewrite (Resolve_loop_split _ _ _ _ _ _ Hkeep Hc) by exact Hfuel'.
      rewrite (lookup_component_ip_rest rslv c (rest ++ t) Hip),
        (lookup_component_ip_rest rslv c rest Hip), Hip.
      destruct (lookup_component rslv c []) as [[|x xs]|e]; try reflexivity.
      rewrite !length_app in *. simpl in *.
      apply IH; try lia; [rewrite length_app; lia| |exact Hrest].
      right. apply (result_count_next (keep_results rs keep) (x :: xs)).
      discriminate.
Qed.

End Laws.

(** X9: components that are not resolvable in front of a non-nil address
    change nothing but the results: [Resolve] makes the lookups of the
    address, returns its error if it has one, and otherwise its results
    with these components in front of each. *)
Theorem Resolve_prefix {lib : NetLib} (rslv : Resolver) (p maddr : Multiaddr) :
  unresolvable p = true -> maddr <> [] ->
  Resolve rslv (p ++ maddr)
  = with_results (map (fun x => p ++ x)) (Resolve rslv maddr).
Proof.
  intros Hp Hne. destruct p as [|c0 p0].
  { simpl app at 1. symmetry. apply with_results_id. }
  set (p := c0 :: p0) in *. unfold Resolve.
  destruct (first_resolvable maddr) as [Hun|(keep & c & rest & -> & Hkeep & Hc)].
  - assert (unresolvable (p ++ maddr) = true) as Hall
      by (rewrite unresolvable_app, Hp, Hun; reflexivity).
    rewrite (Resolve_loop_unresolvable _ _ _ _ Hall) by lia.
    rewrite (Resolve_loop_unresolvable _ _ _ _ Hun) by lia.
    destruct maddr; [congruence|]. reflexivity.
  - assert (unresolvable (p ++ keep) = true) as Hpk
      by (rewrite unresolvable_app, Hp, Hkeep; reflexivity).
    rewrite app_assoc.
    rewrite (Resolve_loop_split _ _ _ _ _ _ Hpk Hc) by lia.
    rewrite (Resolve_loop_split _ _ _ _ _ _ Hkeep Hc) by lia.
    destruct (lookup_component rslv c rest) as [[|x xs]|e]; try reflexivity.
    assert (keep_results [] (p ++ keep) = [p ++ keep]) as -> by reflexivity.
    cbn [is_nil]. rewrite cross_singleton.
    destruct keep as [|k keep].
    + assert (keep_results [] [] = []) as -> by reflexivity. cbn [is_nil].
      rewrite app_nil_r.
      apply (Resolve_loop_prefix rslv p (length rest));
          try (destruct (is_ip_dns c); simpl; lia). discriminate.
    + assert (keep_results [] (k :: keep) = [k :: keep]) as -> by reflexivity.
      cbn [is_nil]. rewrite cross_singleton.
      rewrite (map_ext (fun y => (p ++ k :: keep) ++ y)
                 (fun y => p ++ ((k :: keep) ++ y)))
        by (intros y; symmetry; apply app_assoc).
      rewrite <- (map_map (fun y => (k :: keep) ++ y) (fun y => p ++ y)).
      apply (Resolve_loop_prefix rslv p (length rest));
        try (destruct (is_ip_dns c); simpl; lia). discriminate.
Qed.

(** The address of the test of matching records behind [/quic]. *)
Lemma Resolve_prefix_witness :
  let p := GoRef.StringCast "/quic" in
  let maddr := GoRef.StringCast "/dnsaddr/matching.com/tcp/123" in
  (unresolvable p = true /\ maddr <> [])
  /\ Resolve resolve_test.makeResolver (p ++ maddr)
     = with_results (map (fun x => p ++ x))
         (Resolve resolve_test.makeResolver maddr)
  /\ Resolve resolve_test.makeResolver (p ++ maddr)
     = Returns (Ok [p ++ resolve_test.txtmd]).
Proof.
  intros p maddr.
  assert (unresolvable p = true) as Hp by (vm_compute; reflexivity).
  assert (maddr <> []) as Hne by (vm_compute; discriminate).
  split; [auto|]. split.
  - exact (Resolve_prefix resolve_test.makeResolver p maddr Hp Hne).
  - vm_compute. reflexivity.
Defined.

(** X10: components that are not resolvable behind a non-nil address
    without [dnsaddr] component change nothing but the results: [Resolve]
    makes the lookups of the address, returns its error if it has one, and
    otherwise its results with these components behind each. *)
Theorem Resolve_trailer {lib : NetLib} (rslv : Resolver) (maddr t : Multiaddr) :
  maddr <> [] -> Forall (fun c => is_dnsaddr c = false) maddr ->
  unresolvable t = true ->
  Resolve rslv (maddr ++ t)
  = with_results (map (fun x => x ++ t)) (Resolve rslv maddr).
Proof.
  intros Hne Hm Ht. unfold Resolve.
  apply (Resolve_loop_trailer rslv t (length maddr) Ht); auto.
Qed.

(** [/dns4/example.com/dns6/example.com] followed by [/tcp/123/http]. *)
Lemma Resolve_trailer_witness :
  let maddr := [dns4 "example.com"; dns6 "example.com"] in
  let t := GoRef.StringCast "/tcp/123/http" in
  (maddr <> [] /\ Forall (fun c => is_dnsaddr c = false) maddr
   /\ unresolvable t = true)
  /\ Resolve resolve_test.makeResolver (maddr ++ t)
     = with_results (map (fun x => x ++ t))
         (Resolve resolve_test.makeResolver maddr).
Proof.
  intros maddr t.
  assert (maddr <> []) as Hne by discriminate.
  assert (Forall (fun c => is_dnsaddr c = false) maddr) as Hm
    by (repeat apply List.Forall_cons; try apply List.Forall_nil; reflexivity).
  assert (unresolvable t = true) as Ht by (vm_compute; reflexivity).
  split; [auto|].
  exact (Resolve_trailer resolve_test.makeResolver maddr t Hne Hm Ht).
Defined.

(** ** The offline resolver: domains and address families *)

Lemma Split_nonempty (s : string) (sep : ascii) : GoStrings.Split s sep <> [].
Proof.
  destruct s as [|c s]; simpl; [discriminate|].
  destruct (Ascii.eqb c sep); [discriminate|].
  destruct (GoStrings.Split s sep); discriminate.
Qed.

(** Joining the fields with the separator gives the text back. *)
Lemma Split_concat (s : string) (sep : ascii) :
  String.concat (String sep EmptyString) (GoStrings.Split s sep) = s.
Proof.
  induction s as [|c s IH]; [reflexivity|].
  pose proof (Split_nonempty s sep) as Hne. simpl GoStrings.Split.
  destruct (Ascii.eqb c sep) eqn:Hc.
  - apply Ascii.eqb_eq in Hc. subst c.
    destruct (GoStrings.Split s sep) as [|f fs]; [congruence|].
    change (String sep (String.concat (String sep EmptyString) (f :: fs)) = String sep s).
    rewrite IH. reflexivity.
  - destruct (GoStrings.Split s sep) as [|f fs]; [congruence|].
    rewrite <- IH. destruct fs; reflexivity.
Qed.

(** No field has the separator. *)
Lemma Split_without_sep (s : string) (sep : ascii) :
  Forall (without_byte sep) (GoStrings.Split s sep).
Proof.
  induction s as [|c s IH]; simpl.
  - repeat constructor. intros [].
  - destruct (Ascii.eqb c sep) eqn:Hc.
    + constructor; [intros []|exact IH].
    + pose proof (Split_nonempty s sep) as Hne.
      destruct (GoStrings.Split s sep) as [|f fs]; [congruence|].
      apply Forall_cons_iff in IH as [Hf Hfs]. constructor; [|exact Hfs].
      intros [Heq|Hin]; [|exact (Hf Hin)].
      subst c. rewrite Ascii.eqb_refl in Hc. discriminate.
Qed.

Section StaticFacts.

Context {lib : NetLib} {cids : CidLib}.

Lemma isLibp2pPeerID_iff (s : string) :
  isLibp2pPeerID s = true
  <-> (minLibp2pPeerIDLength <= String.length s)%nat
      /\ cid_Decode_Type s = Ok Libp2pKey.
Proof.
  unfold isLibp2pPeerID.
  destruct (String.length s <? minLibp2pPeerIDLength)%nat eqn:Hlen.
  - apply Nat.ltb_lt in Hlen. split; [discriminate|]. intros [H _]. lia.
  - apply Nat.ltb_ge in Hlen.
    destruct (cid_Decode_Type s) as [type|e].
    + rewrite Z.eqb_eq. split.
      * intros ->. auto.
      * intros [_ H]. congruence.
    + split; [discriminate|]. intros [_ H]. discriminate.
Qed.

Lemma parseP2PForgeDomain_Some (domain : string) (parts : list string) :
  parseP2PForgeDomain domain = Some parts
  <-> (minP2PForgeDomain <= String.length domain)%nat
      /\ parts = GoStrings.Split domain "."
      /\ exists label peerID suffix,
           parts = label :: peerID :: suffix /\ suffix <> []
           /\ isLibp2pPeerID peerID = true.
Proof.
  unfold parseP2PForgeDomain.
  destruct (String.length domain <? minP2PForgeDomain)%nat eqn:Hlen.
  { apply Nat.ltb_lt in Hlen. split; [discriminate|]. intros [H _]. lia. }
  apply Nat.ltb_ge in Hlen.
  destruct (GoStrings.Split domain ".") as [|label [|peerID [|s suffix]]] eqn:Hsplit;
    cbn [length Nat.ltb Nat.leb].
  - split; [discriminate|]. intros (_ & -> & l & q & x & H & _). discriminate.
  - split; [discriminate|]. intros (_ & -> & l & q & x & H & _). discriminate.
  - split; [discriminate|].
    intros (_ & -> & l & q & x & H & Hx & _). injection H as _ _ <-. congruence.
  - destruct (isLibp2pPeerID peerID) eqn:Hpeer; cbn [negb].
    + split.
      * intros H. injection H as <-. split; [exact Hlen|]. split; [reflexivity|].
        exists label, peerID, (s :: suffix). split; [reflexivity|].
        split; [discriminate|exact Hpeer].
      * intros (_ & -> & _). reflexivity.
    + split; [discriminate|].
      intros (_ & -> & l & q & x & H & _ & Hq). injection H as _ <- _.
      congruence.
Qed.

End StaticFacts.

(** X11: [parseP2PForgeDomain] returns labels exactly for a domain of at
    least 52 bytes that has at least three labels between its dots and whose
    second label is at least 42 bytes long and decodes as a CID of the codec
    [libp2p-key]; the labels are then those of the domain, in order.  The
    first label and the labels of the suffix are not looked at. *)
Theorem parseP2PForgeDomain_accepts {lib : NetLib} {cids : CidLib}
    (domain : string) (parts : list string) :
  parseP2PForgeDomain domain = Some parts
  <-> (52 <= String.length domain)%nat
      /\ parts = GoStrings.Split domain "."
      /\ exists label peerID suffix,
           parts = label :: peerID :: suffix /\ suffix <> []
           /\ (42 <= String.length peerID)%nat
           /\ cid_Decode_Type peerID = Ok Libp2pKey.
Proof.
  rewrite parseP2PForgeDomain_Some.
  change minP2PForgeDomain with 52%nat.
  split.
  - intros (Hlen & Hparts & label & peerID & suffix & Heq & Hne & Hpeer).
    apply isLibp2pPeerID_iff in Hpeer.
    split; [exact Hlen|]. split; [exact Hparts|].
    exists label, peerID, suffix. tauto.
  - intros (Hlen & Hparts & label & peerID & suffix & Heq & Hne & Hpeer).
    apply isLibp2pPeerID_iff in Hpeer.
    split; [exact Hlen|]. split; [exact Hparts|].
    exists label, peerID, suffix. tauto.
Qed.

(** X12: on the labels [parseP2PForgeDomain] returns, which joined with
    dots give the domain back and of which none has a dot,
    [resolveP2PForge] does not panic: it returns one address that is not
    nil, with an empty zone, or the [DNSError] that names the domain. *)
Theorem resolveP2PForge_parsed {lib : NetLib} {cids : CidLib}
    (domain : string) (parts : list string) :
  parseP2PForgeDomain domain = Some parts ->
  String.concat "." parts = domain
  /\ Forall (without_byte ".") parts
  /\ exists r,
       resolveP2PForge domain parts = Returns r
       /\ match r with
          | Ok ips => exists ip, ip <> [] /\ ips = [ {| IP := ip; Zone := EmptyString |} ]
          | Error e =>
              e = DNSError "invalid IP encoding in p2p-forge domain" domain EmptyString
          end.
Proof.
  intros Hparse. apply parseP2PForgeDomain_Some in Hparse.
  destruct Hparse as (_ & Hparts & label & peerID & suffix & Heq & _ & _).
  split; [rewrite Hparts; apply Split_concat|].
  split; [rewrite Hparts; apply Split_without_sep|].
  rewrite Heq. unfold resolveP2PForge.
  destruct (decodeIPv6 label) as [|b ip6] eqn:H6; cbn [net.isNil negb].
  - destruct (decodeIPv4 label) as [|b ip4] eqn:H4; cbn [net.isNil negb].
    + eexists. split; reflexivity.
    + eexists. split; [reflexivity|]. exists (b :: ip4). split; [discriminate|reflexivity].
  - eexists. split; [reflexivity|]. exists (b :: ip6). split; [discriminate|reflexivity].
Qed.

(** The first domain of [TestP2PForgeDomainParsing]. *)
Lemma resolveP2PForge_parsed_witness :
  let domain := static_test.domain "192-0-2-1" "libp2p.direct" in
  let parts := ["192-0-2-1"; static_test.peer; "libp2p"; "direct"] in
  parseP2PForgeDomain (cids := static_test.cids) domain = Some parts
  /\ String.concat "." parts = domain
  /\ resolveP2PForge domain parts
     = Returns (Ok [ {| IP := GoRef.ParseIP "192.0.2.1"; Zone := EmptyString |} ]).
Proof.
  intros domain parts.
  assert (parseP2PForgeDomain (cids := static_test.cids) domain = Some parts)
    as Hparse by (vm_compute; reflexivity).
  split; [exact Hparse|].
  destruct (resolveP2PForge_parsed (cids := static_test.cids) domain parts Hparse)
    as (Hjoin & _ & _).
  split; [exact Hjoin|]. vm_compute. reflexivity.
Defined.

(** X13: the address [resolveP2PForge] returns is not nil, and it is an
    IPv4 address exactly when the IPv6 decoding of the first label fails; it
    is then what [net.ParseIP] gives for the label with a dot for every
    hyphen.  An address of the IPv6 decoding is never an IPv4 address: a
    [dns4] component never keeps it, a [dns6] component always. *)
Theorem resolveP2PForge_family {lib : NetLib} (domain : string)
    (parts : list string) (ips : list IPAddr) :
  resolveP2PForge domain parts = Returns (Ok ips) ->
  exists label labels a,
    parts = label :: labels /\ ips = [a]
    /\ IP a <> [] /\ Zone a = EmptyString
    /\ (is_IPv4 a = true <-> decodeIPv6 label = [])
    /\ (is_IPv4 a = true ->
        IP a = ParseIP (GoStrings.ReplaceAll label "-" "."))
    /\ kept true a = is_IPv4 a /\ kept false a = negb (is_IPv4 a).
Proof.
  intros Hres. destruct parts as [|label labels]; [discriminate|].
  unfold resolveP2PForge in Hres.
  assert (decodeIPv6 label <> [] -> net.To4 (decodeIPv6 label) = []) as H6nat.
  { unfold decodeIPv6.
    set (ip := ParseIP _). destruct (net.isNil ip); [congruence|].
    destruct (net.To4 ip) eqn:Hto4; cbn [net.isNil negb]; [auto|congruence]. }
  assert (decodeIPv4 label <> [] ->
          net.To4 (decodeIPv4 label) <> []
          /\ decodeIPv4 label = ParseIP (GoStrings.ReplaceAll label "-" ".")) as H4nat.
  { unfold decodeIPv4.
    set (ip := ParseIP _). destruct (net.isNil ip); [congruence|].
    destruct (net.To4 ip) eqn:Hto4; cbn [net.isNil]; [congruence|].
    intros _. rewrite Hto4. split; [discriminate|reflexivity]. }
  destruct (decodeIPv6 label) as [|b ip6] eqn:H6; cbn [net.isNil negb] in Hres.
  - destruct (decodeIPv4 label) as [|b ip4] eqn:H4; cbn [net.isNil negb] in Hres;
      [discriminate|].
    injection Hres as <-. destruct H4nat as [Hto4 Hparse]; [discriminate|].
    exists label, labels, {| IP := b :: ip4; Zone := EmptyString |}.
    assert (is_IPv4 {| IP := b :: ip4; Zone := EmptyString |} = true) as Hv4.
    { unfold is_IPv4. cbn [IP]. destruct (net.To4 (b :: ip4)); [congruence|reflexivity]. }
    cbn [IP Zone]. unfold kept. rewrite Hv4.
    split; [reflexivity|]. split; [reflexivity|]. split; [discriminate|].
    split; [reflexivity|]. split; [tauto|]. split; [auto|]. split; reflexivity.
  - injection Hres as <-. specialize (H6nat ltac:(discriminate)).
    exists label, labels, {| IP := b :: ip6; Zone := EmptyString |}.
    assert (is_IPv4 {| IP := b :: ip6; Zone := EmptyString |} = false) as Hv4.
    { unfold is_IPv4. cbn [IP]. rewrite H6nat. reflexivity. }
    cbn [IP Zone]. unfold kept. rewrite Hv4.
    split; [reflexivity|]. split; [reflexivity|]. split; [discriminate|].
    split; [reflexivity|]. split; [split; [discriminate|congruence]|].
    split; [discriminate|]. split; reflexivity.
Qed.

(** The domains of the tests of an IPv4 and of a condensed IPv6 address. *)
Lemma resolveP2PForge_family_witness :
  let domain := static_test.domain "2001-db8--1" "libp2p.direct" in
  let parts := ["2001-db8--1"; static_test.peer; "libp2p"; "direct"] in
  let ips := [ {| IP := GoRef.ParseIP "2001:db8::1"; Zone := EmptyString |} ] in
  resolveP2PForge domain parts = Returns (Ok ips)
  /\ exists label labels a,
       parts = label :: labels /\ ips = [a]
       /\ IP a <> [] /\ Zone a = EmptyString
       /\ (is_IPv4 a = true <-> decodeIPv6 label = [])
       /\ (is_IPv4 a = true ->
           IP a = ParseIP (GoStrings.ReplaceAll label "-" "."))
       /\ kept true a = is_IPv4 a /\ kept false a = negb (is_IPv4 a).
Proof.
  intros domain parts ips.
  assert (resolveP2PForge domain parts = Returns (Ok ips)) as Hres
    by (vm_compute; reflexivity).
  split; [exact Hres|].
  exact (resolveP2PForge_family domain parts ips Hres).
Defined.

(** ** The text records of the DNS-over-HTTPS backend *)

Lemma HasPrefix_byte (s : string) (c : ascii) :
  GoStrings.HasPrefix s (String c EmptyString)
  = match s with String a _ => Ascii.eqb a c | EmptyString => false end.
Proof. destruct s as [|a s]; simpl; [reflexivity|]. destruct (Ascii.eqb a c); reflexivity. Qed.

Lemma TrimLeft_first (s : string) (c : ascii) :
  GoStrings.HasPrefix (GoStrings.TrimLeft s c) (String c EmptyString) = false.
Proof.
  induction s as [|a s IH]; [reflexivity|]. simpl GoStrings.TrimLeft.
  destruct (Ascii.eqb a c) eqn:Ha; [exact IH|].
  rewrite HasPrefix_byte. exact Ha.
Qed.

Lemma TrimRight_first (s : string) (c : ascii) :
  GoStrings.HasPrefix s (String c EmptyString) = false ->
  GoStrings.HasPrefix (GoStrings.TrimRight s c) (String c EmptyString) = false.
Proof.
  rewrite !HasPrefix_byte. destruct s as [|a s]; [reflexivity|].
  intros Ha. simpl GoStrings.TrimRight.
  destruct (GoStrings.TrimRight s c); [rewrite Ha|]; exact Ha.
Qed.

Lemma TrimRight_last (s : string) (c : ascii) :
  forall t, GoStrings.TrimRight s c <> t +:+ String c EmptyString.
Proof.
  induction s as [|a s IH]; intros t; simpl GoStrings.TrimRight.
  - destruct t; discriminate.
  - destruct (GoStrings.TrimRight s c) as [|b u] eqn:Hu.
    + destruct (Ascii.eqb a c) eqn:Ha.
      * destruct t; discriminate.
      * destruct t as [|p t].
        -- intros H. injection H as ->. rewrite Ascii.eqb_refl in Ha. discriminate.
        -- intros H. injection H as _ H. destruct t; discriminate.
    + destruct t as [|p t].
      * intros H. injection H as _ H. discriminate.
      * intros H. injection H as _ H. exact (IH t H).
Qed.

Lemma Trim_untrimmed_free (s : string) (c : ascii) :
  untrimmed_free c (GoStrings.Trim s c).
Proof.
  unfold untrimmed_free, GoStrings.Trim. split.
  - apply TrimRight_first, TrimLeft_first.
  - destruct (GoStrings.HasSuffix _ _) eqn:H; [|reflexivity].
    apply HasSuffix_iff in H as [t H]. exfalso. exact (TrimRight_last _ _ _ H).
Qed.

Lemma txt_results_map (records : list string) :
  forall results : list string,
    txt_results records results
    = results ++ map (fun r => GoStrings.Trim r double_quote) records.
Proof.
  induction records as [|r records IH]; intros results; simpl.
  - rewrite app_nil_r. reflexivity.
  - rewrite IH, <- app_assoc. reflexivity.
Qed.

(** [lookup] returns records exactly when every step of the exchange
    succeeds: the URL, the request, the response of the client with the
    status 200, its body and the decoding. *)
Lemma lookup_Ok_iff {web : WebLib} (r : DOHResolver) (name : string)
    (type_ : Z) (records : list string) :
  lookup r name type_ = Returns (Ok records)
  <-> exists u req resp body parsed,
        url_with_query (Host r)
          ("name=" +:+ QueryEscape name +:+ "&type=" +:+ GoStrings.Itoa type_)
        = Ok u
        /\ NewRequest "GET" u = Ok req
        /\ http.Do (Client r)
             (http.Header_Add req "Accept" "application/dns-json") = Ok resp
        /\ http.StatusCode resp = 200
        /\ http.Body resp = Ok body
        /\ json_Unmarshal body = Ok parsed
        /\ records = map Data (List.filter (fun a => Type_ a =? type_) parsed).
Proof.
  unfold lookup. split.
  - destruct (url_with_query _ _) as [u|e]; [|discriminate].
    destruct (NewRequest "GET" u) as [req|e] eqn:Hreq; [|discriminate].
    destruct (http.Do _ _) as [resp|e] eqn:Hdo; [|discriminate].
    destruct (http.StatusCode resp =? 200) eqn:Hstatus; [|discriminate].
    cbn [negb]. destruct (http.Body resp) as [body|e] eqn:Hbody; [|discriminate].
    destruct (json_Unmarshal body) as [parsed|e] eqn:Hjson; [|discriminate].
    intros H. injection H as <-. apply Z.eqb_eq in Hstatus.
    exists u, req, resp, body, parsed. rewrite collect_answers_filter.
    split; [reflexivity|]. split; [exact Hreq|]. split; [exact Hdo|]. auto.
  - intros (u & req & resp & body & parsed & Hu & Hreq & Hdo & Hs & Hb & Hj & ->).
    rewrite Hu, Hreq, Hdo, Hs, Hb, Hj. cbn [Z.eqb Pos.eqb negb].
    rewrite collect_answers_filter. reflexivity.
Qed.

(** X14: [LookupTXT] of the DNS-over-HTTPS resolver returns texts without
    an error exactly when the URL is made from the host, the request is
    created, the client answers that request (with the header [Accept]
    added) with the status 200, the body is read and it decodes; the texts
    are then, for every answer of type 16 of the body, in order, the text
    of the answer with the double quotes at its two ends cut off: answers
    of other types are left out, and no text returned begins or ends with a
    double quote. *)
Theorem DOH_LookupTXT_unquoted {web : WebLib} (r : DOHResolver) (host : string)
    (results : list string) :
  (DOH_LookupTXT r host = Returns (Ok results)
   <-> exists u req resp body parsed,
         url_with_query (Host r)
           ("name=" +:+ QueryEscape host +:+ "&type=" +:+ GoStrings.Itoa 16)
         = Ok u
         /\ NewRequest "GET" u = Ok req
         /\ http.Do (Client r)
              (http.Header_Add req "Accept" "application/dns-json") = Ok resp
         /\ http.StatusCode resp = 200
         /\ http.Body resp = Ok body
         /\ json_Unmarshal body = Ok parsed
         /\ results
            = map (fun a => GoStrings.Trim (Data a) double_quote)
                  (List.filter (fun a => Type_ a =? 16) parsed))
  /\ (DOH_LookupTXT r host = Returns (Ok results) ->
      Forall (untrimmed_free double_quote) results).
Proof.
  assert (DOH_LookupTXT r host = Returns (Ok results)
          <-> exists records,
                lookup r host 16 = Returns (Ok records)
                /\ results = map (fun t => GoStrings.Trim t double_quote) records)
    as Hrecords.
  { unfold DOH_LookupTXT. split.
    - destruct (lookup r host 16) as [[records|e]|msg|]; try discriminate.
      intros H. injection H as <-. exists records. split; [reflexivity|].
      rewrite txt_results_map. reflexivity.
    - intros (records & -> & ->). rewrite txt_results_map. reflexivity. }
  split.
  - rewrite Hrecords. split.
    + intros (records & Hlookup & ->).
      apply lookup_Ok_iff in Hlookup
        as (u & req & resp & body & parsed & Hu & Hreq & Hdo & Hs & Hb & Hj & ->).
      exists u, req, resp, body, parsed. rewrite List.map_map. auto 10.
    + intros (u & req & resp & body & parsed & Hu & Hreq & Hdo & Hs & Hb & Hj & ->).
      exists (map Data (List.filter (fun a => Type_ a =? 16) parsed)).
      split; [|rewrite List.map_map; reflexivity].
      apply lookup_Ok_iff. exists u, req, resp, body, parsed. auto 10.
  - intros H. apply Hrecords in H as (records & _ & ->).
    apply List.Forall_forall. intros t Ht. apply in_map_iff in Ht as (x & <- & _).
    apply Trim_untrimmed_free.
Qed.

(** Two quoted [dnsaddr] records and an answer of another type, in the
    body of a response with the status 200. *)
Lemma DOH_LookupTXT_unquoted_witness :
  let r := doh_txt_test.resolver in
  let results := [resolve_test.txta; resolve_test.txtb] in
  DOH_LookupTXT (web := doh_txt_test.web) r "_dnsaddr.example.com"
  = Returns (Ok results)
  /\ (exists u req resp body parsed,
         url_with_query (WebLib := doh_txt_test.web) (Host r)
           ("name=" +:+ QueryEscape (WebLib := doh_txt_test.web) "_dnsaddr.example.com"
            +:+ "&type=" +:+ GoStrings.Itoa 16)
         = Ok u
         /\ NewRequest (WebLib := doh_txt_test.web) "GET" u = Ok req
         /\ http.Do (Client r)
              (http.Header_Add req "Accept" "application/dns-json") = Ok resp
         /\ http.StatusCode resp = 200
         /\ http.Body resp = Ok body
         /\ json_Unmarshal (WebLib := doh_txt_test.web) body = Ok parsed
         /\ results
            = map (fun a => GoStrings.Trim (Data a) double_quote)
                  (List.filter (fun a => Type_ a =? 16) parsed))
  /\ Forall (untrimmed_free double_quote) results.
Proof.
  intros r results.
  assert (DOH_LookupTXT (web := doh_txt_test.web) r "_dnsaddr.example.com"
          = Returns (Ok results)) as H by (vm_compute; reflexivity).
  destruct (DOH_LookupTXT_unquoted (web := doh_txt_test.web) r
              "_dnsaddr.example.com" results) as [Hiff Hfree].
  split; [exact H|]. split; [exact (proj1 Hiff H)|exact (Hfree H)].
Defined.

(** ** The validation of domain names *)

(** X15: [dnsVal] rejects exactly the names that have a slash: replacing
    any byte of a name by a slash, as [TestBadDomain] does, makes it an
    error, and a name made of two accepted names is accepted. *)
Theorem dnsVal_slash (b : string) :
  (is_error (dnsVal b) = true
   <-> exists pre post, b = pre +:+ String "/" post)
  /\ (dnsVal b = Ok tt <-> without_byte "/" b)
  /\ (forall b', dnsVal b = Ok tt -> dnsVal b' = Ok tt ->
                 dnsVal (b +:+ b') = Ok tt).
Proof.
  assert (forall s, contains_slash s = true
                    <-> exists pre post, s = pre +:+ String "/" post) as Hsplit.
  { induction s as [|c s IH]; simpl.
    - split; [discriminate|]. intros (pre & post & H). destruct pre; discriminate.
    - destruct (Ascii.eqb c "/") eqn:Hc.
      + apply Ascii.eqb_eq in Hc. subst c. split; [|reflexivity].
        intros _. exists EmptyString, s. reflexivity.
      + rewrite IH. split.
        * intros (pre & post & ->). exists (String c pre), post. reflexivity.
        * intros (pre & post & H). destruct pre as [|p pre].
          -- injection H as -> _. rewrite Ascii.eqb_refl in Hc. discriminate.
          -- injection H as _ ->. exists pre, post. reflexivity. }
  assert (forall s, contains_slash s = false <-> without_byte "/" s) as Hfree.
  { unfold without_byte. induction s as [|c s IH]; simpl.
    - split; [intros _ []|reflexivity].
    - destruct (Ascii.eqb c "/") eqn:Hc.
      + apply Ascii.eqb_eq in Hc. split; [discriminate|]. intros H. exfalso. auto.
      + rewrite IH. apply Ascii.eqb_neq in Hc. split.
        * intros H [Heq|Hin]; auto.
        * intros H Hin. auto. }
  assert (forall s, dnsVal s = Ok tt <-> contains_slash s = false) as Hok.
  { intros s. unfold dnsVal. destruct (contains_slash s); split; congruence. }
  split; [|split].
  - rewrite <- Hsplit. unfold dnsVal. destruct (contains_slash b); simpl; tauto.
  - rewrite Hok. apply Hfree.
  - intros b'. rewrite !Hok, !Hfree. unfold without_byte.
    intros Hb Hb' Hin. clear Hsplit Hfree Hok.
    induction b as [|c b IH]; [exact (Hb' Hin)|].
    change (String c b +:+ b') with (String c (b +:+ b')) in Hin.
    simpl in Hin, Hb. destruct Hin as [Heq|Hin]; [auto|].
    apply IH; auto.
Qed.

(** ** The revision with [isResolvable] and [matchDnsaddr] *)

Lemma legacy_Split_length (m : Multiaddr) : length (legacy.Split m) = length m.
Proof. apply length_map. Qed.

Lemma legacy_Join_Split (m : Multiaddr) : ma.Join (legacy.Split m) = m.
Proof.
  unfold ma.Join, legacy.Split. induction m as [|c m IH]; [reflexivity|].
  simpl. rewrite IH. reflexivity.
Qed.

Lemma legacy_skipn_Split (k : nat) (m : Multiaddr) :
  skipn k (legacy.Split m) = legacy.Split (skipn k m).
Proof. unfold legacy.Split. apply skipn_map. Qed.

Lemma skipn_suffix (m t : Multiaddr) :
  (length t <= length m)%nat ->
  skipn (length m - length t) m = t <-> ends_with t m.
Proof.
  intros Hlen. unfold ends_with. split.
  - intros H. exists (firstn (length m - length t) m).
    rewrite <- (firstn_skipn (length m - length t) m) at 1. rewrite H.
    reflexivity.
  - intros [y ->]. rewrite length_app.
    replace (length y + length t - length t)%nat with (length y) by lia.
    rewrite skipn_app, Nat.sub_diag, skipn_all. reflexivity.
Qed.

Lemma legacy_matchDnsaddr_cases (maddr t : Multiaddr) :
  legacy.matchDnsaddr maddr (legacy.Split t)
  = if (length maddr <? length t)%nat then Panics "slice bounds out of range"
    else Returns (bool_decide (skipn (length maddr - length t) maddr = t)).
Proof.
  unfold legacy.matchDnsaddr. rewrite !legacy_Split_length.
  destruct (length maddr <? length t)%nat; [reflexivity|].
  rewrite legacy_skipn_Split, !legacy_Join_Split. unfold ma.Equal.
  destruct (bool_decide _); reflexivity.
Qed.

(** X16: [matchDnsaddr] of that revision, on the components that follow a
    [dnsaddr] component, panics when the address of the record has fewer
    components; otherwise it is true exactly when the address ends with
    these components, which is what the present revision tests with
    [offset]. *)
Theorem legacy_matchDnsaddr_suffix (maddr t : Multiaddr) :
  ((length maddr < length t)%nat ->
   legacy.matchDnsaddr maddr (legacy.Split t)
   = Panics "slice bounds out of range")
  /\ ((length t <= length maddr)%nat ->
      exists b,
        legacy.matchDnsaddr maddr (legacy.Split t) = Returns b
        /\ (b = true <-> ends_with t maddr)
        /\ b = ma.Equal t (offset maddr (addrLen maddr - addrLen t))).
Proof.
  rewrite legacy_matchDnsaddr_cases. split.
  - intros Hlen. apply Nat.ltb_lt in Hlen. rewrite Hlen. reflexivity.
  - intros Hlen. pose proof Hlen as Hge. apply Nat.ltb_ge in Hge. rewrite Hge.
    eexists. split; [reflexivity|]. split.
    + rewrite bool_decide_eq_true. apply skipn_suffix, Hlen.
    + rewrite !addrLen_length.
      replace (Z.of_nat (length maddr) - Z.of_nat (length t))
        with (Z.of_nat (length maddr - length t)) by lia.
      rewrite offset_skipn. unfold ma.Equal. apply bool_decide_ext.
      split; congruence.
Qed.

Section LegacyFacts.

Context {lib : NetLib}.
Variable Multiaddr_String : Multiaddr -> string.
Variable rslv : Resolver.

Lemma legacy_parsed_cases (r : string) :
  (legacy_parsed r = None
   /\ forall trailer records result,
        legacy.dnsaddr_records trailer (r :: records) result
        = legacy.dnsaddr_records trailer records result)
  \/ (exists e,
        legacy_parsed r = Some (Error e)
        /\ forall trailer records result,
             legacy.dnsaddr_records trailer (r :: records) result
             = Returns (result, Some e))
  \/ (exists rm,
        legacy_parsed r = Some (Ok rm)
        /\ forall trailer records result,
             legacy.dnsaddr_records trailer (r :: records) result
             = match legacy.matchDnsaddr rm trailer with
               | Returns true =>
                   legacy.dnsaddr_records trailer records (result ++ [rm])
               | Returns false => legacy.dnsaddr_records trailer records result
               | Panics msg => Panics msg
               | OutOfFuel => OutOfFuel
               end).
Proof.
  unfold legacy_parsed. cbn [legacy.dnsaddr_records].
  destruct (legacy.strings_Split r "dnsaddr=") as [|a [|b [|c l]]];
    try (left; split; reflexivity).
  destruct (NewMultiaddr b) as [rm|e].
  - right. right. exists rm. split; reflexivity.
  - right. left. exists e. split; reflexivity.
Qed.

Lemma legacy_dnsaddr_records_panics (rest : Multiaddr) (records : list string)
    (msg : string) :
  forall result,
    legacy.dnsaddr_records (legacy.Split rest) records result = Panics msg
    <-> msg = "slice bounds out of range"
        /\ exists before r0 after,
             records = before ++ r0 :: after
             /\ Forall (fun r => ~ short_record rest r /\ ~ failing_record r) before
             /\ short_record rest r0.
Proof.
  induction records as [|r records IH]; intros result.
  - simpl. split; [discriminate|].
    intros (_ & before & r0 & after & H & _). destruct before; discriminate.
  - assert (forall result',
               legacy.dnsaddr_records (legacy.Split rest) (r :: records) result
               = legacy.dnsaddr_records (legacy.Split rest) records result' ->
               ~ short_record rest r -> ~ failing_record r ->
               legacy.dnsaddr_records (legacy.Split rest) (r :: records) result
               = Panics msg
               <-> msg = "slice bounds out of range"
                   /\ exists before r0 after,
                        r :: records = before ++ r0 :: after
                        /\ Forall (fun r => ~ short_record rest r
                                            /\ ~ failing_record r) before
                        /\ short_record rest r0) as Hnext.
    { intros result' Heq Hshort Hfail. rewrite Heq, IH. split.
      - intros (Hmsg & before & r0 & after & -> & Hbefore & Hr0).
        split; [exact Hmsg|]. exists (r :: before), r0, after.
        split; [reflexivity|]. split; [|exact Hr0].
        constructor; [split; assumption|exact Hbefore].
      - intros (Hmsg & before & r0 & after & H & Hbefore & Hr0).
        split; [exact Hmsg|]. destruct before as [|r' before].
        + injection H as <- _. contradiction.
        + injection H as <- ->. apply Forall_cons_iff in Hbefore as [_ Hbefore].
          exists before, r0, after. auto. }
    destruct (legacy_parsed_cases r) as [[Hp Hrec]|[(e & Hp & Hrec)|(rm & Hp & Hrec)]].
    + apply (Hnext result); [apply Hrec| |].
      * intros (rm & H & _). congruence.
      * intros (e & H). congruence.
    + rewrite Hrec. split; [discriminate|].
      intros (_ & before & r0 & after & H & Hbefore & Hr0).
      destruct before as [|r' before].
      * injection H as <- _. destruct Hr0 as (rm & H & _). congruence.
      * injection H as <- _. apply Forall_cons_iff in Hbefore as [[_ Hfail] _].
        exfalso. apply Hfail. exists e. exact Hp.
    + pose proof (Hrec (legacy.Split rest) records result) as Hstep.
      rewrite legacy_matchDnsaddr_cases in Hstep.
      destruct (length rm <? length rest)%nat eqn:Hlen.
      * apply Nat.ltb_lt in Hlen. rewrite Hstep. split.
        -- intros H. injection H as <-. split; [reflexivity|].
           exists [], r, records. split; [reflexivity|]. split; [constructor|].
           exists rm. auto.
        -- intros [-> _]. reflexivity.
      * apply Nat.ltb_ge in Hlen.
        assert (~ short_record rest r) as Hshort.
        { intros (rm' & H & Hlt). rewrite Hp in H. injection H as <-. lia. }
        assert (~ failing_record r) as Hfail.
        { intros (e & H). congruence. }
        destruct (bool_decide _) in Hstep; eapply Hnext; eauto.
Qed.

Lemma legacy_Resolve_dnsaddr (c : Component) (rest : Multiaddr) :
  is_dnsaddr c = true ->
  legacy.Resolve Multiaddr_String rslv (c :: rest)
  = match LookupTXT (Backend rslv) ("_dnsaddr." +:+ Value c) with
    | Error err => Returns ([], Some err)
    | Ok records => legacy.dnsaddr_records (legacy.Split rest) records []
    end.
Proof.
  intros Hc. apply Z.eqb_eq in Hc.
  unfold legacy.Resolve, legacy.isResolvable, legacy.resolveDnsaddr.
  cbn [legacy.Protocols map legacy.ValueForProtocol legacy.Split
       ResolvableProtocols find].
  rewrite Hc. reflexivity.
Qed.

Lemma legacy_Resolve_ip (c : Component) (rest : Multiaddr) :
  is_ip_dns c = true ->
  legacy.Resolve Multiaddr_String rslv (c :: rest)
  = match LookupIPAddr (Backend rslv) (Value c) with
    | Error err => Returns ([], Some err)
    | Ok records =>
        Returns (if component_v4 c
                 then legacy.dns4_records (legacy.Split rest) records []
                 else legacy.dns6_records (legacy.Split rest) records [])
    end.
Proof.
  intros Hc. unfold is_ip_dns in Hc. apply orb_true_iff in Hc.
  unfold legacy.Resolve, legacy.isResolvable, legacy.resolveDns4,
    legacy.resolveDns6, component_v4.
  cbn [legacy.Protocols map legacy.ValueForProtocol legacy.Split
       ResolvableProtocols find].
  destruct Hc as [Hc|Hc]; apply Z.eqb_eq in Hc; rewrite Hc; cbn;
    destruct (LookupIPAddr (Backend rslv) (Value c)); reflexivity.
Qed.

Lemma legacy_Resolve_unresolvable (c : Component) (rest : Multiaddr) :
  resolvable c = false ->
  legacy.Resolve Multiaddr_String rslv (c :: rest) = Returns ([c :: rest], None).
Proof.
  intros Hc. rewrite resolvable_cases in Hc. apply orb_false_iff in Hc as [Hip Hd].
  unfold is_ip_dns in Hip. apply orb_false_iff in Hip as [H4 H6].
  unfold is_dnsaddr in Hd.
  unfold legacy.Resolve, legacy.isResolvable.
  cbn [legacy.Protocols map ResolvableProtocols find].
  rewrite Hd, H4, H6. reflexivity.
Qed.

Lemma legacy_Join_parts (x rest : Multiaddr) :
  ma.Join ([x] ++ legacy.Split rest) = x ++ rest.
Proof.
  unfold ma.Join. simpl. f_equal. apply legacy_Join_Split.
Qed.

Lemma legacy_dns4_records_agree (rest : Multiaddr) (records : list IPAddr) :
  forall acc,
    match resolve_ip_records true records acc with
    | Ok resolved =>
        legacy.dns4_records (legacy.Split rest) records
          (map (fun x => x ++ rest) acc)
        = (map (fun x => x ++ rest) resolved, None)
    | Error e =>
        exists partial,
          legacy.dns4_records (legacy.Split rest) records
            (map (fun x => x ++ rest) acc)
          = (partial, Some e)
    end.
Proof.
  induction records as [|a records IH]; intros acc; [reflexivity|].
  cbn [resolve_ip_records legacy.dns4_records]. unfold ip_record.
  destruct (net.isNil (net.To4 (IP a))); [apply IH|].
  destruct (NewMultiaddr _) as [rm|e]; [|eauto].
  rewrite legacy_Join_parts.
  specialize (IH (acc ++ [rm])). rewrite map_app in IH. exact IH.
Qed.

Lemma legacy_dns6_records_agree (rest : Multiaddr) (records : list IPAddr) :
  Forall (fun a => net.To4 (IP a) = [] -> net.To16 (IP a) = IP a) records ->
  forall acc,
    match resolve_ip_records false records acc with
    | Ok resolved =>
        legacy.dns6_records (legacy.Split rest) records
          (map (fun x => x ++ rest) acc)
        = (map (fun x => x ++ rest) resolved, None)
    | Error e =>
        exists partial,
          legacy.dns6_records (legacy.Split rest) records
            (map (fun x => x ++ rest) acc)
          = (partial, Some e)
    end.
Proof.
  induction records as [|a records IH]; intros Hrecords acc; [reflexivity|].
  apply Forall_cons_iff in Hrecords as [Ha Hrecords].
  cbn [resolve_ip_records legacy.dns6_records]. unfold ip_record.
  destruct (net.To4 (IP a)) eqn:Hto4; cbn [net.isNil negb]; [|apply IH, Hrecords].
  rewrite (Ha eq_refl).
  destruct (NewMultiaddr _) as [rm|e]; [|eauto].
  rewrite legacy_Join_parts.
  specialize (IH Hrecords (acc ++ [rm])). rewrite map_app in IH. exact IH.
Qed.

Lemma legacy_dns4_records_end (rest : Multiaddr) (records : list IPAddr) :
  forall acc,
    Forall (ends_with rest) acc ->
    Forall (ends_with rest)
           (fst (legacy.dns4_records (legacy.Split rest) records acc)).
Proof.
  induction records as [|a records IH]; intros acc Hacc; [exact Hacc|].
  cbn [legacy.dns4_records].
  destruct (net.isNil (net.To4 (IP a))); [apply IH, Hacc|].
  destruct (NewMultiaddr _) as [rm|e]; [|exact Hacc].
  apply IH. rewrite legacy_Join_parts. apply Forall_app. split; [exact Hacc|].
  constructor; [exists rm; reflexivity|constructor].
Qed.

Lemma legacy_dns6_records_end (rest : Multiaddr) (records : list IPAddr) :
  forall acc,
    Forall (ends_with rest) acc ->
    Forall (ends_with rest)
           (fst (legacy.dns6_records (legacy.Split rest) records acc)).
Proof.
  induction records as [|a records IH]; intros acc Hacc; [exact Hacc|].
  cbn [legacy.dns6_records].
  destruct (negb (net.isNil (net.To4 (IP a)))); [apply IH, Hacc|].
  destruct (NewMultiaddr _) as [rm|e]; [|exact Hacc].
  apply IH. rewrite legacy_Join_parts. apply Forall_app. split; [exact Hacc|].
  constructor; [exists rm; reflexivity|constructor].
Qed.

Lemma legacy_dnsaddr_records_end (rest : Multiaddr) (records : list string) :
  forall acc out e,
    Forall (ends_with rest) acc ->
    legacy.dnsaddr_records (legacy.Split rest) records acc = Returns (out, e) ->
    Forall (ends_with rest) out.
Proof.
  induction records as [|r records IH]; intros acc out e Hacc Hout.
  - injection Hout as <- _. exact Hacc.
  - destruct (legacy_parsed_cases r) as [[_ Hrec]|[(e' & _ & Hrec)|(rm & _ & Hrec)]];
      rewrite Hrec in Hout.
    + exact (IH _ _ _ Hacc Hout).
    + injection Hout as <- _. exact Hacc.
    + rewrite legacy_matchDnsaddr_cases in Hout.
      destruct (length rm <? length rest)%nat eqn:Hlen; [discriminate|].
      apply Nat.ltb_ge in Hlen.
      destruct (bool_decide _) eqn:Hb.
      * apply bool_decide_eq_true in Hb. apply (skipn_suffix _ _ Hlen) in Hb.
        apply (IH _ _ _) in Hout; [exact Hout|].
        apply Forall_app. split; [exact Hacc|]. constructor; [exact Hb|constructor].
      * exact (IH _ _ _ Hacc Hout).
Qed.

End LegacyFacts.

(** X17: with a [dnsaddr] component first, [Resolve] of that revision
    panics exactly when, among the text records of the name, a record whose
    address has fewer components than follow the [dnsaddr] component comes
    before any record whose second field does not parse; the panic is that
    of the slice in [matchDnsaddr].  [Resolve] of the present revision
    returns for every such address. *)
Theorem legacy_Resolve_panics_iff {lib : NetLib}
    (Multiaddr_String : Multiaddr -> string) (rslv : Resolver)
    (c : Component) (rest : Multiaddr) (msg : string) :
  is_dnsaddr c = true ->
  (legacy.Resolve Multiaddr_String rslv (c :: rest) = Panics msg
   <-> msg = "slice bounds out of range"
       /\ exists records before r0 after,
            LookupTXT (Backend rslv) ("_dnsaddr." +:+ Value c) = Ok records
            /\ records = before ++ r0 :: after
            /\ Forall (fun r => ~ short_record rest r /\ ~ failing_record r) before
            /\ short_record rest r0)
  /\ exists res, Resolve rslv (c :: rest) = Returns res.
Proof.
  intros Hc. split.
  - rewrite (legacy_Resolve_dnsaddr _ _ _ _ Hc).
    destruct (LookupTXT (Backend rslv) ("_dnsaddr." +:+ Value c)) as [records|e].
    + rewrite legacy_dnsaddr_records_panics. split.
      * intros (Hmsg & before & r0 & after & H). split; [exact Hmsg|].
        exists records, before, r0, after. tauto.
      * intros (Hmsg & records' & before & r0 & after & Heq & H).
        injection Heq as <-. split; [exact Hmsg|]. exists before, r0, after. exact H.
    + split; [discriminate|].
      intros (_ & records & before & r0 & after & H & _). discriminate.
  - apply (Resolve_loop_returns rslv (length (c :: rest))); lia.
Qed.

(** The address of [TestLongMatch]. *)
Lemma legacy_Resolve_panics_iff_witness :
  let c := dnsaddr "example.com" in
  let rest := GoRef.StringCast "/quic/quic/quic/quic" in
  is_dnsaddr c = true
  /\ legacy.Resolve GoRef.Multiaddr_String resolve_test.makeResolver (c :: rest)
     = Panics "slice bounds out of range"
  /\ Resolve resolve_test.makeResolver (c :: rest) = Returns (Ok [])
  /\ exists res, Resolve resolve_test.makeResolver (c :: rest) = Returns res.
Proof.
  intros c rest.
  assert (is_dnsaddr c = true) as Hc by reflexivity.
  split; [exact Hc|]. split; [vm_compute; reflexivity|].
  split; [vm_compute; reflexivity|].
  exact (proj2 (legacy_Resolve_panics_iff GoRef.Multiaddr_String
                  resolve_test.makeResolver c rest EmptyString Hc)).
Defined.

(** X18: for an address that begins with a [dns4] or [dns6] component and
    has no other resolvable component, [Resolve] of that revision returns
    what [Resolve] of the present one returns, the same addresses in the
    same order or the same error, provided the records that are not IPv4
    addresses have 16 bytes or none ([To16] leaves them as they are). *)
Theorem legacy_Resolve_ip_agrees {lib : NetLib}
    (Multiaddr_String : Multiaddr -> string) (rslv : Resolver)
    (c : Component) (rest : Multiaddr) :
  is_ip_dns c = true -> unresolvable rest = true ->
  (forall records,
      LookupIPAddr (Backend rslv) (Value c) = Ok records ->
      Forall (fun a => net.To4 (IP a) = [] -> net.To16 (IP a) = IP a) records) ->
  same_outcome (Resolve rslv (c :: rest))
               (legacy.Resolve Multiaddr_String rslv (c :: rest)).
Proof.
  intros Hc Hrest Hrecords.
  assert (resolvable c = true) as Hres by (rewrite resolvable_cases, Hc; reflexivity).
  rewrite (legacy_Resolve_ip _ _ _ _ Hc). unfold Resolve.
  rewrite (Resolve_loop_split rslv _ [] [] c rest eq_refl Hres) by (simpl; lia).
  rewrite (lookup_component_ip_rest rslv c rest Hc), Hc.
  unfold lookup_component. rewrite Hc.
  destruct (LookupIPAddr (Backend rslv) (Value c)) as [records|e];
    [|simpl; eauto].
  specialize (Hrecords records eq_refl).
  assert (match resolve_ip_records (component_v4 c) records [] with
          | Ok resolved =>
              (if component_v4 c
               then legacy.dns4_records (legacy.Split rest) records []
               else legacy.dns6_records (legacy.Split rest) records [])
              = (map (fun x => x ++ rest) resolved, None)
          | Error e =>
              exists partial,
                (if component_v4 c
                 then legacy.dns4_records (legacy.Split rest) records []
                 else legacy.dns6_records (legacy.Split rest) records [])
                = (partial, Some e)
          end) as Hagree.
  { destruct (component_v4 c).
    - apply (legacy_dns4_records_agree rest records []).
    - apply (legacy_dns6_records_agree rest records Hrecords []). }
  destruct (resolve_ip_records (component_v4 c) records []) as [[|x xs]|e].
  - simpl. rewrite Hagree. reflexivity.
  - assert (keep_results [] [] = []) as -> by reflexivity. cbn [is_nil].
    rewrite (Resolve_loop_unresolvable rslv _ _ _ Hrest) by lia.
    rewrite keep_results_map by discriminate. simpl same_outcome.
    rewrite Hagree. reflexivity.
  - simpl. destruct Hagree as [partial ->]. eauto.
Qed.

(** [/dns6/example.com/tcp/123/http] with the records of the tests. *)
Lemma legacy_Resolve_ip_agrees_witness :
  let c := dns6 "example.com" in
  let rest := GoRef.StringCast "/tcp/123/http" in
  let rslv := resolve_test.makeResolver in
  (is_ip_dns c = true /\ unresolvable rest = true)
  /\ same_outcome (Resolve rslv (c :: rest))
                  (legacy.Resolve GoRef.Multiaddr_String rslv (c :: rest))
  /\ legacy.Resolve GoRef.Multiaddr_String rslv (c :: rest)
     = Returns ([resolve_test.ip6ma ++ rest; resolve_test.ip6mb ++ rest], None).
Proof.
  intros c rest rslv.
  assert (is_ip_dns c = true) as Hc by reflexivity.
  assert (unresolvable rest = true) as Hrest by (vm_compute; reflexivity).
  assert (forall records,
             LookupIPAddr (Backend rslv) (Value c) = Ok records ->
             Forall (fun a => net.To4 (IP a) = [] -> net.To16 (IP a) = IP a)
                    records) as Hrecords.
  { intros records H. vm_compute in H. injection H as <-.
    repeat apply List.Forall_cons; try apply List.Forall_nil; intros H;
      try (vm_compute in H; discriminate); vm_compute; reflexivity. }
  split; [auto|]. split.
  - exact (legacy_Resolve_ip_agrees GoRef.Multiaddr_String rslv c rest
             Hc Hrest Hrecords).
  - vm_compute. reflexivity.
Defined.

(** X19: [Resolve] of that revision looks at the first component only.  An
    address whose first component is not resolvable is returned as it is,
    also when a later component is; whatever the first component is, every
    address returned ends with the components that follow it, unresolved.
    What [Resolve] returns does not depend on the text form of the address,
    which only the error of a missing value would use, and it never reaches
    the panic of the end of [Resolve]. *)
Theorem legacy_Resolve_first_only {lib : NetLib}
    (Multiaddr_String : Multiaddr -> string) (rslv : Resolver)
    (maddr : Multiaddr) :
  (forall c rest,
      maddr = c :: rest -> resolvable c = false ->
      legacy.Resolve Multiaddr_String rslv maddr = Returns ([maddr], None))
  /\ (forall c rest out e,
         maddr = c :: rest ->
         legacy.Resolve Multiaddr_String rslv maddr = Returns (out, e) ->
         Forall (ends_with rest) out)
  /\ (forall text : Multiaddr -> string,
         legacy.Resolve text rslv maddr
         = legacy.Resolve Multiaddr_String rslv maddr)
  /\ legacy.Resolve Multiaddr_String rslv maddr <> Panics "unreachable".
Proof.
  assert (forall text c rest,
             (resolvable c = false
              /\ legacy.Resolve text rslv (c :: rest) = Returns ([c :: rest], None))
             \/ (is_ip_dns c = true
                 /\ legacy.Resolve text rslv (c :: rest)
                    = match LookupIPAddr (Backend rslv) (Value c) with
                      | Error err => Returns ([], Some err)
                      | Ok records =>
                          Returns (if component_v4 c
                                   then legacy.dns4_records (legacy.Split rest) records []
                                   else legacy.dns6_records (legacy.Split rest) records [])
                      end)
             \/ (is_dnsaddr c = true
                 /\ legacy.Resolve text rslv (c :: rest)
                    = match LookupTXT (Backend rslv) ("_dnsaddr." +:+ Value c) with
                      | Error err => Returns ([], Some err)
                      | Ok records =>
                          legacy.dnsaddr_records (legacy.Split rest) records []
                      end)) as Hcases.
  { intros text c rest. destruct (resolvable c) eqn:Hres.
    - rewrite resolvable_cases in Hres. apply orb_true_iff in Hres as [Hip|Hd].
      + right. left. split; [exact Hip|]. apply legacy_Resolve_ip, Hip.
      + right. right. split; [exact Hd|]. apply legacy_Resolve_dnsaddr, Hd.
    - left. split; [reflexivity|]. apply legacy_Resolve_unresolvable, Hres. }
  split; [|split; [|split]].
  - intros c rest -> Hc. apply legacy_Resolve_unresolvable, Hc.
  - intros c rest out e -> Hout.
    destruct (Hcases Multiaddr_String c rest) as [[_ H]|[[_ H]|[_ H]]];
      rewrite H in Hout; clear H.
    + injection Hout as <- _. constructor; [exists [c]; reflexivity|constructor].
    + destruct (LookupIPAddr (Backend rslv) (Value c)) as [records|err].
      * injection Hout as Hout. apply (f_equal fst) in Hout. simpl in Hout.
        rewrite <- Hout. destruct (component_v4 c).
        -- apply legacy_dns4_records_end. constructor.
        -- apply legacy_dns6_records_end. constructor.
      * injection Hout as <- _. constructor.
    + destruct (LookupTXT (Backend rslv) ("_dnsaddr." +:+ Value c)) as [records|err].
      * apply (legacy_dnsaddr_records_end rest records [] out e); [constructor|exact Hout].
      * injection Hout as <- _. constructor.
  - intros text. destruct maddr as [|c rest]; [reflexivity|].
    destruct (Hcases Multiaddr_String c rest) as [[Hc H]|[[Hc H]|[Hc H]]];
      rewrite H.
    + apply legacy_Resolve_unresolvable, Hc.
    + apply legacy_Resolve_ip, Hc.
    + apply legacy_Resolve_dnsaddr, Hc.
  - destruct maddr as [|c rest]; [discriminate|].
    destruct (Hcases Multiaddr_String c rest) as [[_ H]|[[_ H]|[_ H]]];
      rewrite H; clear H.
    + discriminate.
    + destruct (LookupIPAddr (Backend rslv) (Value c)); discriminate.
    + destruct (LookupTXT (Backend rslv) ("_dnsaddr." +:+ Value c)) as [records|err];
        [|discriminate].
      intros Hpanic. apply legacy_dnsaddr_records_panics in Hpanic as [Hmsg _].
      discriminate.
Qed.

(** ** The first revision *)

Section OldestFacts.

Context {lib : NetLib}.
Variable Multiaddr_String : Multiaddr -> string.
Variable rslv : Resolver.

Lemma oldest_dns4_records (encap : list Multiaddr) (records : list IPAddr) :
  forall acc,
    oldest.dns4_records encap (map IP records) acc
    = legacy.dns4_records encap records acc.
Proof.
  induction records as [|a records IH]; intros acc; [reflexivity|].
  cbn [map oldest.dns4_records legacy.dns4_records].
  destruct (net.isNil (net.To4 (IP a))); [apply IH|].
  destruct (NewMultiaddr _); [apply IH|reflexivity].
Qed.

Lemma oldest_dns6_records (encap : list Multiaddr) (records : list IPAddr) :
  forall acc,
    oldest.dns6_records encap (map IP records) acc
    = legacy.dns6_records encap records acc.
Proof.
  induction records as [|a records IH]; intros acc; [reflexivity|].
  cbn [map oldest.dns6_records legacy.dns6_records].
  destruct (negb (net.isNil (net.To4 (IP a)))); [apply IH|].
  destruct (NewMultiaddr _); [apply IH|reflexivity].
Qed.

Lemma oldest_dnsaddr_records (trailer : list Multiaddr) (records : list string) :
  forall acc,
    oldest.dnsaddr_records trailer records acc
    = legacy.dnsaddr_records trailer records acc.
Proof.
  induction records as [|r records IH]; intros acc; [reflexivity|].
  cbn [oldest.dnsaddr_records legacy.dnsaddr_records].
  destruct (legacy.strings_Split r "dnsaddr=") as [|a [|b [|c l]]]; try apply IH.
  destruct (NewMultiaddr b) as [rm|e]; [|reflexivity].
  unfold legacy.matchDnsaddr.
  destruct (length (legacy.Split rm) <? length trailer)%nat; [reflexivity|].
  destruct (ma.Equal _ _); apply IH.
Qed.

Lemma oldest_Resolve_unresolvable (c : Component) (rest : Multiaddr) :
  resolvable c = false ->
  oldest.Resolve Multiaddr_String (net_LookupIP rslv) (net_LookupTXT rslv)
    (c :: rest)
  = Returns ([c :: rest], None).
Proof.
  intros Hc. rewrite resolvable_cases in Hc. apply orb_false_iff in Hc as [Hip Hd].
  unfold is_ip_dns in Hip. apply orb_false_iff in Hip as [H4 H6].
  unfold is_dnsaddr in Hd. unfold oldest.Resolve.
  cbn [legacy.Protocols map ResolvableProtocols fold_left].
  rewrite Hd, H4, H6. reflexivity.
Qed.

Lemma oldest_Resolve_ip (c : Component) (rest : Multiaddr) :
  is_ip_dns c = true ->
  oldest.Resolve Multiaddr_String (net_LookupIP rslv) (net_LookupTXT rslv)
    (c :: rest)
  = let records := oldest.records_of (net_LookupIP rslv (Value c)) in
    Returns (if component_v4 c
             then oldest.dns4_records (legacy.Split rest) records []
             else oldest.dns6_records (legacy.Split rest) records []).
Proof.
  intros Hc. unfold is_ip_dns in Hc. apply orb_true_iff in Hc.
  unfold oldest.Resolve, oldest.resolveDns4, oldest.resolveDns6, component_v4.
  cbn [legacy.Protocols map legacy.ValueForProtocol legacy.Split
       ResolvableProtocols fold_left].
  destruct Hc as [Hc|Hc]; apply Z.eqb_eq in Hc; rewrite Hc; reflexivity.
Qed.

Lemma oldest_Resolve_dnsaddr (c : Component) (rest : Multiaddr) :
  is_dnsaddr c = true ->
  oldest.Resolve Multiaddr_String (net_LookupIP rslv) (net_LookupTXT rslv)
    (c :: rest)
  = oldest.dnsaddr_records (legacy.Split rest)
      (oldest.records_of (net_LookupTXT rslv ("_dnsaddr." +:+ Value c))) [].
Proof.
  intros Hc. apply Z.eqb_eq in Hc.
  unfold oldest.Resolve, oldest.resolveDnsaddr.
  cbn [legacy.Protocols map legacy.ValueForProtocol legacy.Split
       ResolvableProtocols fold_left].
  rewrite Hc. reflexivity.
Qed.

End OldestFacts.

(** X20: the first revision of [Resolve] against the next one, the
    resolver of package [net] answering as the backend does.  When the
    lookup for the first component fails, the first revision returns no
    address and no error, where the next one returns the error of the
    lookup; in every other case the two return the same, panic included. *)
Theorem oldest_Resolve_swallows_lookup_errors {lib : NetLib}
    (Multiaddr_String : Multiaddr -> string) (rslv : Resolver)
    (maddr : Multiaddr) :
  (forall c rest e,
      maddr = c :: rest -> backend_fails rslv c e ->
      oldest.Resolve Multiaddr_String (net_LookupIP rslv) (net_LookupTXT rslv) maddr
      = Returns ([], None)
      /\ legacy.Resolve Multiaddr_String rslv maddr = Returns ([], Some e))
  /\ ((forall c rest e, maddr = c :: rest -> ~ backend_fails rslv c e) ->
      oldest.Resolve Multiaddr_String (net_LookupIP rslv) (net_LookupTXT rslv) maddr
      = legacy.Resolve Multiaddr_String rslv maddr).
Proof.
  split.
  - intros c rest e -> [[Hc Hfail]|[Hc Hfail]].
    + rewrite (oldest_Resolve_ip _ _ _ _ Hc), (legacy_Resolve_ip _ _ _ _ Hc).
      unfold net_LookupIP. rewrite Hfail. cbn. split; [|reflexivity].
      destruct (component_v4 c); reflexivity.
    + rewrite (oldest_Resolve_dnsaddr _ _ _ _ Hc), (legacy_Resolve_dnsaddr _ _ _ _ Hc).
      unfold net_LookupTXT. rewrite Hfail. split; reflexivity.
  - intros Hok. destruct maddr as [|c rest]; [reflexivity|].
    specialize (fun e => Hok c rest e eq_refl). unfold backend_fails in Hok.
    destruct (resolvable c) eqn:Hres.
    + rewrite resolvable_cases in Hres. apply orb_true_iff in Hres as [Hc|Hc].
      * rewrite (oldest_Resolve_ip _ _ _ _ Hc), (legacy_Resolve_ip _ _ _ _ Hc).
        unfold net_LookupIP.
        destruct (LookupIPAddr (Backend rslv) (Value c)) as [records|e].
        -- cbn. rewrite oldest_dns4_records, oldest_dns6_records. reflexivity.
        -- exfalso. apply (Hok e). left. auto.
      * rewrite (oldest_Resolve_dnsaddr _ _ _ _ Hc), (legacy_Resolve_dnsaddr _ _ _ _ Hc).
        unfold net_LookupTXT.
        destruct (LookupTXT (Backend rslv) ("_dnsaddr." +:+ Value c)) as [records|e].
        -- apply oldest_dnsaddr_records.
        -- exfalso. apply (Hok e). right. auto.
    + rewrite (oldest_Resolve_unresolvable _ _ _ _ Hres).
      rewrite (legacy_Resolve_unresolvable _ _ _ _ Hres). reflexivity.
Qed.

(** ** The lookups [Resolve] makes *)

Lemma reached_split (keep : Multiaddr) (c : Component) (rest : Multiaddr) :
  unresolvable keep = true ->
  reached (keep ++ c :: rest)
  = keep ++ (if is_dnsaddr c then [c] else c :: reached rest).
Proof.
  intros Hkeep. induction keep as [|k keep IH]; [reflexivity|].
  simpl in Hkeep. apply andb_true_iff in Hkeep as [Hk Hkeep].
  apply negb_true_iff in Hk. rewrite resolvable_cases in Hk.
  apply orb_false_iff in Hk as [_ Hk]. simpl. rewrite Hk, (IH Hkeep). reflexivity.
Qed.

Lemma same_lookup_component {lib : NetLib} (r1 r2 : Resolver) (c : Component)
    (rest : Multiaddr) :
  resolvable c = true -> same_lookup r1 r2 c ->
  lookup_component r1 c rest = lookup_component r2 c rest.
Proof.
  intros Hc [Hip Hd]. unfold lookup_component.
  rewrite resolvable_cases in Hc.
  destruct (is_ip_dns c).
  - rewrite (Hip eq_refl). reflexivity.
  - rewrite (Hd Hc). reflexivity.
Qed.

Lemma Resolve_loop_same_lookups {lib : NetLib} (r1 r2 : Resolver) (n : nat) :
  forall (m : Multiaddr) (fuel : nat) (results : list Multiaddr),
    (length m <= n)%nat -> (length m <= fuel)%nat ->
    Forall (same_lookup r1 r2) (reached m) ->
    Resolve_loop r1 fuel results m = Resolve_loop r2 fuel results m.
Proof.
  induction n as [|n IH]; intros m fuel results Hn Hfuel Hm.
  - destruct m; [|simpl in Hn; lia]. rewrite !Resolve_loop_nil. reflexivity.
  - destruct (first_resolvable m) as [Hun|(keep & c & rest & -> & Hkeep & Hc)].
    + rewrite !(Resolve_loop_unresolvable _ _ _ _ Hun Hfuel). reflexivity.
    + rewrite !(Resolve_loop_split _ _ _ _ _ _ Hkeep Hc Hfuel).
      rewrite (reached_split _ _ _ Hkeep), Forall_app in Hm.
      destruct Hm as [_ Hm].
      assert (same_lookup r1 r2 c) as Hsame.
      { destruct (is_dnsaddr c); apply Forall_cons_iff in Hm as [H _]; exact H. }
      rewrite (same_lookup_component r1 r2 c rest Hc Hsame).
      destruct (lookup_component r2 c rest) as [[|x xs]|e]; try reflexivity.
      rewrite length_app in Hn. simpl in Hn.
      destruct (is_ip_dns c) eqn:Hip.
      * apply IH; try lia.
        rewrite (ip_dns_not_dnsaddr _ Hip) in Hm.
        apply Forall_cons_iff in Hm as [_ Hm]. exact Hm.
      * rewrite !Resolve_loop_nil. reflexivity.
Qed.

(** X21: [Resolve] makes no lookup but those of the components it reaches:
    two resolvers that answer alike for the [dns4] and [dns6] components
    and for the [dnsaddr] component up to the first [dnsaddr] component give
    the same result, whatever they answer for other names and for the
    components behind that [dnsaddr] component. *)
Theorem Resolve_lookups_only {lib : NetLib} (r1 r2 : Resolver)
    (maddr : Multiaddr) :
  Forall (same_lookup r1 r2) (reached maddr) ->
  Resolve r1 maddr = Resolve r2 maddr.
Proof.
  intros Hm. unfold Resolve.
  apply (Resolve_loop_same_lookups r1 r2 (length maddr)); auto.
Qed.

(** The resolver of the tests and one without text records, on an address
    with a [dns4] component behind the [dnsaddr] component. *)
Lemma Resolve_lookups_only_witness :
  let r1 := resolve_test.makeResolver in
  let r2 :=
    {| Backend :=
         Build_backend (fun _ => Error (ErrorString "no such host"))
                       (LookupTXT (Backend resolve_test.makeResolver)) |} in
  let maddr := [dnsaddr "example.com"; dns4 "example.com"] in
  Forall (same_lookup r1 r2) (reached maddr)
  /\ Resolve r1 maddr = Resolve r2 maddr.
Proof.
  intros r1 r2 maddr.
  assert (Forall (same_lookup r1 r2) (reached maddr)) as Hm.
  { repeat apply List.Forall_cons; try apply List.Forall_nil.
    split; [discriminate|reflexivity]. }
  split; [exact Hm|].
  exact (Resolve_lookups_only r1 r2 maddr Hm).
Defined.
